(** * Conversational product-search backend: chunker, response reconciler
      and session store, embedded from the Python sources.

    Conventions of the embedding.
    - A Python [str] used as an identifier, a name, a message or a dictionary
      key is a [string]; the body of a document ([content], [text_chunk]) is
      a [list ascii], so that [len] is [length] and the slice [t[a:b]] is
      [take]/[drop].
    - A [Dict[str, Any]] is a [gmap string pyval]; a Python [set] of ids is a
      [gset string].
    - A Python [float] is a [pyfloat]: a rational (every finite float is
      one; [-0.0] is [0.0], to which it compares equal), an infinity or the
      not-a-number value, with the comparisons of Python.  A distance of the
      vector store and a modification time of a file, which are numbers, are
      rationals.
    - [uuid.uuid4], [str.lower] and [str.strip] are library functions; they
      are parameters of the development. *)

From Stdlib Require Import Ascii String QArith Qcanon.
From stdpp Require Import gmap strings list sorting pretty.

(** ** data_models.py *)

(** Values that may sit in a metadata dictionary. *)
Inductive pyval :=
  | VNone
  | VBool (b : bool)
  | VInt (z : Z)
  | VStr (s : string).

Global Instance pyval_eq_dec : EqDecision pyval.
Proof. solve_decision. Defined.

(** Python truthiness. *)
Definition truthy (v : pyval) : bool :=
  match v with
  | VNone => false
  | VBool b => b
  | VInt z => negb (Z.eqb z 0)
  | VStr s => negb (String.eqb s "")
  end.

Definition str_truthy (s : string) : bool := negb (String.eqb s "").

(** A [float].  A cell of the catalog file that is left empty reaches the
    [Product] constructor as the not-a-number value, which an
    [Optional[float]] field accepts. *)
Inductive pyfloat :=
  | Finite (q : Qc)
  | PosInf
  | NegInf
  | NaN.

Global Instance pyfloat_eq_dec : EqDecision pyfloat.
Proof. solve_decision. Defined.

(** [x < y] on floats: false when [x] or [y] is not a number. *)
Definition float_lt (x y : pyfloat) : bool :=
  match x, y with
  | NaN, _ | _, NaN => false
  | _, NegInf | PosInf, _ => false
  | NegInf, _ | _, PosInf => true
  | Finite p, Finite q => bool_decide (p < q)%Qc
  end.

(** [x <= y] on floats. *)
Definition float_le (x y : pyfloat) : bool :=
  match x, y with
  | NaN, _ | _, NaN => false
  | _, _ => float_lt x y || bool_decide (x = y)
  end.

Record Product := {
  product_id : string;
  product_name : string;
  category : option string;
  description : option string;
  price_usd : option pyfloat;
  currency_code : option string;
  margin_percentage : option pyfloat;
  key_ingredients : option (list string);
  tags : option (list string);
  image_url : option string
}.

Record ParsedDocument := {
  doc_id : string;
  doc_source_type : string;
  content : list ascii;
  doc_metadata : gmap string pyval
}.

Record DocumentChunk := {
  chunk_id : string;
  document_id : string;
  text_chunk : list ascii;
  source_type : string;
  metadata : gmap string pyval
}.

Record SearchQuery := {
  query : string;
  query_session_id : option string
}.

Record ProductResult := {
  product : Product;
  justification : option string;
  supporting_reviews : list DocumentChunk
}.

Record SearchResponse := {
  session_id : option string;
  results : option (list ProductResult);
  rag_contexts : option (list DocumentChunk);
  follow_up_questions : option (list string);
  answer : option string;
  contextual_justification : option string
}.

(** A conversation turn [{"role": r, "parts": [text]}]. *)
Record Turn := {
  role : string;
  parts : list string
}.

(** ** rag_pipeline.py *)

Definition TEXT_CHUNK_SIZE : nat := 512.
Definition TEXT_CHUNK_OVERLAP : nat := 50.

(** [t[a:b]] for [0 <= a]; the slice is cut at the end of [t]. *)
Definition slice {A} (t : list A) (a b : nat) : list A := take (b - a) (drop a t).

Section rag_pipeline.
(** [uuid4 n] is the value of the [n]-th call of [uuid.uuid4]; the number of
    calls made so far is threaded through the code that builds chunks. *)
Variable uuid4 : nat → string.

Definition new_chunk (p_doc : ParsedDocument) (chunk_text : list ascii)
    (calls : nat) : DocumentChunk :=
  {| chunk_id := uuid4 calls;
     document_id := doc_id p_doc;
     text_chunk := chunk_text;
     source_type := doc_source_type p_doc;
     metadata :=
       <["source_type" := VStr (doc_source_type p_doc)]>
         (<["original_doc_id" := VStr (doc_id p_doc)]> (doc_metadata p_doc)) |}.

(** The [while start < len(text)] loop of [chunk_parsed_documents]; [None]
    when the fuel runs out before the loop ends. *)
Fixpoint chunk_while (fuel : nat) (p_doc : ParsedDocument) (start : nat)
    (calls : nat) (all_chunks : list DocumentChunk)
    : option (list DocumentChunk * nat) :=
  match fuel with
  | O => None
  | S fuel' =>
      let text := content p_doc in
      if decide (start < length text) then
        let end_ := start + TEXT_CHUNK_SIZE in
        let chunk_text := slice text start end_ in
        let all_chunks := all_chunks ++ [new_chunk p_doc chunk_text calls] in
        let start := start + (TEXT_CHUNK_SIZE - TEXT_CHUNK_OVERLAP) in
        if decide (length text ≤ start) then Some (all_chunks, S calls)
        else chunk_while fuel' p_doc start (S calls) all_chunks
      else Some (all_chunks, calls)
  end.

(** The [for p_doc in parsed_docs] loop. *)
Fixpoint chunk_for (parsed_docs : list ParsedDocument) (calls : nat)
    (all_chunks : list DocumentChunk) : option (list DocumentChunk * nat) :=
  match parsed_docs with
  | [] => Some (all_chunks, calls)
  | p_doc :: rest =>
      match chunk_while (S (length (content p_doc))) p_doc 0 calls all_chunks with
      | Some (all_chunks, calls) => chunk_for rest calls all_chunks
      | None => None
      end
  end.

Definition chunk_parsed_documents (parsed_docs : list ParsedDocument)
    (calls : nat) : option (list DocumentChunk * nat) :=
  chunk_for parsed_docs calls [].
End rag_pipeline.

(** Ceiling of a quotient of naturals. *)
Definition ceil_div (a b : nat) : nat := (a + b - 1) / b.

(** The chunk count as the specification words it: [ceil((L - O) / (W - O))]
    when [L > W], else one. *)
Definition spec_chunk_count (L : nat) : nat :=
  if decide (TEXT_CHUNK_SIZE < L)
  then ceil_div (L - TEXT_CHUNK_OVERLAP) (TEXT_CHUNK_SIZE - TEXT_CHUNK_OVERLAP)
  else 1.

(** Reassembly of a document from its chunk texts: the first text whole, every
    later one without its first [TEXT_CHUNK_OVERLAP] characters. *)
Definition remove_overlap (texts : list (list ascii)) : list ascii :=
  match texts with
  | [] => []
  | t :: ts => t ++ concat (map (drop TEXT_CHUNK_OVERLAP) ts)
  end.

(** ** llm_handler.py *)

(** One entry of the retrieval batch, as [query_vector_store] returns it:
    [{"id": .., "text_chunk": .., "metadata": .., "distance": ..}]. *)
Record RawDict := {
  raw_id : string;
  raw_text_chunk : option (list ascii);
  raw_metadata : option (gmap string pyval);
  raw_distance : option Qc
}.

(** The exception classes that [get_conversational_response] tells apart. *)
Inductive exn_class :=
  | JSONDecodeError
  | ValidationError
  | ValueError
  | ResourceExhausted
  | InternalServerError
  | ServiceUnavailable
  | DeadlineExceeded
  | BlockedPromptException
  | StopCandidateException
  | GoogleAPIError
  | OtherException.

Global Instance exn_class_eq_dec : EqDecision exn_class.
Proof. solve_decision. Defined.

(** A raised exception: its class and [str(e)]. *)
Record exn := {
  exn_cls : exn_class;
  exn_str : string
}.

(** The direct base class, where it is one of the classes above:
    [json.JSONDecodeError] and [pydantic.ValidationError] derive from
    [ValueError], the four service errors from [GoogleAPIError]. *)
Definition base_class (c : exn_class) : option exn_class :=
  match c with
  | JSONDecodeError | ValidationError => Some ValueError
  | ResourceExhausted | InternalServerError | ServiceUnavailable
  | DeadlineExceeded => Some GoogleAPIError
  | _ => None
  end.

Definition isinstance (e : exn) (c : exn_class) : bool :=
  bool_decide (exn_cls e = c) || bool_decide (base_class (exn_cls e) = Some c).

(** [sub in s] on strings. *)
Fixpoint str_contains (sub s : string) : bool :=
  String.prefix sub s ||
  match s with
  | EmptyString => false
  | String _ s' => str_contains sub s'
  end.

(** What the model's JSON object holds once [json.loads] and
    the [SearchResponse] constructor have accepted it: the validated
    response, and the two raw id fields that are read from the dictionary,
    as the lists of ids that the loops walk.  The fields are not validated:
    a value that cannot be walked ([null] for the review ids, a number) or
    an entry that cannot be looked up (a list, an object) makes the attempt
    raise, which is an outcome [Raised] below; an entry that is no string
    is an id that is not found and is left out here. *)
Record LlmJson := {
  parsed_response : SearchResponse;
  used_rag_context_ids : list string;
  (** per entry of ["results"], its ["supporting_review_chunk_ids"] *)
  raw_llm_results : list (list string)
}.

(** Where in the body of the [try] an exception is raised: in
    [send_message_async] or in [response.text], before [raw_llm_output] is
    assigned; between the assignments of [raw_llm_output] and [json_string]
    (the [ValueError] for the missing braces); or after the assignment of
    [json_string] ([json.loads], the [SearchResponse] constructor and the
    walk over the id fields). *)
Inductive stage :=
  | BeforeOutput
  | BeforeJsonString
  | AfterJsonString.

Global Instance stage_eq_dec : EqDecision stage.
Proof. solve_decision. Defined.

(** The outcome of the [try] body up to the object with its id fields:
    either the object, or the exception raised on the way and the place
    where it was raised. *)
Inductive attempt_outcome :=
  | Replied (llm_json_response : LlmJson)
  | Raised (at_ : stage) (e : exn).

(** An exception that no handler of the module catches. *)
Inductive escaped :=
  | TypeError
  | AttributeError
  | UnboundLocalError (name : string).

(** A call either returns a value or lets an exception escape. *)
Inductive result (A : Type) :=
  | Returns (a : A)
  | Escapes (e : escaped).
Arguments Returns {A} a.
Arguments Escapes {A} e.

(** What [_format_rag_contexts] puts into the text of one context: its
    number, the chunk id, the source type, the text cut to a preview, and
    the metadata. *)
Record FormattedContext := {
  context_number : nat;
  context_chunk_id : string;
  context_source_type : pyval;
  context_text_chunk : list ascii;
  context_metadata : gmap string pyval
}.

(** The body of the loop of [_format_rag_contexts]: [len] of a text that is
    [None] raises [TypeError], [get] on a metadata that is [None] raises
    [AttributeError]. *)
Definition format_rag_context (i : nat) (context : RawDict) : result FormattedContext :=
  match raw_text_chunk context with
  | None => Escapes TypeError
  | Some text_chunk =>
      let text_chunk :=
        if decide (300 < length text_chunk)
        then take 297 text_chunk ++ list_ascii_of_string "..."
        else text_chunk in
      match raw_metadata context with
      | None => Escapes AttributeError
      | Some metadata_info =>
          Returns {| context_number := i + 1;
                     context_chunk_id := raw_id context;
                     context_source_type :=
                       default (VStr "unknown source") (metadata_info !! "source_type");
                     context_text_chunk := text_chunk;
                     context_metadata := metadata_info |}
      end
  end.

(** [_format_rag_contexts], before the contexts are joined into one string;
    the empty list stands for the sentence that no context was found. *)
Fixpoint format_rag_contexts_from (i : nat) (rag_contexts : list RawDict)
    : result (list FormattedContext) :=
  match rag_contexts with
  | [] => Returns []
  | context :: rest =>
      match format_rag_context i context with
      | Escapes e => Escapes e
      | Returns formatted =>
          match format_rag_contexts_from (S i) rest with
          | Escapes e => Escapes e
          | Returns formatted_contexts => Returns (formatted :: formatted_contexts)
          end
      end
  end.

Definition _format_rag_contexts (rag_contexts : list RawDict)
    : result (list FormattedContext) :=
  format_rag_contexts_from 0 rag_contexts.

Definition opt_truthy (v : option pyval) : bool :=
  match v with
  | Some v => truthy v
  | None => false
  end.

Definition text_truthy (t : option (list ascii)) : bool :=
  match t with
  | Some (_ :: _) => true
  | _ => false
  end.

(** A [str] field of a pydantic model accepts a [str] only. *)
Definition as_str (v : option pyval) : option string :=
  match v with
  | Some (VStr s) => Some s
  | _ => None
  end.

(** [{raw_dict.get('id'): raw_dict for raw_dict in rag_contexts_raw_dicts
      if raw_dict.get('id')}]: a later entry replaces an earlier one. *)
Definition build_raw_dict_map (rag_contexts_raw_dicts : list RawDict)
    : gmap string RawDict :=
  foldl (λ m raw_dict,
           if str_truthy (raw_id raw_dict) then <[raw_id raw_dict := raw_dict]> m
           else m)
        ∅ rag_contexts_raw_dicts.

(** [raw_dict_map]: empty, or filled when [rag_contexts_raw_dicts] is not
    empty. *)
Definition raw_dict_map_of (rag_contexts_raw_dicts : list RawDict)
    : gmap string RawDict :=
  match rag_contexts_raw_dicts with
  | [] => ∅
  | _ => build_raw_dict_map rag_contexts_raw_dicts
  end.

(** The body of the loop over [used_ids_from_llm]: [None] when the id is
    dropped (unknown id, a missing critical field, or a field rejected by the
    [DocumentChunk] constructor). *)
Definition hydrate_rag_context (raw_dict_map : gmap string RawDict)
    (chunk_id_from_llm : string) : option DocumentChunk :=
  match raw_dict_map !! chunk_id_from_llm with
  | Some raw_dict =>
      let current_metadata := default ∅ (raw_metadata raw_dict) in
      let doc_id_val := current_metadata !! "original_doc_id" in
      let source_type_val := current_metadata !! "source_type" in
      let text_chunk_val := raw_text_chunk raw_dict in
      if negb (str_truthy chunk_id_from_llm && opt_truthy doc_id_val &&
               opt_truthy source_type_val && text_truthy text_chunk_val)
      then None
      else
        match as_str doc_id_val, as_str source_type_val, text_chunk_val with
        | Some d, Some s, Some t =>
            Some {| chunk_id := chunk_id_from_llm; document_id := d;
                    source_type := s; text_chunk := t;
                    metadata := current_metadata |}
        | _, _, _ => None
        end
  | None => None
  end.

(** The body of the loop over [review_chunk_ids_for_product]. *)
Definition hydrate_review (raw_dict_map : gmap string RawDict)
    (review_chunk_id : string) : option DocumentChunk :=
  match raw_dict_map !! review_chunk_id with
  | Some raw_review_dict =>
      let current_metadata := default ∅ (raw_metadata raw_review_dict) in
      let doc_id_val := current_metadata !! "original_doc_id" in
      let source_type_val := current_metadata !! "source_type" in
      let text_chunk_val := raw_text_chunk raw_review_dict in
      if negb (str_truthy review_chunk_id && opt_truthy doc_id_val &&
               opt_truthy source_type_val && text_truthy text_chunk_val)
      then None
      else if negb (bool_decide (source_type_val = Some (VStr "review")))
      then None
      else
        match as_str doc_id_val, as_str source_type_val, text_chunk_val with
        | Some d, Some s, Some t =>
            Some {| chunk_id := review_chunk_id; document_id := d;
                    source_type := s; text_chunk := t;
                    metadata := current_metadata |}
        | _, _, _ => None
        end
  | None => None
  end.

Definition with_supporting_reviews (r : ProductResult)
    (reviews : list DocumentChunk) : ProductResult :=
  {| product := product r; justification := justification r;
     supporting_reviews := reviews |}.

(** [for i, product_result_obj in enumerate(parsed_response.results)]. *)
Definition hydrate_results (raw_dict_map : gmap string RawDict)
    (raw_llm_results : list (list string)) (results : list ProductResult)
    : list ProductResult :=
  imap (λ i product_result_obj,
          match raw_llm_results !! i with
          | Some review_chunk_ids_for_product =>
              with_supporting_reviews product_result_obj
                (omap (hydrate_review raw_dict_map) review_chunk_ids_for_product)
          | None => product_result_obj
          end) results.

Definition opt_str_truthy (s : option string) : bool :=
  match s with
  | Some s => str_truthy s
  | None => false
  end.

Definition list_truthy {A} (l : option (list A)) : bool :=
  match l with
  | Some (_ :: _) => true
  | _ => false
  end.

Definition canned_response (session_id : option string)
    (error_message error_justification : string) : SearchResponse :=
  {| session_id := session_id;
     answer := Some error_message;
     contextual_justification := Some error_justification;
     results := Some []; rag_contexts := Some [];
     follow_up_questions := Some [] |}.

(** The message pair chosen after the loop from [last_exception]. *)
Definition error_message_for (last_exception : option exn) : string * string :=
  match last_exception with
  | None =>
      ("Sorry, I'm having trouble connecting to my brain right now. Please try again later.",
       "LLM API call failed after multiple attempts.")
  | Some e =>
      if isinstance e JSONDecodeError then
        ("Sorry, I had trouble processing that. Could you try rephrasing?",
         "LLM response parsing error after multiple attempts.")
      else if isinstance e ValidationError then
        ("Sorry, I encountered an issue with the response structure. Please try again.",
         "LLM response validation error after multiple attempts.")
      else if isinstance e ValueError &&
              str_contains "LLM output not in expected JSON format" (exn_str e) then
        ("Sorry, I couldn't generate a structured response. Please try again.",
         "LLM output format error after multiple attempts.")
      else if isinstance e ResourceExhausted then
        ("I'm a bit overwhelmed at the moment. Please try again in a few moments.",
         "Rate limit reached. Please try again later.")
      else if isinstance e InternalServerError || isinstance e ServiceUnavailable
              || isinstance e DeadlineExceeded then
        ("There seems to be a temporary issue with the AI service. Please try again shortly.",
         "AI service unavailable or server error.")
      else if isinstance e GoogleAPIError then
        ("An issue occurred while communicating with the AI service. Please try again.",
         "AI service communication error.")
      else
        ("Sorry, I'm having trouble connecting to my brain right now. Please try again later.",
         "LLM API call failed after multiple attempts.")
  end.

Definition max_retries : nat := 3.

Section llm_handler.
(** [GOOGLE_API_KEY], from the environment. *)
Variable GOOGLE_API_KEY : option string.
(** [send_message_async history attempt]: what the [try] body of the given
    attempt (counted from 0) runs into, for a chat started with the given
    history. *)
Variable send_message_async : list Turn → nat → attempt_outcome.
(** The value of [str(uuid.uuid4())], were it called for this request. *)
Variable new_uuid : string.

(** The rest of the [try] body, from the validated object to [return]. *)
Definition build_response (llm_json_response : LlmJson)
    (rag_contexts_raw_dicts : list RawDict) (session_id_arg : option string)
    : SearchResponse :=
  let parsed_response := parsed_response llm_json_response in
  let used_ids_from_llm := used_rag_context_ids llm_json_response in
  let raw_dict_map := raw_dict_map_of rag_contexts_raw_dicts in
  let hydrated_rag_contexts :=
    omap (hydrate_rag_context raw_dict_map) used_ids_from_llm in
  let results' :=
    match results parsed_response, rag_contexts_raw_dicts with
    | Some (r :: rs), _ :: _ =>
        Some (hydrate_results raw_dict_map (raw_llm_results llm_json_response)
                (r :: rs))
    | res, _ => res
    end in
  let session_id' :=
    if opt_str_truthy (session_id parsed_response)
    then session_id parsed_response
    else if opt_str_truthy session_id_arg then session_id_arg
    else Some new_uuid in
  let follow_up_questions' :=
    match follow_up_questions parsed_response with
    | None => Some []
    | Some qs => Some qs
    end in
  {| session_id := session_id';
     results := results';
     rag_contexts := Some hydrated_rag_contexts;
     follow_up_questions := follow_up_questions';
     answer := answer parsed_response;
     contextual_justification := contextual_justification parsed_response |}.

(** [for attempt in range(max_retries)]; the empty list is the code after
    the loop.  The loop state is [last_exception] and, for each of the
    locals [raw_llm_output] and [json_string], whether an attempt has
    assigned it yet: the handlers of [JSONDecodeError] and [ValueError]
    read the former for their log line and the handler of [ValidationError]
    the latter, and reading a local that is not assigned raises
    [UnboundLocalError] out of the handler.  The [except] clauses are tried
    in the order of the source. *)
Fixpoint retry_loop (history : list Turn)
    (rag_contexts_raw_dicts : list RawDict) (session_id_arg : option string)
    (attempts : list nat) (last_exception : option exn)
    (raw_llm_output_bound json_string_bound : bool) : result SearchResponse :=
  match attempts with
  | [] =>
      let '(error_message, error_justification) :=
        error_message_for last_exception in
      Returns (canned_response session_id_arg error_message error_justification)
  | attempt :: rest =>
      match send_message_async history attempt with
      | Replied llm_json_response =>
          Returns (build_response llm_json_response rag_contexts_raw_dicts
                     session_id_arg)
      | Raised at_ e =>
          let raw_llm_output_bound :=
            raw_llm_output_bound || negb (bool_decide (at_ = BeforeOutput)) in
          let json_string_bound :=
            json_string_bound || bool_decide (at_ = AfterJsonString) in
          let next_attempt :=
            retry_loop history rag_contexts_raw_dicts session_id_arg rest (Some e)
              raw_llm_output_bound json_string_bound in
          if isinstance e JSONDecodeError then
            if raw_llm_output_bound then next_attempt
            else Escapes (UnboundLocalError "raw_llm_output")
          else if isinstance e ValidationError then
            if json_string_bound then next_attempt
            else Escapes (UnboundLocalError "json_string")
          else if isinstance e ValueError then
            if raw_llm_output_bound then next_attempt
            else Escapes (UnboundLocalError "raw_llm_output")
          else if isinstance e ResourceExhausted then next_attempt
          else if isinstance e InternalServerError || isinstance e ServiceUnavailable
                  || isinstance e DeadlineExceeded then next_attempt
          else if isinstance e BlockedPromptException then
            Returns (canned_response session_id_arg
                       "The request could not be processed due to content policy."
                       "Content policy violation.")
          else if isinstance e StopCandidateException then
            Returns (canned_response session_id_arg
                       "The response generation was stopped. This might be due to safety settings or other reasons."
                       "Response generation incomplete.")
          else next_attempt
      end
  end.

(** The model and the chat are taken to be set up without an error; the
    prompt holds the formatted contexts, which are built before the first
    attempt and outside the [try]. *)
Definition get_conversational_response (query : string)
    (rag_contexts_raw_dicts : list RawDict) (session_id_arg : option string)
    (conversation_history : list Turn) : result SearchResponse :=
  match GOOGLE_API_KEY with
  | Some (String _ _) =>
      match _format_rag_contexts rag_contexts_raw_dicts with
      | Escapes e => Escapes e
      | Returns formatted_rag =>
          retry_loop conversation_history rag_contexts_raw_dicts session_id_arg
            (seq 0 max_retries) None false false
      end
  | _ =>
      Returns (canned_response session_id_arg
                 "LLM service is not configured. Please provide an API key."
                 "LLM service unavailable.")
  end.
End llm_handler.

(** ** api/routers/search.py *)

(** A request either returns a value or ends in [HTTPException(status)]. *)
Inductive outcome (A : Type) :=
  | Ok (a : A)
  | HTTPException (status_code : nat).
Arguments Ok {A} a.
Arguments HTTPException {A} status_code.

Global Instance outcome_ret : MRet outcome := λ A a, Ok a.

Global Instance outcome_bind : MBind outcome := λ A B f x,
  match x with
  | Ok a => f a
  | HTTPException s => HTTPException s
  end.

(** The literal passed to [rating_str.count] in the source, byte for byte. *)
Definition STAR_GLYPH : string := "â˜…".

(** [s.count(sub)] for a non-empty [sub]: occurrences from the left that do
    not overlap.  [skip] is the number of characters still covered by the
    occurrence found last. *)
Fixpoint str_count_from (sub : string) (skip : nat) (s : string) : nat :=
  match s with
  | EmptyString => 0
  | String _ s' =>
      match skip with
      | S skip' => str_count_from sub skip' s'
      | O =>
          if String.prefix sub s
          then S (str_count_from sub (String.length sub - 1) s')
          else str_count_from sub 0 s'
      end
  end.

Definition str_count (s sub : string) : nat := str_count_from sub 0 s.

(** [{p.product_id: p for p in product_catalog_list}]: for a repeated id the
    last record stays. *)
Definition build_product_catalog_dict (product_catalog_list : list Product)
    : gmap string Product :=
  foldl (λ m p, <[product_id p := p]> m) ∅ product_catalog_list.

(** The loop that keeps the results whose product id is in the catalog. *)
Fixpoint validate_results (product_catalog_dict : gmap string Product)
    (llm_results : list ProductResult) : list ProductResult :=
  match llm_results with
  | [] => []
  | p_res_from_llm :: rest =>
      match product_catalog_dict !! product_id (product p_res_from_llm) with
      | Some authoritative_product =>
          {| product := authoritative_product;
             justification := justification p_res_from_llm;
             supporting_reviews := supporting_reviews p_res_from_llm |}
          :: validate_results product_catalog_dict rest
      | None => validate_results product_catalog_dict rest
      end
  end.

(** [list.sort(key=.., reverse=True)] on keyed entries whose keys are
    numbers: a stable sort into non-increasing key order, made with [<]
    alone.  An entry is put in front of the first entry whose key is not
    greater than its own. *)
Fixpoint insert_desc {A} (x : pyfloat * A) (l : list (pyfloat * A))
    : list (pyfloat * A) :=
  match l with
  | [] => [x]
  | y :: l' =>
      if float_lt x.1 y.1 then y :: insert_desc x l' else x :: y :: l'
  end.

Fixpoint sort_desc {A} (l : list (pyfloat * A)) : list (pyfloat * A) :=
  match l with
  | [] => []
  | x :: l' => insert_desc x (sort_desc l')
  end.

(** What [list.sort] makes of a list of results whose keys are not all
    numbers.  With a not-a-number key, [<] is no order and the language says
    no more of the outcome than that the list keeps its entries; the
    outcome is left to the interpreter. *)
Definition unordered_sort : Type :=
  ∀ l : list ProductResult, { sorted : list ProductResult | sorted ≡ₚ l }.

(** The results that carry a margin, each with its sort key. *)
Definition with_margin (results : list ProductResult)
    : list (pyfloat * ProductResult) :=
  omap (λ p_res, (λ m, (m, p_res)) <$> margin_percentage (product p_res)) results.

Definition without_margin (results : list ProductResult) : list ProductResult :=
  filter (λ p_res, margin_percentage (product p_res) = None) results.

(** [products_with_margin_percentage.sort(key=.., reverse=True)]. *)
Definition sort_by_margin (list_sort : unordered_sort)
    (products_with_margin_percentage : list (pyfloat * ProductResult))
    : list ProductResult :=
  if decide (Forall (λ x, x.1 ≠ NaN) products_with_margin_percentage)
  then snd <$> sort_desc products_with_margin_percentage
  else proj1_sig (list_sort (snd <$> products_with_margin_percentage)).

Definition rerank (list_sort : unordered_sort) (results : list ProductResult)
    : list ProductResult :=
  let products_with_margin_percentage := with_margin results in
  let products_without_margin_percentage := without_margin results in
  match products_with_margin_percentage with
  | [] => results
  | _ :: _ =>
      sort_by_margin list_sort products_with_margin_percentage
        ++ products_without_margin_percentage
  end.

Definition MAX_HISTORY_TURNS : nat := 10.

Section search.
Variable str_lower : string → string.
Variable str_strip : string → string.

(** The test that sets [matches_product]. *)
Definition matches_product (context_chunk : DocumentChunk)
    (product_id_to_match product_name_to_match : string) : bool :=
  let metadata_product_id := metadata context_chunk !! "product_id" in
  let metadata_product_name_raw :=
    default (VStr "") (metadata context_chunk !! "product_name") in
  let metadata_product_name :=
    match metadata_product_name_raw with
    | VStr s => str_lower s
    | _ => ""
    end in
  if opt_truthy metadata_product_id &&
     bool_decide (metadata_product_id = Some (VStr product_id_to_match))
  then true
  else if negb (opt_truthy metadata_product_id) &&
          str_truthy metadata_product_name &&
          bool_decide (metadata_product_name = product_name_to_match)
  then true
  else false.

(** [context_chunk.metadata.get("rating", "").strip()]; a rating that is
    not a [str] has no [strip] and the call raises. *)
Definition rating_str_of (context_chunk : DocumentChunk) : option string :=
  match metadata context_chunk !! "rating" with
  | None => Some (str_strip "")
  | Some (VStr s) => Some (str_strip s)
  | Some _ => None
  end.

(** [for context_chunk in all_relevant_contexts_from_llm], for one product.
    The state is [moved_review_chunk_ids],
    [existing_review_ids_for_this_product] and the product's
    [supporting_reviews]. *)
Fixpoint scan_contexts (product_id_to_match product_name_to_match : string)
    (contexts : list DocumentChunk)
    (moved_review_chunk_ids existing_review_ids_for_this_product : gset string)
    (reviews : list DocumentChunk)
    : outcome (gset string * gset string * list DocumentChunk) :=
  match contexts with
  | [] =>
      Ok (moved_review_chunk_ids, existing_review_ids_for_this_product, reviews)
  | context_chunk :: rest =>
      let continue_ :=
        scan_contexts product_id_to_match product_name_to_match rest
          moved_review_chunk_ids existing_review_ids_for_this_product reviews in
      if decide (chunk_id context_chunk ∈ moved_review_chunk_ids) then continue_
      else if decide (chunk_id context_chunk ∈ existing_review_ids_for_this_product)
      then continue_
      else if decide (source_type context_chunk = "review") then
        if matches_product context_chunk product_id_to_match product_name_to_match
        then
          match rating_str_of context_chunk with
          | None => HTTPException 500
          | Some rating_str =>
              let star_count := str_count rating_str STAR_GLYPH in
              if decide (3 ≤ star_count) then
                scan_contexts product_id_to_match product_name_to_match rest
                  ({[chunk_id context_chunk]} ∪ moved_review_chunk_ids)
                  ({[chunk_id context_chunk]} ∪ existing_review_ids_for_this_product)
                  (reviews ++ [context_chunk])
              else continue_
          end
        else continue_
      else continue_
  end.

Definition name_to_match (p : Product) : string :=
  if str_truthy (product_name p) then str_lower (product_name p) else "".

(** [for product_res in llm_response.results]. *)
Fixpoint reconcile (results : list ProductResult)
    (all_relevant_contexts_from_llm : list DocumentChunk)
    (moved_review_chunk_ids : gset string)
    : outcome (list ProductResult * gset string) :=
  match results with
  | [] => Ok ([], moved_review_chunk_ids)
  | product_res :: rest =>
      let product_id_to_match := product_id (product product_res) in
      let product_name_to_match := name_to_match (product product_res) in
      let existing_review_ids_for_this_product : gset string :=
        list_to_set (chunk_id <$> supporting_reviews product_res) in
      '(moved, _, reviews) ←
        scan_contexts product_id_to_match product_name_to_match
          all_relevant_contexts_from_llm moved_review_chunk_ids
          existing_review_ids_for_this_product (supporting_reviews product_res);
      '(rest', moved) ← reconcile rest all_relevant_contexts_from_llm moved;
      mret (with_supporting_reviews product_res reviews :: rest', moved)
  end.

(** The two loops that fill [final_top_level_contexts]. *)
Definition top_level_contexts (all_relevant_contexts_from_llm : list DocumentChunk)
    (moved_review_chunk_ids : gset string) : list DocumentChunk :=
  filter (λ context_chunk, chunk_id context_chunk ∉ moved_review_chunk_ids)
    all_relevant_contexts_from_llm.

(** The text kept in the history for the model's turn. *)
Definition response_summary_for_history (llm_response : SearchResponse) : string :=
  let response_parts :=
    (match answer llm_response with
     | Some a => if str_truthy a then [a] else []
     | None => []
     end) ++
    (match contextual_justification llm_response with
     | Some j => if str_truthy j then [j] else []
     | None => []
     end) ++
    (match follow_up_questions llm_response with
     | Some (q :: qs) =>
         [String.append "Follow-up questions: " (String.concat "; " (q :: qs))]
     | _ => []
     end) in
  let response_parts :=
    match response_parts with
    | [] => ["Okay."]
    | _ => response_parts
    end in
  str_strip (String.concat " " response_parts).

(** The update of [_user_conversations] at the end of a request. *)
Definition update_conversations
    (_user_conversations : gmap (option string) (list Turn))
    (current_session_id_for_history : option string)
    (query : string) (llm_response : SearchResponse)
    : gmap (option string) (list Turn) :=
  let history := default [] (_user_conversations !! current_session_id_for_history) in
  let history := history ++ [ {| role := "user"; parts := [query] |} ] in
  let history :=
    history ++ [ {| role := "model";
                    parts := [response_summary_for_history llm_response] |} ] in
  let history :=
    if decide (MAX_HISTORY_TURNS * 2 < length history)
    then drop (length history - MAX_HISTORY_TURNS * 2) history
    else history in
  <[current_session_id_for_history := history]> _user_conversations.
End search.

(** What one request gets from outside: the configuration and the answers
    of its collaborators. *)
Record Env := {
  (** [GOOGLE_API_KEY] *)
  env_api_key : option string;
  (** the list returned by [query_vector_store] for the query *)
  env_rag_results : list RawDict;
  (** the return of [get_products_from_file], or the [HTTPException] it raises *)
  env_products : outcome (list Product);
  (** the generative model, see [send_message_async] above *)
  env_send_message_async : list Turn → nat → attempt_outcome;
  (** [str(uuid.uuid4())] *)
  env_new_uuid : string;
  (** [list.sort] on margins that are not all numbers *)
  env_list_sort : unordered_sort
}.

Definition set_results_and_contexts (llm_response : SearchResponse)
    (results' : option (list ProductResult))
    (rag_contexts' : list DocumentChunk) : SearchResponse :=
  {| session_id := session_id llm_response;
     results := results';
     rag_contexts := Some rag_contexts';
     follow_up_questions := follow_up_questions llm_response;
     answer := answer llm_response;
     contextual_justification := contextual_justification llm_response |}.

Section conversational_search.
Variable str_lower : string → string.
Variable str_strip : string → string.

(** [history_for_llm] *)
Definition history_for_llm (search_query : SearchQuery)
    (_user_conversations : gmap (option string) (list Turn)) : list Turn :=
  match query_session_id search_query with
  | Some sid =>
      if str_truthy sid then default [] (_user_conversations !! Some sid) else []
  | None => []
  end.

(** The call of [get_conversational_response]. *)
Definition llm_call (env : Env) (search_query : SearchQuery)
    (_user_conversations : gmap (option string) (list Turn))
    : result SearchResponse :=
  get_conversational_response (env_api_key env) (env_send_message_async env)
    (env_new_uuid env) (query search_query) (env_rag_results env)
    (query_session_id search_query)
    (history_for_llm search_query _user_conversations).

(** The value bound to [llm_response] by the call.  When the call raises,
    nothing is bound and the request ends; the response without any field
    then stands for the value. *)
Definition llm_response_of (env : Env) (search_query : SearchQuery)
    (_user_conversations : gmap (option string) (list Turn)) : SearchResponse :=
  match llm_call env search_query _user_conversations with
  | Returns llm_response => llm_response
  | Escapes _ =>
      {| session_id := None; results := None; rag_contexts := None;
         follow_up_questions := None; answer := None;
         contextual_justification := None |}
  end.

Definition product_catalog_dict_of (env : Env) : gmap string Product :=
  build_product_catalog_dict
    match env_products env with
    | Ok product_catalog_list => product_catalog_list
    | HTTPException _ => []
    end.

(** [llm_response.results] after the validation block. *)
Definition validated_results (env : Env) (llm_results : option (list ProductResult))
    : option (list ProductResult) :=
  match llm_results with
  | Some (r :: rs) => Some (validate_results (product_catalog_dict_of env) (r :: rs))
  | res => res
  end.

(** [llm_response.results] after the margin block. *)
Definition reranked_results (env : Env) (results : option (list ProductResult))
    : option (list ProductResult) :=
  match results with
  | Some (r :: rs) => Some (rerank (env_list_sort env) (r :: rs))
  | res => res
  end.

(** An exception that is no [HTTPException] ends the request in
    [HTTPException(500)], be it raised by [get_conversational_response] or
    by the reconciliation. *)
Definition conversational_search (env : Env) (search_query : SearchQuery)
    (_user_conversations : gmap (option string) (list Turn))
    : outcome SearchResponse * gmap (option string) (list Turn) :=
  match llm_call env search_query _user_conversations with
  | Escapes _ => (HTTPException 500, _user_conversations)
  | Returns llm_response =>
      let results :=
        reranked_results env (validated_results env (results llm_response)) in
      let all_relevant_contexts_from_llm := default [] (rag_contexts llm_response) in
      let reconciled :=
        match results with
        | Some (r :: rs) =>
            '(results', moved_review_chunk_ids) ←
              reconcile str_lower str_strip (r :: rs) all_relevant_contexts_from_llm ∅;
            mret (Some results',
                  top_level_contexts all_relevant_contexts_from_llm
                    moved_review_chunk_ids)
        | _ => mret (results, top_level_contexts all_relevant_contexts_from_llm ∅)
        end in
      match reconciled with
      | Ok (results', final_top_level_contexts) =>
          let llm_response :=
            set_results_and_contexts llm_response results' final_top_level_contexts in
          (Ok llm_response,
           update_conversations str_strip _user_conversations (session_id llm_response)
             (query search_query) llm_response)
      | HTTPException _ => (HTTPException 500, _user_conversations)
      end
  end.

(** The server handling requests one after the other, from a given content
    of [_user_conversations]. *)
Fixpoint serve (requests : list (Env * SearchQuery))
    (_user_conversations : gmap (option string) (list Turn))
    : gmap (option string) (list Turn) :=
  match requests with
  | [] => _user_conversations
  | (env, search_query) :: rest =>
      serve rest (conversational_search env search_query _user_conversations).2
  end.
End conversational_search.

(** ** Instances of the library functions, for evaluating the code *)

Definition ascii_lower (c : ascii) : ascii :=
  let n := nat_of_ascii c in
  if decide (65 ≤ n ∧ n ≤ 90) then ascii_of_nat (n + 32) else c.

Fixpoint lower_ascii (s : string) : string :=
  match s with
  | EmptyString => EmptyString
  | String c s' => String (ascii_lower c) (lower_ascii s')
  end.

Fixpoint lstrip_ascii (s : string) : string :=
  match s with
  | String c s' => if Ascii.is_space c then lstrip_ascii s' else s
  | EmptyString => EmptyString
  end.

Definition strip_ascii (s : string) : string :=
  String.rev (lstrip_ascii (String.rev (lstrip_ascii s))).

Definition uuid4_numbered (n : nat) : string := String.append "uuid-" (pretty n).

(** ** Notions used to state the properties *)

(** The result kept for a model-proposed result: the catalog record for the
    asserted id, with the model's justification and supporting reviews. *)
Definition authoritative (product_catalog_dict : gmap string Product)
    (p_res_from_llm : ProductResult) : option ProductResult :=
  (λ authoritative_product,
     {| product := authoritative_product;
        justification := justification p_res_from_llm;
        supporting_reviews := supporting_reviews p_res_from_llm |})
  <$> product_catalog_dict !! product_id (product p_res_from_llm).

(** The ids of a list of chunks. *)
Definition chunk_ids (l : list DocumentChunk) : gset string :=
  list_to_set (chunk_id <$> l).

(** What the response says of a result apart from its evidence. *)
Definition recommendation (r : ProductResult) : Product * option string :=
  (product r, justification r).

Definition has_margin (r : ProductResult) : Prop :=
  is_Some (margin_percentage (product r)).

Definition lacks_margin (r : ProductResult) : Prop :=
  margin_percentage (product r) = None.

(** [r1] may stand before [r2] in a list ordered by decreasing margin. *)
Definition margin_desc (r1 r2 : ProductResult) : Prop :=
  match margin_percentage (product r1), margin_percentage (product r2) with
  | Some m1, Some m2 => float_le m2 m1 = true
  | _, _ => False
  end.

(** No result has a margin that is not a number. *)
Definition margins_are_numbers (rs : list ProductResult) : Prop :=
  ∀ r, r ∈ rs → margin_percentage (product r) ≠ Some NaN.

Section promotion_rule.
Variable str_lower : string → string.
Variable str_strip : string → string.

(** The chunk's metadata names the product by its id. *)
Definition matches_by_id (c : DocumentChunk) (p : Product) : Prop :=
  metadata c !! "product_id" = Some (VStr (product_id p)) ∧ product_id p ≠ "".

(** The chunk's metadata carries no product id and names the product by
    its name, letter case aside. *)
Definition matches_by_name (c : DocumentChunk) (p : Product) : Prop :=
  opt_truthy (metadata c !! "product_id") = false ∧
  ∃ s, metadata c !! "product_name" = Some (VStr s) ∧
       str_lower s ≠ "" ∧ str_lower s = name_to_match str_lower p.

(** The rating in the chunk's metadata shows three star glyphs or more. *)
Definition positive_rating (c : DocumentChunk) : Prop :=
  ∃ rating_str, rating_str_of str_strip c = Some rating_str ∧
                3 ≤ str_count rating_str STAR_GLYPH.


(** The test the reconciliation loop makes on a chunk and a product before
    it promotes the chunk. *)
Definition eligible (c : DocumentChunk) (p : Product) : Prop :=
  source_type c = "review" ∧
  matches_product str_lower c (product_id p) (name_to_match str_lower p) = true ∧
  positive_rating c.

(** The promotion rule as the specification words it, for a chunk [c] and a
    result [r] of the list [ranked] of recommended products: (a) [c] is not
    yet a supporting review of any product, (b) it matches the product of
    [r], (c) its rating is positive. *)
Definition spec_promotion_rule (ranked : list ProductResult)
    (c : DocumentChunk) (r : ProductResult) : Prop :=
  (∀ r0, r0 ∈ ranked → chunk_id c ∉ chunk_ids (supporting_reviews r0)) ∧
  (matches_by_id c (product r) ∨ matches_by_name c (product r)) ∧
  positive_rating c.
End promotion_rule.

(** The distance between two window starts. *)
Definition chunk_step : nat := TEXT_CHUNK_SIZE - TEXT_CHUNK_OVERLAP.

(** The order of the keyed entries after the sort. *)
Definition margin_ge {A} (a b : pyfloat * A) : Prop := float_le b.1 a.1 = true.

(** A result with promoted chunks appended to its supporting reviews. *)
Definition add_promoted (r : ProductResult) (pr : list DocumentChunk) : ProductResult :=
  with_supporting_reviews r (supporting_reviews r ++ pr).

Section closed_forms.
Variable uuid4 : nat → string.
Variable str_lower : string → string.
Variable str_strip : string → string.

(** The chunks of the windows [start], [start + step], ... ([m] of them). *)
Definition window_chunks (p_doc : ParsedDocument) (start calls m : nat)
    : list DocumentChunk :=
  (λ j, new_chunk uuid4 p_doc
          (slice (content p_doc) (start + j * chunk_step)
                 (start + j * chunk_step + TEXT_CHUNK_SIZE))
          (calls + j)) <$> seq 0 m.

(** The chunks of one document. *)
Definition doc_chunks (p_doc : ParsedDocument) (calls : nat) : list DocumentChunk :=
  window_chunks p_doc 0 calls (ceil_div (length (content p_doc)) chunk_step).

(** The lowered product name found in the metadata, [""] if there is none. *)
Definition metadata_name (c : DocumentChunk) : string :=
  match default (VStr "") (metadata c !! "product_name") with
  | VStr s => str_lower s
  | _ => ""
  end.

(** The chunks promoted into each result of [rs], in turn, when the loop
    starts with [moved] as the set of moved ids. *)
Fixpoint promoted_ok (ctxs : list DocumentChunk) (moved : gset string)
    (rs : list ProductResult) (promoted : list (list DocumentChunk)) : Prop :=
  match rs, promoted with
  | [], [] => True
  | r :: rs, pr :: prs =>
      pr `sublist_of` ctxs ∧
      (∀ c, c ∈ pr →
            (chunk_id c ∉ moved) ∧ (chunk_id c ∉ chunk_ids (supporting_reviews r)) ∧
            eligible str_lower str_strip c (product r)) ∧
      (∀ c, c ∈ ctxs → chunk_id c ∉ moved →
            chunk_id c ∉ chunk_ids (supporting_reviews r) →
            eligible str_lower str_strip c (product r) →
            chunk_id c ∈ chunk_ids pr) ∧
      promoted_ok ctxs (moved ∪ chunk_ids pr) rs prs
  | _, _ => False
  end.
End closed_forms.

(** The chunks the model used, as the handler hands them over. *)
Definition used_contexts (env : Env) (search_query : SearchQuery)
    (_user_conversations : gmap (option string) (list Turn)) : list DocumentChunk :=
  default [] (rag_contexts (llm_response_of env search_query _user_conversations)).

(** The results that enter the evidence reconciliation. *)
Definition ranked_results (env : Env) (search_query : SearchQuery)
    (_user_conversations : gmap (option string) (list Turn))
    : option (list ProductResult) :=
  reranked_results env
    (validated_results env
       (results (llm_response_of env search_query _user_conversations))).

(** Every stored history holds at most [2 * MAX_HISTORY_TURNS] turns. *)
Definition histories_bounded (_user_conversations : gmap (option string) (list Turn))
    : Prop :=
  ∀ sid h, _user_conversations !! sid = Some h → length h ≤ MAX_HISTORY_TURNS * 2.

(** An exception that is neither a blocked prompt nor a stopped
    generation: the loop goes on to the next attempt when the handler has
    logged it. *)
Definition retried (e : exn) : Prop :=
  exn_cls e ≠ BlockedPromptException ∧ exn_cls e ≠ StopCandidateException.

(** The retrieval batch can be formatted into the prompt: every entry has a
    text and a metadata. *)
Definition prompt_formattable (rag_contexts : list RawDict) : Prop :=
  ∀ context, context ∈ rag_contexts →
    is_Some (raw_text_chunk context) ∧ is_Some (raw_metadata context).

(** The failures of consecutive attempts, each with the place where it was
    raised, are retried one after the other: none is a blocked prompt or a
    stopped generation, and the handler of each finds the local that it logs
    assigned, in this attempt or in an earlier one ([raw_llm_output] for a
    [JSONDecodeError] and a plain [ValueError], [json_string] for a
    [ValidationError]). *)
Fixpoint retried_in_turn (raw_llm_output_bound json_string_bound : bool)
    (failures : list (stage * exn)) : Prop :=
  match failures with
  | [] => True
  | (at_, e) :: rest =>
      let raw_llm_output_bound :=
        raw_llm_output_bound || negb (bool_decide (at_ = BeforeOutput)) in
      let json_string_bound :=
        json_string_bound || bool_decide (at_ = AfterJsonString) in
      retried e ∧
      match exn_cls e with
      | JSONDecodeError | ValueError => raw_llm_output_bound = true
      | ValidationError => json_string_bound = true
      | _ => True
      end ∧
      retried_in_turn raw_llm_output_bound json_string_bound rest
  end.

(** The top-level evidence list as the specification words it: the used
    chunks that no product claims, in the order of the retrieval batch. *)
Definition spec_top_level (batch : list RawDict) (used_ids : list string)
    (rs : list ProductResult) : list DocumentChunk :=
  filter (λ c, chunk_id c ∈ used_ids ∧
               Forall (λ r, chunk_id c ∉ chunk_ids (supporting_reviews r)) rs)
    (omap (λ raw_dict, hydrate_rag_context (raw_dict_map_of batch) (raw_id raw_dict))
       batch).

(** ** Concrete inputs *)

Definition four_stars : string :=
  String.concat "" [STAR_GLYPH; STAR_GLYPH; STAR_GLYPH; STAR_GLYPH].

Definition bright_c_serum : Product :=
  {| product_id := "P001"; product_name := "Bright C Serum";
     category := Some "Serum"; description := Some "Vitamin C serum";
     price_usd := Some (Finite (Qc_of_Z 25)); currency_code := Some "USD";
     margin_percentage := Some (Finite (Qc_of_Z 55));
     key_ingredients := Some ["Vitamin C"]; tags := Some ["brightening"];
     image_url := None |}.

Definition hydra_gel : Product :=
  {| product_id := "P002"; product_name := "Hydra Gel";
     category := Some "Moisturizer"; description := None;
     price_usd := Some (Finite (Qc_of_Z 18)); currency_code := Some "USD";
     margin_percentage := Some (Finite (Qc_of_Z 40));
     key_ingredients := Some []; tags := Some [];
     image_url := None |}.

(** The product payload as the model may assert it: only the id is right. *)
Definition asserted (product_id : string) : Product :=
  {| product_id := product_id; product_name := "A serum the model made up";
     category := None; description := Some "stale text";
     price_usd := Some (Finite (Qc_of_Z 1)); currency_code := None;
     margin_percentage := None;
     key_ingredients := None; tags := None; image_url := None |}.

Definition raw_info : RawDict :=
  {| raw_id := "c1";
     raw_text_chunk := Some (list_ascii_of_string "Product Name: Bright C Serum");
     raw_metadata :=
       Some (list_to_map [("original_doc_id", VStr "product_P001");
                          ("source_type", VStr "product_info");
                          ("product_id", VStr "P001")]);
     raw_distance := None |}.

Definition raw_review (product_name : string) : RawDict :=
  {| raw_id := "r1";
     raw_text_chunk := Some (list_ascii_of_string "Review: it works");
     raw_metadata :=
       Some (list_to_map [("original_doc_id", VStr "review_txt_0");
                          ("source_type", VStr "review");
                          ("product_name", VStr product_name);
                          ("rating", VStr four_stars)]);
     raw_distance := None |}.

Definition reply (results : option (list ProductResult)) (used : list string)
    (review_ids : list (list string)) (answer : option string) : attempt_outcome :=
  Replied
    {| parsed_response :=
         {| session_id := Some "s1"; results := results; rag_contexts := None;
            follow_up_questions := None; answer := answer;
            contextual_justification := Some "Here is what I found." |};
       used_rag_context_ids := used;
       raw_llm_results := review_ids |}.

Definition proposal (product_id : string) : ProductResult :=
  {| product := asserted product_id; justification := Some "fits the query";
     supporting_reviews := [] |}.

(** The sort that leaves a list as it is. *)
Definition list_unchanged : unordered_sort :=
  λ l, l ↾ Permutation_refl l.

Definition env_of (batch : list RawDict) (llm : attempt_outcome) : Env :=
  {| env_api_key := Some "key";
     env_rag_results := batch;
     env_products := Ok [bright_c_serum; hydra_gel];
     env_send_message_async := λ _ _, llm;
     env_new_uuid := "uuid-0";
     env_list_sort := list_unchanged |}.

(** The model recommends [P001], cites the review [r1] for it and lists both
    chunks as used. *)
Definition env_cited : Env :=
  env_of [raw_info; raw_review "Bright C Serum"]
    (reply (Some [proposal "P001"]) ["c1"; "r1"] [["r1"]] None).

(** The model recommends [P001] and [P002] and cites for [P001] a review
    whose metadata names the product of [P002]. *)
Definition env_two : Env :=
  env_of [raw_review "Hydra Gel"]
    (reply (Some [proposal "P001"; proposal "P002"]) ["r1"] [["r1"]; []] None).

(** The model answers a question and lists the used chunks in the reverse
    of the retrieval order. *)
Definition env_order : Env :=
  env_of [raw_info; raw_review "Bright C Serum"]
    (reply None ["r1"; "c1"] [] (Some "It brightens.")).

(** A catalog record whose margin cell was left empty in the file. *)
Definition calm_toner : Product :=
  {| product_id := "P003"; product_name := "Calm Toner";
     category := Some "Toner"; description := None;
     price_usd := Some (Finite (Qc_of_Z 12)); currency_code := Some "USD";
     margin_percentage := Some NaN;
     key_ingredients := Some []; tags := Some [];
     image_url := None |}.

(** The catalog holds that record; the model proposes [P002], [P003] and
    [P001], and uses no chunk. *)
Definition env_blank_margin (list_sort : unordered_sort) : Env :=
  {| env_api_key := Some "key";
     env_rag_results := [];
     env_products := Ok [bright_c_serum; hydra_gel; calm_toner];
     env_send_message_async :=
       λ _ _, reply (Some [proposal "P002"; proposal "P003"; proposal "P001"])
                [] [[]; []; []] None;
     env_new_uuid := "uuid-0";
     env_list_sort := list_sort |}.

Definition a_query : SearchQuery :=
  {| query := "vitamin C serum for brightening"; query_session_id := None |}.

(** The model proposes [P002] before [P001]. *)
Definition env_rank : Env :=
  env_of [raw_info]
    (reply (Some [proposal "P002"; proposal "P001"]) ["c1"] [[]; []] None).

(** The chunks of the batch as the handler hydrates them. *)
Definition hydrated_info : DocumentChunk :=
  {| chunk_id := "c1"; document_id := "product_P001";
     text_chunk := list_ascii_of_string "Product Name: Bright C Serum";
     source_type := "product_info";
     metadata := list_to_map [("original_doc_id", VStr "product_P001");
                              ("source_type", VStr "product_info");
                              ("product_id", VStr "P001")] |}.

Definition hydrated_review (product_name : string) : DocumentChunk :=
  {| chunk_id := "r1"; document_id := "review_txt_0";
     text_chunk := list_ascii_of_string "Review: it works";
     source_type := "review";
     metadata := list_to_map [("original_doc_id", VStr "review_txt_0");
                              ("source_type", VStr "review");
                              ("product_name", VStr product_name);
                              ("rating", VStr four_stars)] |}.

(** The two results of [env_two] as they enter the reconciliation. *)
Definition serum_with_cited_review : ProductResult :=
  {| product := bright_c_serum; justification := Some "fits the query";
     supporting_reviews := [hydrated_review "Hydra Gel"] |}.

Definition gel_without_review : ProductResult :=
  {| product := hydra_gel; justification := Some "fits the query";
     supporting_reviews := [] |}.

(** Every attempt ends in a JSON decode error, raised by [json.loads]. *)
Definition json_decode_error : exn :=
  {| exn_cls := JSONDecodeError;
     exn_str := "Expecting value: line 1 column 1 (char 0)" |}.

Definition always_invalid_json (history : list Turn) (attempt : nat) : attempt_outcome :=
  Raised AfterJsonString json_decode_error.

(** A document whose content has [n] characters. *)
Definition doc_of_length (n : nat) : ParsedDocument :=
  {| doc_id := "brand_info_main_content"; doc_source_type := "brand_info";
     content := replicate n "a"%char; doc_metadata := ∅ |}.

(** The turns and the responses that the requests above lead to. *)
Definition user_turn : Turn :=
  {| role := "user"; parts := ["vitamin C serum for brightening"] |}.

Definition model_turn (text : string) : Turn :=
  {| role := "model"; parts := [text] |}.

Definition response_with (results : option (list ProductResult))
    (contexts : list DocumentChunk) (answer : option string) : SearchResponse :=
  {| session_id := Some "s1"; results := results; rag_contexts := Some contexts;
     follow_up_questions := Some []; answer := answer;
     contextual_justification := Some "Here is what I found." |}.

Definition store_with (history : list Turn) : gmap (option string) (list Turn) :=
  {[ Some "s1" := history ]}.

Definition recommended (p : Product) (reviews : list DocumentChunk) : ProductResult :=
  {| product := p; justification := Some "fits the query";
     supporting_reviews := reviews |}.

Definition cited_response : SearchResponse :=
  response_with (Some [recommended bright_c_serum [hydrated_review "Bright C Serum"]])
    [hydrated_info; hydrated_review "Bright C Serum"] None.

Definition two_response : SearchResponse :=
  response_with
    (Some [serum_with_cited_review;
           add_promoted gel_without_review [hydrated_review "Hydra Gel"]])
    [] None.

Definition order_response : SearchResponse :=
  response_with None [hydrated_review "Bright C Serum"; hydrated_info]
    (Some "It brightens.").

Definition blank_margin_response : SearchResponse :=
  response_with
    (Some [recommended hydra_gel []; recommended calm_toner [];
           recommended bright_c_serum []])
    [] None.

Definition rank_response : SearchResponse :=
  response_with (Some [recommended bright_c_serum []; recommended hydra_gel []])
    [hydrated_info] None.

Definition plain_history : list Turn :=
  [user_turn; model_turn "Here is what I found."].

Definition answer_history : list Turn :=
  [user_turn; model_turn "It brightens. Here is what I found."].

(** ** Further notions *)

(** A chunk that stems from an entry of the retrieval batch: the entry's id,
    text and metadata, with the document id and the source type that the
    metadata records. *)
Definition from_batch (batch : list RawDict) (c : DocumentChunk) : Prop :=
  ∃ raw_dict, raw_dict ∈ batch ∧
    raw_id raw_dict = chunk_id c ∧
    raw_text_chunk raw_dict = Some (text_chunk c) ∧
    raw_metadata raw_dict = Some (metadata c) ∧
    metadata c !! "original_doc_id" = Some (VStr (document_id c)) ∧
    metadata c !! "source_type" = Some (VStr (source_type c)).

(** A history made of pairs: a user turn, then a model turn. *)
Fixpoint turn_pairs (h : list Turn) : Prop :=
  match h with
  | [] => True
  | u :: rest =>
      match rest with
      | [] => False
      | m :: rest' => role u = "user" ∧ role m = "model" ∧ turn_pairs rest'
      end
  end.

(** The model's reply lists supporting review ids for each of its results. *)
Definition reply_aligned (o : attempt_outcome) : Prop :=
  match o with
  | Replied j =>
      length (raw_llm_results j) = length (default [] (results (parsed_response j)))
  | Raised _ _ => True
  end.

(** ** rag_pipeline.py, the vector store side *)

(** The dictionary returned by [collection.query]: one inner list per query
    embedding. *)
Record ChromaQueryResult := {
  res_ids : list (list string);
  res_documents : option (list (list (option (list ascii))));
  res_metadatas : option (list (list (option (gmap string pyval))));
  res_distances : option (list (list Qc))
}.

(** [column[0][i] if column else None]: the outer [None] stands for the
    [IndexError] of an index out of range, the inner one for Python's
    [None]. *)
Definition cell {A} (column : option (list (list A))) (i : nat) : option (option A) :=
  match column with
  | Some (row :: rows) => Some <$> (row !! i)
  | _ => Some None
  end.

(** The loop of [query_vector_store] that builds [formatted_results];
    [None] when an index is out of range. *)
Definition format_query_results (results : ChromaQueryResult) : option (list RawDict) :=
  match res_ids results with
  | (_ :: _) as ids0 :: _ =>
      mapM (λ i,
              id_ ← ids0 !! i;
              text_chunk_ ← cell (res_documents results) i;
              metadata_ ← cell (res_metadatas results) i;
              distance_ ← cell (res_distances results) i;
              Some {| raw_id := id_;
                      raw_text_chunk := mjoin text_chunk_;
                      raw_metadata := mjoin metadata_;
                      raw_distance := distance_ |})
           (seq 0 (length ids0))
  | _ => Some []
  end.

(** The three lists that [add_chunks_to_vector_store] hands to
    [collection.add] beside the embeddings: ids, metadatas, documents. *)
Definition add_arguments (chunks : list DocumentChunk)
    : list string * list (gmap string pyval) * list (list ascii) :=
  (chunk_id <$> chunks, metadata <$> chunks, text_chunk <$> chunks).

(** What the store answers for hits that were added with [add_arguments]: for
    each hit the id, the document and the metadata of the call of
    [collection.add], and a distance.  This is the contract of the store,
    which is not part of the sources. *)
Definition query_result_of (hits : list DocumentChunk) (distances : list Qc)
    : ChromaQueryResult :=
  let '(ids, metadatas, documents) := add_arguments hits in
  {| res_ids := [ids];
     res_documents := Some [Some <$> documents];
     res_metadatas := Some [Some <$> metadatas];
     res_distances := Some [distances] |}.

Section all_chunks.
Variable uuid4 : nat → string.

(** The chunks of a list of documents, document after document. *)
Fixpoint all_doc_chunks (parsed_docs : list ParsedDocument) (calls : nat)
    : list DocumentChunk :=
  match parsed_docs with
  | [] => []
  | p_doc :: rest =>
      doc_chunks uuid4 p_doc calls ++
      all_doc_chunks rest (calls + length (doc_chunks uuid4 p_doc calls))
  end.
End all_chunks.

(** The entry of the retrieval batch for a stored chunk. *)
Definition raw_dict_of (c : DocumentChunk) (distance : Qc) : RawDict :=
  {| raw_id := chunk_id c;
     raw_text_chunk := Some (text_chunk c);
     raw_metadata := Some (metadata c);
     raw_distance := Some distance |}.

(** ** api/routers/products.py *)

(** The module globals [_products_cache] and [_products_cache_mtime]. *)
Record ProductsCache := {
  _products_cache : list Product;
  _products_cache_mtime : option Qc
}.

(** The catalog file as one call sees it: [st_mtime] is [None] when
    [stat()] raises [FileNotFoundError]; [load_products_from_csv] is the list
    the loader returns, or the exception it raises. *)
Record CatalogFile := {
  st_mtime : option Qc;
  load_products_from_csv : exn + list Product
}.

Definition cache_stale (st : ProductsCache) (current_mtime : Qc) : bool :=
  match _products_cache st, _products_cache_mtime st with
  | [], _ => true
  | _, None => true
  | _, Some cached_mtime => bool_decide (cached_mtime < current_mtime)%Qc
  end.

Definition get_products_from_file (file : CatalogFile) (st : ProductsCache)
    : outcome (list Product) * ProductsCache :=
  match st_mtime file with
  | None =>
      (HTTPException 500,
       {| _products_cache := []; _products_cache_mtime := None |})
  | Some current_mtime =>
      if cache_stale st current_mtime then
        match load_products_from_csv file with
        | inr loaded_products =>
            let st' :=
              {| _products_cache :=
                   match loaded_products with
                   | [] => []
                   | _ => loaded_products
                   end;
                 _products_cache_mtime := Some current_mtime |} in
            (Ok (_products_cache st'), st')
        | inl e => (HTTPException 500, st)
        end
      else (Ok (_products_cache st), st)
  end.

(** [list_products]: an [HTTPException] is raised again as it is. *)
Definition list_products (file : CatalogFile) (st : ProductsCache)
    : outcome (list Product) * ProductsCache :=
  match get_products_from_file file st with
  | (Ok products, st') => (Ok products, st')
  | (HTTPException status_code, st') => (HTTPException status_code, st')
  end.

Definition clear_product_cache (st : ProductsCache) : ProductsCache :=
  {| _products_cache := []; _products_cache_mtime := None |}.

(** ** data_loader.py, the reviews file *)

(** [s.split(sep)] for a separator of one character. *)
Fixpoint str_split (sep : ascii) (s : string) : list string :=
  match s with
  | EmptyString => [EmptyString]
  | String c rest =>
      if decide (c = sep) then EmptyString :: str_split sep rest
      else
        match str_split sep rest with
        | part :: parts => String c part :: parts
        | [] => [String c EmptyString]
        end
  end.

(** [l.index(x)]; [None] stands for [ValueError]. *)
Fixpoint list_index (x : string) (l : list string) : option nat :=
  match l with
  | [] => None
  | y :: l' => if decide (y = x) then Some 0 else S <$> list_index x l'
  end.

Definition TAB : ascii := "009"%char.

Section data_loader.
Variable str_strip : string → string.

(** The [ParsedDocument] built for one line of the reviews file; [i] is the
    index of the line among [lines[1:]]. *)
Definition review_document (file_path reviewer product_name_ rating review_text : string)
    (i doc_content_identifier : nat) : ParsedDocument :=
  {| doc_id := "review_txt_" +:+ pretty doc_content_identifier;
     doc_source_type := "review";
     content :=
       list_ascii_of_string
         ("Review for " +:+ product_name_ +:+ " by " +:+ reviewer +:+
          " (Rating: " +:+ rating +:+ "): " +:+ review_text);
     doc_metadata :=
       <["line_number" := VInt (Z.of_nat (i + 2))]>
         (<["rating" := VStr rating]>
            (<["product_name" := VStr product_name_]>
               (<["reviewer" := VStr reviewer]>
                  (<["source_file" := VStr file_path]> ∅)))) |}.

(** [for i, line in enumerate(lines[1:])]; the state is the index [i] and
    [doc_content_identifier].  A lookup that gives [None] stands for the
    [IndexError] that the loop catches. *)
Fixpoint review_lines (file_path : string)
    (headers_len reviewer_idx product_idx rating_idx review_text_idx : nat)
    (lines : list string) (i doc_content_identifier : nat) : list ParsedDocument :=
  match lines with
  | [] => []
  | line0 :: rest =>
      let continue_ :=
        review_lines file_path headers_len reviewer_idx product_idx rating_idx
          review_text_idx rest (S i) in
      let line := str_strip line0 in
      if negb (str_truthy line) then continue_ doc_content_identifier
      else
        let parts := str_split TAB line in
        if decide (length parts = headers_len) then
          match parts !! reviewer_idx, parts !! product_idx,
                parts !! rating_idx, parts !! review_text_idx with
          | Some reviewer, Some product_name_, Some rating, Some review_text =>
              review_document file_path (str_strip reviewer) (str_strip product_name_)
                (str_strip rating) (str_strip review_text) i doc_content_identifier
              :: continue_ (S doc_content_identifier)
          | _, _, _, _ => continue_ doc_content_identifier
          end
        else continue_ doc_content_identifier
  end.

(** [headers] of a header line. *)
Definition headers_of (first_line : string) : list string :=
  str_strip <$> str_split TAB (str_strip first_line).

(** [load_reviews_from_txt]; [file] is what [f.readlines()] gives, [None]
    when opening or reading the file raises. *)
Definition load_reviews_from_txt (file_path : string) (file : option (list string))
    : list ParsedDocument :=
  match file with
  | None => []
  | Some [] => []
  | Some (first_line :: rest) =>
      let headers := headers_of first_line in
      match list_index "Reviewer" headers, list_index "Product" headers,
            list_index "Rating" headers, list_index "Review" headers with
      | Some reviewer_idx, Some product_idx, Some rating_idx, Some review_text_idx =>
          review_lines file_path (length headers) reviewer_idx product_idx
            rating_idx review_text_idx rest 0 0
      | _, _, _, _ => []
      end
  end.

(** A line of the reviews file that is not blank and has as many columns
    as the header. *)
Definition well_formed_line (headers_len : nat) (line0 : string) : bool :=
  str_truthy (str_strip line0) &&
  bool_decide (length (str_split TAB (str_strip line0)) = headers_len).
End data_loader.

(** ** Further concrete inputs *)

(** The object the model returns for a question. *)
Definition answer_json : LlmJson :=
  {| parsed_response :=
       {| session_id := Some "s1"; results := None; rag_contexts := None;
          follow_up_questions := None; answer := Some "It brightens.";
          contextual_justification := Some "Here is what I found." |};
     used_rag_context_ids := ["c1"];
     raw_llm_results := [] |}.

(** The first attempt ends in a JSON decode error, raised by [json.loads];
    the second one replies. *)
Definition second_attempt_replies (history : list Turn) (attempt : nat)
    : attempt_outcome :=
  if decide (attempt = 1) then Replied answer_json
  else Raised AfterJsonString json_decode_error.

Definition blocked_prompt : exn :=
  {| exn_cls := BlockedPromptException; exn_str := "prompt blocked" |}.

Definition always_blocked (history : list Turn) (attempt : nat) : attempt_outcome :=
  Raised BeforeOutput blocked_prompt.

(** The catalog file is missing. *)
Definition env_no_catalog : Env :=
  {| env_api_key := Some "key";
     env_rag_results := [raw_info];
     env_products := HTTPException 500;
     env_send_message_async :=
       λ _ _, reply (Some [proposal "P001"]) ["c1"] [[]] None;
     env_new_uuid := "uuid-0";
     env_list_sort := list_unchanged |}.

Definition no_catalog_response : SearchResponse :=
  response_with (Some []) [hydrated_info] None.

(** The one chunk of a document of three characters. *)
Definition brand_chunk : DocumentChunk :=
  new_chunk uuid4_numbered (doc_of_length 3) (content (doc_of_length 3)) 0.

Definition empty_cache : ProductsCache :=
  {| _products_cache := []; _products_cache_mtime := None |}.

Definition catalog_file (products : list Product) : CatalogFile :=
  {| st_mtime := Some (Qc_of_Z 1); load_products_from_csv := inr products |}.

Definition unreadable_catalog_file : CatalogFile :=
  {| st_mtime := Some (Qc_of_Z 1);
     load_products_from_csv :=
       inl {| exn_cls := OtherException; exn_str := "No columns to parse from file" |} |}.

(** A row of a tab separated file. *)
Definition tab_row (columns : list string) : string :=
  String.concat (String TAB EmptyString) columns +:+ String "010"%char EmptyString.

(** A reviews file with a header, two reviews, a blank line and a line that
    lacks a column. *)
Definition reviews_header : string :=
  tab_row ["Reviewer"; "Product"; "Rating"; "Review"].

Definition reviews_rows : list string :=
  [ tab_row ["Ana"; "Bright C Serum"; four_stars; "Glowing skin"];
    String "010"%char EmptyString;
    tab_row ["Ben"; "Hydra Gel"; "Too sticky"];
    tab_row ["Cleo"; "Hydra Gel"; four_stars; "Light and fresh"] ].

Definition review_of_ana : ParsedDocument :=
  review_document "verified_reviews.txt" "Ana" "Bright C Serum" four_stars
    "Glowing skin" 0 0.

Definition review_of_cleo : ParsedDocument :=
  review_document "verified_reviews.txt" "Cleo" "Hydra Gel" four_stars
    "Light and fresh" 3 1.

Definition review_chunk (p_doc : ParsedDocument) (calls : nat) : DocumentChunk :=
  new_chunk uuid4_numbered p_doc (content p_doc) calls.



(** [response.text] raises [ValueError] at the first attempt: the reply has
    no text part. *)
Definition reply_without_text : exn :=
  {| exn_cls := ValueError;
     exn_str := "The response.text quick accessor only works when the response contains a valid Part" |}.

Definition env_no_text : Env :=
  {| env_api_key := Some "key";
     env_rag_results := [raw_info];
     env_products := Ok [bright_c_serum; hydra_gel];
     env_send_message_async :=
       λ _ attempt,
         if decide (attempt = 0) then Raised BeforeOutput reply_without_text
         else reply None ["c1"] [] (Some "It brightens.");
     env_new_uuid := "uuid-0";
     env_list_sort := list_unchanged |}.

(** An entry of the retrieval batch for which the store gave no document. *)
Definition raw_without_text : RawDict :=
  {| raw_id := "c2"; raw_text_chunk := None;
     raw_metadata := Some (list_to_map [("source_type", VStr "brand_info")]);
     raw_distance := None |}.

Definition env_no_document : Env :=
  env_of [raw_info; raw_without_text] (reply None ["c1"] [] (Some "It brightens.")).

(** * Properties *)

(** ** Facts on the chunker *)

Lemma chunk_step_pos : 0 < chunk_step.
Proof. unfold chunk_step, TEXT_CHUNK_SIZE, TEXT_CHUNK_OVERLAP. lia. Qed.

Lemma ceil_div_0 b : 0 < b → ceil_div 0 b = 0.
Proof. intros Hb. unfold ceil_div. apply Nat.div_small. lia. Qed.

Lemma ceil_div_S a b : 0 < b → 0 < a → ceil_div a b = S (ceil_div (a - b) b).
Proof.
  intros Hb Ha. unfold ceil_div.
  destruct (decide (a ≤ b)) as [Hab|Hab].
  - replace (a - b + b - 1) with (b - 1) by lia.
    rewrite (Nat.div_small (b - 1)) by lia.
    replace (a + b - 1) with ((a - 1) + 1 * b) by lia.
    rewrite Nat.div_add by lia. rewrite Nat.div_small by lia. done.
  - replace (a + b - 1) with ((a - b + b - 1) + 1 * b) by lia.
    rewrite Nat.div_add by lia. lia.
Qed.

Section chunker_facts.
Variable uuid4 : nat → string.

Lemma window_chunks_S p_doc start calls m :
  window_chunks uuid4 p_doc start calls (S m) =
  new_chunk uuid4 p_doc (slice (content p_doc) start (start + TEXT_CHUNK_SIZE)) calls
    :: window_chunks uuid4 p_doc (start + chunk_step) (S calls) m.
Proof.
  unfold window_chunks. cbn [seq fmap list_fmap].
  rewrite Nat.mul_0_l, !Nat.add_0_r. f_equal.
  rewrite <- seq_shift, <- list_fmap_compose. apply list_fmap_ext.
  intros i j _. cbn. f_equal; [f_equal; lia | lia].
Qed.

Lemma chunk_while_closed fuel p_doc start calls all_chunks :
  let m := ceil_div (length (content p_doc) - start) chunk_step in
  m < fuel →
  chunk_while uuid4 fuel p_doc start calls all_chunks =
    Some (all_chunks ++ window_chunks uuid4 p_doc start calls m, calls + m).
Proof.
  revert start calls all_chunks.
  induction fuel as [|fuel IH]; intros start calls all_chunks m Hm; [lia|].
  cbn [chunk_while]. pose proof chunk_step_pos as Hs.
  fold chunk_step. subst m.
  destruct (decide (start < length (content p_doc))) as [Hlt|Hge].
  - rewrite ceil_div_S in * by lia.
    rewrite window_chunks_S.
    replace (length (content p_doc) - start - chunk_step)
      with (length (content p_doc) - (start + chunk_step)) in * by lia.
    destruct (decide (length (content p_doc) ≤ start + chunk_step)) as [Hend|Hmore].
    + replace (length (content p_doc) - (start + chunk_step)) with 0 by lia.
      rewrite ceil_div_0 by done. cbn. do 2 f_equal. lia.
    + rewrite IH by lia. rewrite <- app_assoc. cbn. do 2 f_equal. lia.
  - replace (length (content p_doc) - start) with 0 by lia.
    rewrite ceil_div_0 by done. cbn. by rewrite app_nil_r, Nat.add_0_r.
Qed.
End chunker_facts.

Lemma ceil_div_le a b : 0 < b → ceil_div a b ≤ a.
Proof.
  intros Hb. destruct (decide (a = 0)) as [->|Ha]; [by rewrite ceil_div_0|].
  unfold ceil_div. apply Nat.lt_succ_r, Nat.Div0.div_lt_upper_bound. nia.
Qed.

Lemma ceil_div_covers a b : 0 < b → a ≤ ceil_div a b * b.
Proof.
  intros Hb. unfold ceil_div.
  pose proof (Nat.div_mod (a + b - 1) b ltac:(lia)) as Hdm.
  pose proof (Nat.mod_upper_bound (a + b - 1) b ltac:(lia)). nia.
Qed.

Lemma slice_from_0 {A} (t : list A) b : slice t 0 b = take b t.
Proof. unfold slice. by rewrite Nat.sub_0_r, drop_0. Qed.

Lemma slice_window {A} (t : list A) a w : slice t a (a + w) = take w (drop a t).
Proof. unfold slice. f_equal. lia. Qed.

Lemma drop_slice_window {A} (t : list A) a w o :
  drop o (slice t a (a + w)) = take (w - o) (drop (a + o) t).
Proof. rewrite slice_window, skipn_firstn_comm. by rewrite drop_drop. Qed.

(** Pieces of width [s] laid end to end from position [a]. *)
Lemma take_pieces {A} (t : list A) a s n :
  take a t ++ concat ((λ j, take s (drop (a + j * s) t)) <$> seq 0 n)
  = take (a + n * s) t.
Proof.
  induction n as [|n IH].
  - cbn. by rewrite app_nil_r, Nat.add_0_r.
  - rewrite seq_S, fmap_app, concat_app, app_assoc, IH. cbn.
    rewrite app_nil_r, take_take_drop. f_equal. lia.
Qed.

Section chunker_facts2.
Variable uuid4 : nat → string.

Lemma chunk_document_closed p_doc calls all_chunks :
  chunk_while uuid4 (S (length (content p_doc))) p_doc 0 calls all_chunks =
    Some (all_chunks ++ doc_chunks uuid4 p_doc calls, calls + length (doc_chunks uuid4 p_doc calls)).
Proof.
  rewrite chunk_while_closed; rewrite Nat.sub_0_r.
  - unfold doc_chunks, window_chunks. by rewrite length_fmap, length_seq.
  - apply Nat.lt_succ_r, ceil_div_le, chunk_step_pos.
Qed.

Lemma chunk_for_total parsed_docs : ∀ calls all_chunks,
  ∃ new calls',
    chunk_for uuid4 parsed_docs calls all_chunks = Some (all_chunks ++ new, calls') ∧
    chunk_for uuid4 parsed_docs calls [] = Some (new, calls').
Proof.
  induction parsed_docs as [|d rest IH]; intros calls all_chunks; cbn [chunk_for].
  - exists [], calls. by rewrite app_nil_r.
  - rewrite !chunk_document_closed. cbn [app].
    destruct (IH (calls + length (doc_chunks uuid4 d calls)) (all_chunks ++ doc_chunks uuid4 d calls))
      as (new & calls' & H1 & H2).
    destruct (IH (calls + length (doc_chunks uuid4 d calls)) (doc_chunks uuid4 d calls))
      as (new' & calls'' & H3 & H4).
    rewrite H2 in H4. simplify_eq.
    exists (doc_chunks uuid4 d calls ++ new'), calls''. by rewrite H1, H3, app_assoc.
Qed.

Lemma chunk_for_app xs ys calls all_chunks :
  chunk_for uuid4 (xs ++ ys) calls all_chunks =
  match chunk_for uuid4 xs calls all_chunks with
  | Some (all_chunks, calls) => chunk_for uuid4 ys calls all_chunks
  | None => None
  end.
Proof.
  revert calls all_chunks. induction xs as [|d xs IH]; intros calls all_chunks; [done|].
  cbn [app chunk_for]. rewrite chunk_document_closed. apply IH.
Qed.

(** The output for [pre ++ d :: post] is the output for [pre], then the
    chunks of [d], then the output for [post]. *)
Lemma chunk_parsed_documents_split pre d post calls :
  ∃ before c1 after c3,
    chunk_parsed_documents uuid4 pre calls = Some (before, c1) ∧
    chunk_parsed_documents uuid4 post (c1 + length (doc_chunks uuid4 d c1)) = Some (after, c3) ∧
    chunk_parsed_documents uuid4 (pre ++ d :: post) calls =
      Some (before ++ doc_chunks uuid4 d c1 ++ after, c3).
Proof.
  unfold chunk_parsed_documents.
  destruct (chunk_for_total pre calls []) as (before & c1 & Hpre & _).
  cbn [app] in Hpre.
  destruct (chunk_for_total post (c1 + length (doc_chunks uuid4 d c1)) (before ++ doc_chunks uuid4 d c1))
    as (after & c3 & Hpost & Hpost').
  exists before, c1, after, c3. split_and!; [done..|].
  rewrite chunk_for_app, Hpre. cbn [chunk_for].
  rewrite chunk_document_closed, Hpost. by rewrite app_assoc.
Qed.

Lemma doc_chunks_length p_doc calls :
  length (doc_chunks uuid4 p_doc calls) = ceil_div (length (content p_doc)) chunk_step.
Proof. unfold doc_chunks, window_chunks. by rewrite length_fmap, length_seq. Qed.

Lemma doc_chunks_lookup p_doc calls k c :
  doc_chunks uuid4 p_doc calls !! k = Some c →
  c = new_chunk uuid4 p_doc
        (slice (content p_doc) (k * chunk_step) (k * chunk_step + TEXT_CHUNK_SIZE))
        (calls + k).
Proof.
  unfold doc_chunks, window_chunks. rewrite list_lookup_fmap.
  intros H. apply fmap_Some in H as (j & Hj & ->).
  apply lookup_seq in Hj as [-> _]. done.
Qed.

Lemma doc_chunks_reassemble p_doc calls :
  remove_overlap (text_chunk <$> doc_chunks uuid4 p_doc calls) = content p_doc.
Proof.
  unfold doc_chunks. pose proof chunk_step_pos as Hs.
  pose proof (ceil_div_covers (length (content p_doc)) chunk_step Hs) as Hcov.
  destruct (ceil_div (length (content p_doc)) chunk_step) as [|m].
  - cbn. symmetry. apply nil_length_inv. lia.
  - rewrite window_chunks_S. cbn [fmap list_fmap remove_overlap text_chunk new_chunk].
    rewrite slice_from_0. unfold window_chunks.
    rewrite <- !list_fmap_compose.
    erewrite (list_fmap_ext _ (λ j, take chunk_step (drop (TEXT_CHUNK_SIZE + j * chunk_step) (content p_doc)))).
    + rewrite take_pieces. apply take_ge.
      unfold chunk_step in *. unfold TEXT_CHUNK_SIZE, TEXT_CHUNK_OVERLAP in *. lia.
    + intros i j _. cbn [compose text_chunk new_chunk].
      rewrite drop_slice_window. fold chunk_step. f_equal. f_equal.
      unfold chunk_step, TEXT_CHUNK_SIZE, TEXT_CHUNK_OVERLAP. lia.
Qed.
End chunker_facts2.

(** ** Facts on the order of floats *)

Lemma float_lt_le x y : float_lt x y = true → float_le x y = true.
Proof. destruct x, y; cbn; try done. by intros ->. Qed.

Lemma float_le_refl x : x ≠ NaN → float_le x x = true.
Proof.
  destruct x; cbn; try done. intros _.
  rewrite (bool_decide_eq_true_2 (Finite q = Finite q)) by done. apply orb_true_r.
Qed.

Lemma float_le_total x y :
  x ≠ NaN → y ≠ NaN → float_lt x y = false → float_le y x = true.
Proof.
  destruct x as [p| | |], y as [q| | |]; cbn; try done. intros _ _ Hlt.
  apply bool_decide_eq_false in Hlt. apply Qcnot_lt_le in Hlt.
  apply Qcle_lt_or_eq in Hlt as [Hlt| ->].
  - by rewrite (bool_decide_eq_true_2 _ Hlt).
  - rewrite (bool_decide_eq_true_2 (Finite p = Finite p)) by done. apply orb_true_r.
Qed.

Lemma float_le_finite p q : float_le (Finite p) (Finite q) = true ↔ (p ≤ q)%Qc.
Proof.
  cbn. rewrite orb_true_iff, !bool_decide_eq_true. split.
  - intros [H|[= ->]]; [by apply Qclt_le_weak|apply Qcle_refl].
  - intros [H| ->]%Qcle_lt_or_eq; [by left|by right].
Qed.

Lemma float_le_trans x y z :
  float_le x y = true → float_le y z = true → float_le x z = true.
Proof.
  destruct x as [p| | |], y as [q| | |], z as [r| | |]; try done.
  rewrite !float_le_finite. apply Qcle_trans.
Qed.

Lemma float_lt_not_le x y : float_lt x y = true → float_le y x = false.
Proof.
  destruct x as [p| | |], y as [q| | |]; cbn; try done.
  intros Hlt%bool_decide_eq_true. apply orb_false_iff. split.
  - apply bool_decide_eq_false. apply Qcle_not_lt. by apply Qclt_le_weak.
  - apply bool_decide_eq_false. intros [= ->]. by apply Qclt_not_eq in Hlt.
Qed.

(** ** Facts on the sort *)

Lemma insert_desc_perm {A} (x : pyfloat * A) l : insert_desc x l ≡ₚ x :: l.
Proof.
  induction l as [|y l IH]; cbn; [done|].
  destruct (float_lt _ _); [|done]. rewrite IH. apply Permutation_swap.
Qed.

Lemma sort_desc_perm {A} (l : list (pyfloat * A)) : sort_desc l ≡ₚ l.
Proof.
  induction l as [|x l IH]; cbn; [done|]. by rewrite insert_desc_perm, IH.
Qed.

Lemma insert_desc_sorted {A} (x : pyfloat * A) l :
  x.1 ≠ NaN → Forall (λ y, y.1 ≠ NaN) l →
  StronglySorted margin_ge l → StronglySorted margin_ge (insert_desc x l).
Proof.
  intros Hx Hl Hs. induction Hs as [|y l Hs IH Hy]; cbn.
  - repeat constructor.
  - apply Forall_cons in Hl as [Hyn Hl].
    destruct (float_lt x.1 y.1) eqn:Hlt.
    + constructor; [by apply IH|]. rewrite insert_desc_perm. constructor; [|done].
      unfold margin_ge. by apply float_lt_le.
    + assert (float_le y.1 x.1 = true) as Hle by (by apply float_le_total).
      constructor; [by constructor|]. constructor; [done|].
      eapply Forall_impl; [exact Hy|]. intros z Hz. unfold margin_ge in *.
      by eapply float_le_trans.
Qed.

Lemma sort_desc_sorted {A} (l : list (pyfloat * A)) :
  Forall (λ y, y.1 ≠ NaN) l → StronglySorted margin_ge (sort_desc l).
Proof.
  induction l as [|x l IH]; cbn; [constructor|]. intros [Hx Hl]%Forall_cons.
  apply insert_desc_sorted; [done| |by apply IH]. by rewrite sort_desc_perm.
Qed.

(** Entries with equal keys keep their order: the sort is stable. *)
Lemma insert_desc_filter {A} (P : pyfloat * A → Prop) `{!∀ x, Decision (P x)}
    (x : pyfloat * A) l :
  (∀ y, y ∈ l → P x → P y → float_le y.1 x.1 = true) →
  filter P (insert_desc x l) = filter P (x :: l).
Proof.
  induction l as [|y l IH]; intros Hle; cbn; [done|].
  destruct (float_lt x.1 y.1) eqn:Hlt; [|done].
  rewrite !filter_cons. rewrite IH by (intros; apply Hle; [by right|done..]).
  rewrite filter_cons.
  destruct (decide (P x)) as [Hx|]; [|done].
  destruct (decide (P y)) as [Hy|]; [|done].
  apply float_lt_not_le in Hlt. rewrite Hle in Hlt; [done|by left|done..].
Qed.

Lemma sort_desc_stable {A} (l : list (pyfloat * A)) (m : pyfloat) :
  m ≠ NaN →
  filter (λ x, x.1 = m) (sort_desc l) = filter (λ x, x.1 = m) l.
Proof.
  intros Hm. induction l as [|x l IH]; cbn [sort_desc]; [done|].
  rewrite insert_desc_filter.
  - by rewrite !filter_cons, IH.
  - intros y _ -> ->. by apply float_le_refl.
Qed.

(** ** Facts on validation and re-ranking *)

Lemma validate_results_omap dict l :
  validate_results dict l = omap (authoritative dict) l.
Proof.
  induction l as [|r l IH]; cbn; [done|]. unfold authoritative at 1.
  destruct (dict !! product_id (product r)); cbn; by rewrite IH.
Qed.

Lemma build_product_catalog_dict_lookup l k p :
  build_product_catalog_dict l !! k = Some p → product_id p = k ∧ p ∈ l.
Proof.
  unfold build_product_catalog_dict.
  assert (∀ (l0 : list Product) (m : gmap string Product),
            (∀ k p, m !! k = Some p → product_id p = k ∧ p ∈ l) →
            (∀ p, p ∈ l0 → p ∈ l) →
            ∀ k p, foldl (λ m p, <[product_id p := p]> m) m l0 !! k = Some p →
                   product_id p = k ∧ p ∈ l) as H.
  { induction l0 as [|q l0 IH]; intros m Hm Hsub k' p'; cbn; [by apply Hm|].
    apply IH.
    - intros k'' p''. rewrite lookup_insert. case_decide; [|by apply Hm].
      intros [= <-]. split; [done|]. apply Hsub. by left.
    - intros p'' ?. apply Hsub. by right. }
  apply (H l ∅); [|done]. intros ??. by rewrite lookup_empty.
Qed.

Lemma with_margin_elem m r rs :
  (m, r) ∈ with_margin rs ↔ r ∈ rs ∧ margin_percentage (product r) = Some m.
Proof.
  unfold with_margin. rewrite list_elem_of_omap. split.
  - intros (r' & Hr' & Heq). destruct (margin_percentage (product r')) eqn:E; [|done].
    cbn in Heq. by simplify_eq.
  - intros [Hr E]. exists r. by rewrite E.
Qed.

Lemma with_margin_nil rs : with_margin rs = [] → without_margin rs = rs.
Proof.
  unfold with_margin, without_margin.
  induction rs as [|r rs IH]; [done|].
  rewrite filter_cons. cbn [omap list_omap].
  destruct (margin_percentage (product r)) eqn:E; cbn [fmap option_fmap option_map]; [done|].
  intros H. rewrite decide_True by done. by rewrite IH.
Qed.

Lemma margin_split_perm rs : (snd <$> with_margin rs) ++ without_margin rs ≡ₚ rs.
Proof.
  unfold with_margin, without_margin.
  induction rs as [|r rs IH]; [done|]. rewrite filter_cons. cbn [omap list_omap].
  destruct (margin_percentage (product r)) eqn:E; cbn [fmap option_fmap option_map].
  - rewrite decide_False by done. cbn. by rewrite IH.
  - rewrite decide_True by done. rewrite <- Permutation_middle. by rewrite IH.
Qed.

Lemma with_margin_snd rs :
  snd <$> with_margin rs = filter has_margin rs.
Proof.
  unfold with_margin, has_margin.
  induction rs as [|r rs IH]; [done|]. rewrite filter_cons. cbn [omap list_omap].
  destruct (margin_percentage (product r)) eqn:E; cbn [fmap option_fmap option_map].
  - rewrite decide_True by done. rewrite fmap_cons. cbn [snd]. by rewrite IH.
  - rewrite decide_False by (by intros [??]). done.
Qed.

Lemma sorted_by_margin (l : list (pyfloat * ProductResult)) :
  (∀ m r, (m, r) ∈ l → margin_percentage (product r) = Some m) →
  StronglySorted margin_ge l → StronglySorted margin_desc (snd <$> l).
Proof.
  intros Hkey Hs. induction Hs as [|[m r] l Hl IH Hx]; cbn; [constructor|].
  constructor.
  - apply IH. intros ???. apply Hkey. by right.
  - rewrite Forall_fmap. rewrite Forall_forall in Hx. apply Forall_forall.
    intros [m' r'] Hin. unfold margin_desc; cbn.
    rewrite (Hkey m r) by left. rewrite (Hkey m' r') by (by right).
    by apply (Hx (m', r')).
Qed.

Lemma filter_margin_snd (l : list (pyfloat * ProductResult)) m :
  (∀ m r, (m, r) ∈ l → margin_percentage (product r) = Some m) →
  filter (λ r, margin_percentage (product r) = Some m) (snd <$> l)
  = snd <$> filter (λ x, x.1 = m) l.
Proof.
  induction l as [|[m' r'] l IH]; intros Hl; [done|].
  rewrite fmap_cons, !filter_cons; cbn [fst snd]. rewrite (Hl m' r') by left.
  rewrite IH by (intros ???; apply Hl; by right).
  destruct (decide (m' = m)) as [->|Hne].
  - rewrite decide_True by done. by rewrite fmap_cons.
  - rewrite decide_False by congruence. done.
Qed.

Lemma filter_margin_has_margin (rs : list ProductResult) m :
  filter (λ r, margin_percentage (product r) = Some m) (filter has_margin rs)
  = filter (λ r, margin_percentage (product r) = Some m) rs.
Proof.
  induction rs as [|r rs' IH]; [done|].
  rewrite !filter_cons. destruct (decide (has_margin r)) as [Hm|Hm].
  - rewrite filter_cons. by rewrite IH.
  - rewrite IH. rewrite decide_False; [done|]. intros E. apply Hm.
    unfold has_margin. by rewrite E.
Qed.

Lemma with_margin_numbers rs :
  margins_are_numbers rs → Forall (λ x, x.1 ≠ NaN) (with_margin rs).
Proof.
  intros Hrs. apply Forall_forall. intros [m r] [Hr Hm]%with_margin_elem.
  cbn. intros ->. by apply (Hrs r).
Qed.

Lemma sort_by_margin_perm list_sort rs :
  sort_by_margin list_sort (with_margin rs) ≡ₚ filter has_margin rs.
Proof.
  unfold sort_by_margin. rewrite <- with_margin_snd. case_decide.
  - by rewrite sort_desc_perm.
  - apply (proj2_sig (list_sort _)).
Qed.

(** The re-ranked list when every margin is a number: a list sorted by
    decreasing margin, holding the results with a margin, then the results
    without one in their order. *)
Lemma rerank_split list_sort rs :
  margins_are_numbers rs →
  ∃ sorted,
    rerank list_sort rs = sorted ++ filter lacks_margin rs ∧
    sorted ≡ₚ filter has_margin rs ∧
    StronglySorted margin_desc sorted ∧
    (∀ m, m ≠ NaN →
          filter (λ r, margin_percentage (product r) = Some m) sorted
          = filter (λ r, margin_percentage (product r) = Some m) rs).
Proof.
  intros Hnum%with_margin_numbers.
  unfold rerank, sort_by_margin. fold (without_margin rs).
  rewrite decide_True by done.
  assert (∀ m r, (m, r) ∈ sort_desc (with_margin rs) →
                 margin_percentage (product r) = Some m) as Hkey.
  { intros m r. rewrite sort_desc_perm, with_margin_elem. tauto. }
  exists (snd <$> sort_desc (with_margin rs)). split_and!.
  - destruct (with_margin rs) as [|x l] eqn:E; [|done].
    cbn. symmetry. by apply with_margin_nil.
  - by rewrite sort_desc_perm, with_margin_snd.
  - apply sorted_by_margin; [done|]. by apply sort_desc_sorted.
  - intros m Hm. rewrite filter_margin_snd by done. rewrite sort_desc_stable by done.
    rewrite <- filter_margin_snd by (intros ??; rewrite with_margin_elem; tauto).
    by rewrite with_margin_snd, filter_margin_has_margin.
Qed.

(** The re-ranked list, whatever the margins: the results with a margin in
    some order, then the results without one in their order. *)
Lemma rerank_parts list_sort rs :
  ∃ first,
    rerank list_sort rs = first ++ filter lacks_margin rs ∧
    first ≡ₚ filter has_margin rs.
Proof.
  unfold rerank. fold (without_margin rs).
  destruct (with_margin rs) as [|x l] eqn:E.
  - exists []. split; [symmetry; by apply with_margin_nil|].
    by rewrite <- with_margin_snd, E.
  - rewrite <- E. eexists. split; [done|]. apply sort_by_margin_perm.
Qed.

(** ** Facts on the evidence reconciliation *)

Lemma str_truthy_true s : str_truthy s = true ↔ s ≠ "".
Proof.
  unfold str_truthy. rewrite negb_true_iff. split.
  - intros H ->. by rewrite String.eqb_refl in H.
  - intros H. apply String.eqb_neq. done.
Qed.

Lemma chunk_ids_cons c l : chunk_ids (c :: l) = {[chunk_id c]} ∪ chunk_ids l.
Proof. done. Qed.

Lemma chunk_ids_elem x l : x ∈ chunk_ids l ↔ ∃ c, c ∈ l ∧ chunk_id c = x.
Proof.
  unfold chunk_ids. rewrite elem_of_list_to_set, list_elem_of_fmap. naive_solver.
Qed.

Section reconcile_facts.
Variable str_lower : string → string.
Variable str_strip : string → string.
(** Lowering the empty string gives the empty string. *)
Hypothesis str_lower_empty : str_lower "" = "".


End reconcile_facts.

Section reconcile_loops.
Variable str_lower : string → string.
Variable str_strip : string → string.

Lemma scan_contexts_spec p ctxs : ∀ moved existing reviews moved' existing' reviews',
  scan_contexts str_lower str_strip (product_id p) (name_to_match str_lower p)
    ctxs moved existing reviews = Ok (moved', existing', reviews') →
  ∃ promoted,
    reviews' = reviews ++ promoted ∧
    moved' = moved ∪ chunk_ids promoted ∧
    existing' = existing ∪ chunk_ids promoted ∧
    promoted `sublist_of` ctxs ∧
    (∀ c, c ∈ promoted →
          (chunk_id c ∉ moved) ∧ (chunk_id c ∉ existing) ∧
          eligible str_lower str_strip c p) ∧
    (∀ c, c ∈ ctxs → chunk_id c ∉ moved → chunk_id c ∉ existing →
          eligible str_lower str_strip c p → chunk_id c ∈ chunk_ids promoted).
Proof.
  induction ctxs as [|c ctxs IH]; intros moved existing reviews moved' existing' reviews' H;
    cbn [scan_contexts] in H.
  { simplify_eq. exists []. rewrite app_nil_r. split_and!; try done.
    - unfold chunk_ids; cbn. set_solver.
    - unfold chunk_ids; cbn. set_solver.
    - intros c H. by apply elem_of_nil in H.
    - intros c H. by apply elem_of_nil in H. }
  assert (∀ (Hskip : chunk_id c ∉ moved → chunk_id c ∉ existing →
                     ¬ eligible str_lower str_strip c p),
            scan_contexts str_lower str_strip (product_id p) (name_to_match str_lower p)
              ctxs moved existing reviews = Ok (moved', existing', reviews') →
            ∃ promoted,
              reviews' = reviews ++ promoted ∧
              moved' = moved ∪ chunk_ids promoted ∧
              existing' = existing ∪ chunk_ids promoted ∧
              promoted `sublist_of` c :: ctxs ∧
              (∀ c, c ∈ promoted →
                    (chunk_id c ∉ moved) ∧ (chunk_id c ∉ existing) ∧
                    eligible str_lower str_strip c p) ∧
              (∀ c0, c0 ∈ c :: ctxs → chunk_id c0 ∉ moved → chunk_id c0 ∉ existing →
                    eligible str_lower str_strip c0 p →
                    chunk_id c0 ∈ chunk_ids promoted)) as Hcontinue.
  { intros Hskip H'. apply IH in H' as (promoted & ? & ? & ? & ? & ? & Hall).
    exists promoted. split_and!; try done.
    - by apply sublist_cons.
    - intros c0 [->|Hin]%elem_of_cons ? ? ?; [|by apply Hall].
      by destruct Hskip. }
  destruct (decide (chunk_id c ∈ moved)); [apply Hcontinue; [tauto|done]|].
  destruct (decide (chunk_id c ∈ existing)); [apply Hcontinue; [tauto|done]|].
  destruct (decide (source_type c = "review")) as [Hrev|Hrev];
    [|apply Hcontinue; [|done]; intros _ _ (? & _); done].
  destruct (matches_product _ _ _ _) eqn:Hm;
    [|apply Hcontinue; [|done]; intros _ _ (_ & Hmatch & _); congruence].
  destruct (rating_str_of str_strip c) as [rating_str|] eqn:Hr; [|done].
  destruct (decide (3 ≤ str_count rating_str STAR_GLYPH)) as [Hstars|Hstars];
    [|apply Hcontinue; [|done]; intros _ _ (_ & _ & (r' & Hr' & Hge)); simplify_eq; lia].
  apply IH in H as (promoted & -> & -> & -> & Hsub & Hpr & Hall).
  exists (c :: promoted). rewrite chunk_ids_cons. split_and!.
  - by rewrite <- app_assoc.
  - set_solver.
  - set_solver.
  - by apply sublist_skip.
  - intros c0 [->|Hin]%elem_of_cons.
    + split_and!; [done..|]. split_and!; [done|done|by exists rating_str].
    + destruct (Hpr c0 Hin) as (? & ? & ?). split_and!; [set_solver..|done].
  - intros c0 [->|Hin]%elem_of_cons ? ? ?; [set_solver|].
    destruct (decide (chunk_id c0 = chunk_id c)) as [->|Hne]; [set_solver|].
    apply elem_of_union_r, Hall; [done|set_solver..|done].
Qed.

Lemma reconcile_spec ctxs rs : ∀ moved rs' moved',
  reconcile str_lower str_strip rs ctxs moved = Ok (rs', moved') →
  ∃ promoted,
    rs' = zip_with add_promoted rs promoted ∧
    moved' = moved ∪ ⋃ (chunk_ids <$> promoted) ∧
    promoted_ok str_lower str_strip ctxs moved rs promoted.
Proof.
  induction rs as [|r rs IH]; intros moved rs' moved' H; cbn [reconcile] in H.
  { injection H as <- <-. exists []. cbn. split_and!; [done|set_solver|done]. }
  destruct (scan_contexts _ _ _ _ _ _ _ _) as [[[moved1 existing1] reviews1]|] eqn:Hscan;
    [|done].
  cbn in H.
  destruct (reconcile _ _ rs ctxs moved1) as [[rest' moved2]|] eqn:Hrec; [|done].
  cbn in H. unfold mret, outcome_ret in H. injection H as <- <-.
  apply scan_contexts_spec in Hscan as (pr & -> & -> & _ & Hsub & Hpr & Hall).
  apply IH in Hrec as (prs & -> & -> & Hok).
  exists (pr :: prs). cbn [zip_with fmap list_fmap union_list promoted_ok].
  split_and!; try done.
  cbn [union_list foldr]. set_solver.
Qed.
End reconcile_loops.

(** ** Facts on [get_conversational_response] *)

Lemma hydrate_rag_context_id m x c :
  hydrate_rag_context m x = Some c → chunk_id c = x.
Proof.
  unfold hydrate_rag_context. intros H.
  repeat (case_match; try done). by simplify_eq.
Qed.

Lemma omap_hydrate_fixed m (ids : list string) c :
  c ∈ omap (hydrate_rag_context m) ids → hydrate_rag_context m (chunk_id c) = Some c.
Proof.
  rewrite list_elem_of_omap. intros (x & _ & Hx).
  by rewrite (hydrate_rag_context_id _ _ _ Hx).
Qed.

Section handler_facts.
Variable GOOGLE_API_KEY : option string.
Variable send_message_async : list Turn → nat → attempt_outcome.
Variable new_uuid : string.

(** The loop ends with the response built from a reply, with a canned
    response, or with an exception that escapes from a handler. *)
Lemma retry_loop_cases history rag sid attempts last raw_bound json_bound :
  (∃ j attempt, attempt ∈ attempts ∧
      send_message_async history attempt = Replied j ∧
      retry_loop send_message_async new_uuid history rag sid attempts last
        raw_bound json_bound
      = Returns (build_response new_uuid j rag sid)) ∨
  (∃ msg just,
      retry_loop send_message_async new_uuid history rag sid attempts last
        raw_bound json_bound
      = Returns (canned_response sid msg just)) ∨
  (∃ e,
      retry_loop send_message_async new_uuid history rag sid attempts last
        raw_bound json_bound
      = Escapes e).
Proof.
  revert last raw_bound json_bound.
  induction attempts as [|a attempts IH]; intros last raw_bound json_bound;
    cbn [retry_loop].
  - right. left. destruct (error_message_for last) as [msg just]. by exists msg, just.
  - destruct (send_message_async history a) as [j|at_ e] eqn:Hsend.
    + left. exists j, a. split_and!; [by left|done..].
    + set (raw_bound' := raw_bound || _). set (json_bound' := json_bound || _).
      assert ((∃ j attempt, attempt ∈ a :: attempts ∧
                 send_message_async history attempt = Replied j ∧
                 retry_loop send_message_async new_uuid history rag sid attempts
                   (Some e) raw_bound' json_bound'
                 = Returns (build_response new_uuid j rag sid)) ∨
              (∃ msg just,
                 retry_loop send_message_async new_uuid history rag sid attempts
                   (Some e) raw_bound' json_bound'
                 = Returns (canned_response sid msg just)) ∨
              (∃ e0,
                 retry_loop send_message_async new_uuid history rag sid attempts
                   (Some e) raw_bound' json_bound'
                 = Escapes e0)) as Hnext.
      { destruct (IH (Some e) raw_bound' json_bound')
          as [(j & k & Hk & Hj & Heq)|[?|?]]; [|by right; left|by right; right].
        left. exists j, k. split_and!; [by right|done..]. }
      repeat (case_match; try exact Hnext);
        try (right; right; eauto; fail); right; left; eauto.
Qed.

Lemma get_conversational_response_cases query rag sid history :
  (∃ j attempt, attempt < max_retries ∧
      send_message_async history attempt = Replied j ∧
      get_conversational_response GOOGLE_API_KEY send_message_async new_uuid
        query rag sid history = Returns (build_response new_uuid j rag sid)) ∨
  (∃ msg just,
      get_conversational_response GOOGLE_API_KEY send_message_async new_uuid
        query rag sid history = Returns (canned_response sid msg just)) ∨
  (∃ e,
      get_conversational_response GOOGLE_API_KEY send_message_async new_uuid
        query rag sid history = Escapes e).
Proof.
  unfold get_conversational_response.
  destruct GOOGLE_API_KEY as [[|??]|]; try (right; left; eauto; fail).
  destruct (_format_rag_contexts rag); [|right; right; eauto].
  destruct (retry_loop_cases history rag sid (seq 0 max_retries) None false false)
    as [(j & k & Hk & Hj & Heq)|?]; [|by right].
  left. exists j, k. split_and!; [|done..]. apply elem_of_seq in Hk. lia.
Qed.
End handler_facts.

(** ** Facts on [conversational_search] *)

Section search_facts.
Variable str_lower : string → string.
Variable str_strip : string → string.

(** A request that completes had its call of the handler return. *)
Lemma conversational_search_returns env q store resp store' :
  conversational_search str_lower str_strip env q store = (Ok resp, store') →
  llm_call env q store = Returns (llm_response_of env q store).
Proof.
  unfold conversational_search, llm_response_of.
  by destruct (llm_call env q store).
Qed.

Lemma conversational_search_ok env q store resp store' :
  conversational_search str_lower str_strip env q store = (Ok resp, store') →
  ∃ promoted,
    resp = set_results_and_contexts (llm_response_of env q store)
             ((λ rs, zip_with add_promoted rs promoted) <$> ranked_results env q store)
             (top_level_contexts (used_contexts env q store)
                (⋃ (chunk_ids <$> promoted))) ∧
    store' = update_conversations str_strip store
               (session_id (llm_response_of env q store)) (query q) resp ∧
    promoted_ok str_lower str_strip (used_contexts env q store) ∅
      (default [] (ranked_results env q store)) promoted.
Proof.
  unfold conversational_search, ranked_results, used_contexts, llm_response_of.
  destruct (llm_call env q store) as [llm_response|]; [|done].
  destruct (reranked_results env _) as [[|r rs]|] eqn:Hranked.
  - cbn. intros [= <- <-]. exists []. done.
  - destruct (reconcile _ _ _ _ _) as [[rs' moved]|] eqn:Hrec; cbn; [|done].
    intros [= <- <-].
    apply reconcile_spec in Hrec as (promoted & -> & -> & Hok).
    exists promoted. rewrite (left_id_L ∅ (∪)). done.
  - cbn. intros [= <- <-]. exists []. done.
Qed.
End search_facts.

Lemma StronglySorted_fmap_inv {A B} (R : relation B) (f : A → B) (l : list A) :
  StronglySorted R (f <$> l) → StronglySorted (λ x y, R (f x) (f y)) l.
Proof.
  induction l as [|x l IH]; cbn; [constructor|].
  intros H. apply StronglySorted_inv in H as [Hs Hx]. constructor; [by apply IH|].
  by rewrite Forall_fmap in Hx.
Qed.

Lemma zip_add_promoted_product rs promoted :
  length rs = length promoted →
  product <$> zip_with add_promoted rs promoted = product <$> rs.
Proof.
  revert promoted. induction rs as [|r rs IH]; intros [|pr promoted] [=]; cbn; [done|].
  by rewrite IH.
Qed.

Lemma zip_add_promoted_recommendation rs promoted :
  length rs = length promoted →
  recommendation <$> zip_with add_promoted rs promoted = recommendation <$> rs.
Proof.
  revert promoted. induction rs as [|r rs IH]; intros [|pr promoted] [=]; cbn; [done|].
  by rewrite IH.
Qed.

Lemma validate_results_recommendation dict l :
  recommendation <$> validate_results dict l =
  omap (λ r0, (λ p, (p, justification r0)) <$> dict !! product_id (product r0)) l.
Proof.
  induction l as [|r l IH]; cbn; [done|].
  destruct (dict !! product_id (product r)); cbn; by rewrite IH.
Qed.

Lemma rerank_perm list_sort rs : rerank list_sort rs ≡ₚ rs.
Proof.
  unfold rerank. destruct (with_margin rs) as [|x l] eqn:E; [done|].
  rewrite <- E, sort_by_margin_perm, <- with_margin_snd. apply margin_split_perm.
Qed.

Section ranked_facts.
Variable str_lower : string → string.
Variable str_strip : string → string.

Lemma promoted_ok_length ctxs moved rs promoted :
  promoted_ok str_lower str_strip ctxs moved rs promoted → length rs = length promoted.
Proof.
  revert moved promoted. induction rs as [|r rs IH]; intros moved [|pr prs]; cbn; try done.
  intros (_ & _ & _ & H). f_equal. by eapply IH.
Qed.

Lemma ranked_results_eq env q store :
  ranked_results env q store =
  (λ l, rerank (env_list_sort env) (validate_results (product_catalog_dict_of env) l))
    <$> results (llm_response_of env q store).
Proof.
  unfold ranked_results, validated_results, reranked_results.
  destruct (results (llm_response_of env q store)) as [[|r l]|]; cbn [fmap option_fmap option_map];
    [done| |done].
  by destruct (validate_results _ (r :: l)).
Qed.
End ranked_facts.

Section claims_search.
Variable str_lower : string → string.
Variable str_strip : string → string.

(** The results of a response, read off the model's proposals. *)
Lemma final_results env q store resp store' rs :
  conversational_search str_lower str_strip env q store = (Ok resp, store') →
  results resp = Some rs →
  ∃ proposed promoted,
    results (llm_response_of env q store) = Some proposed ∧
    length (rerank (env_list_sort env)
              (validate_results (product_catalog_dict_of env) proposed))
      = length promoted ∧
    rs = zip_with add_promoted
           (rerank (env_list_sort env)
              (validate_results (product_catalog_dict_of env) proposed)) promoted.
Proof.
  intros Hsearch Hrs.
  apply conversational_search_ok in Hsearch as (promoted & -> & _ & Hok).
  cbn in Hrs. rewrite ranked_results_eq in Hrs, Hok.
  destruct (results (llm_response_of env q store)) as [proposed|]; [|done].
  cbn in Hrs, Hok. simplify_eq. exists proposed, promoted. split_and!; [done| |done].
  by eapply promoted_ok_length.
Qed.

(** C1. Every product result of a response carries the catalog record
    stored under its product id, and that id was asserted by a result of
    the model; a model result whose id is not in the catalog leaves no
    result; the results are, up to order, the model results with a known
    id, each with the catalog record in place of the model's product. *)
Theorem catalog_merge env q store resp store' rs :
  conversational_search str_lower str_strip env q store = (Ok resp, store') →
  results resp = Some rs →
  let product_catalog_dict := product_catalog_dict_of env in
  let proposed := default [] (results (llm_response_of env q store)) in
  (∀ r, r ∈ rs →
     product_catalog_dict !! product_id (product r) = Some (product r) ∧
     ∃ r0, r0 ∈ proposed ∧ product_id (product r0) = product_id (product r) ∧
           justification r0 = justification r) ∧
  (∀ r0, r0 ∈ proposed →
     product_catalog_dict !! product_id (product r0) = None →
     ∀ r, r ∈ rs → product_id (product r) ≠ product_id (product r0)) ∧
  recommendation <$> rs ≡ₚ
    omap (λ r0, (λ p, (p, justification r0))
                  <$> product_catalog_dict !! product_id (product r0)) proposed.
Proof.
  intros Hsearch Hrs dict proposed.
  destruct (final_results _ _ _ _ _ _ Hsearch Hrs) as (l & promoted & Hl & Hlen & ->).
  subst proposed. rewrite Hl. cbn [default from_option id].
  assert (recommendation <$>
            zip_with add_promoted
              (rerank (env_list_sort env) (validate_results dict l)) promoted
          ≡ₚ omap (λ r0, (λ p, (p, justification r0)) <$> dict !! product_id (product r0)) l)
    as Hperm.
  { rewrite zip_add_promoted_recommendation by done.
    rewrite rerank_perm. by rewrite validate_results_recommendation. }
  assert (∀ r, r ∈ zip_with add_promoted
                     (rerank (env_list_sort env) (validate_results dict l)) promoted →
            dict !! product_id (product r) = Some (product r) ∧
            ∃ r0, r0 ∈ l ∧ product_id (product r0) = product_id (product r) ∧
                  justification r0 = justification r) as Hall.
  { intros r Hr.
    assert (recommendation r ∈
              omap (λ r0, (λ p, (p, justification r0)) <$> dict !! product_id (product r0)) l)
      as Hin by (rewrite <- Hperm; by apply list_elem_of_fmap_2).
    apply list_elem_of_omap in Hin as (r0 & Hr0 & Heq).
    destruct (dict !! product_id (product r0)) as [p|] eqn:Hp; [|done].
    cbn in Heq. unfold recommendation in Heq. injection Heq as <- <-.
    destruct (build_product_catalog_dict_lookup _ _ _ Hp) as [Hid _].
    rewrite Hid. split; [done|]. by exists r0. }
  split_and!; [done| |done].
  intros r0 Hr0 Hnone r Hr Heq. destruct (Hall r Hr) as [Hsome _].
  rewrite Heq in Hsome. congruence.
Qed.

Lemma margins_are_numbers_products rs rs' :
  product <$> rs ≡ₚ product <$> rs' →
  margins_are_numbers rs → margins_are_numbers rs'.
Proof.
  intros Hperm Hrs r Hr.
  assert (product r ∈ product <$> rs) as Hin
    by (rewrite Hperm; by apply list_elem_of_fmap_2).
  apply list_elem_of_fmap in Hin as (r0 & -> & Hr0). by apply Hrs.
Qed.
End claims_search.

Lemma used_contexts_cases env q store :
  (∃ j attempt, attempt < max_retries ∧
      env_send_message_async env (history_for_llm q store) attempt = Replied j ∧
      used_contexts env q store =
        omap (hydrate_rag_context (raw_dict_map_of (env_rag_results env)))
             (used_rag_context_ids j)) ∨
  used_contexts env q store = [].
Proof.
  unfold used_contexts, llm_response_of, llm_call.
  destruct (get_conversational_response_cases (env_api_key env)
              (env_send_message_async env) (env_new_uuid env) (query q)
              (env_rag_results env) (query_session_id q) (history_for_llm q store))
    as [(j & k & Hk & Hj & ->)|[(msg & just & ->)|(e & ->)]]; [|by right..].
  left. by exists j, k.
Qed.

Lemma used_contexts_hydrated env q store c :
  c ∈ used_contexts env q store →
  hydrate_rag_context (raw_dict_map_of (env_rag_results env)) (chunk_id c) = Some c.
Proof.
  destruct (used_contexts_cases env q store) as [(j & k & _ & _ & ->)| ->].
  - apply omap_hydrate_fixed.
  - intros H. by apply elem_of_nil in H.
Qed.


Lemma elem_of_union_chunk_ids x (promoted : list (list DocumentChunk)) :
  x ∈ ⋃ (chunk_ids <$> promoted) ↔ ∃ pr c, pr ∈ promoted ∧ c ∈ pr ∧ chunk_id c = x.
Proof.
  rewrite elem_of_union_list. split.
  - intros (X & HX & Hx). apply list_elem_of_fmap in HX as (pr & -> & Hpr).
    apply chunk_ids_elem in Hx as (c & ? & ?). by exists pr, c.
  - intros (pr & c & Hpr & Hc & <-). exists (chunk_ids pr). split.
    + by apply list_elem_of_fmap_2.
    + apply chunk_ids_elem. by exists c.
Qed.

Section promotion_facts.
Variable str_lower : string → string.
Variable str_strip : string → string.


Lemma final_supporting_reviews (ranked : list ProductResult) promoted pr c :
  length ranked = length promoted → pr ∈ promoted → c ∈ pr →
  ∃ r, r ∈ zip_with add_promoted ranked promoted ∧ c ∈ supporting_reviews r.
Proof.
  intros Hlen Hpr Hc. apply list_elem_of_lookup in Hpr as [i Hi].
  destruct (lookup_lt_is_Some_2 ranked i) as [r Hr].
  { rewrite Hlen. by eapply lookup_lt_Some. }
  exists (add_promoted r pr). split.
  - apply list_elem_of_lookup. exists i. rewrite lookup_zip_with, Hr. cbn. by rewrite Hi.
  - cbn. apply elem_of_app. by right.
Qed.
End promotion_facts.

Section claims_evidence.
Variable str_lower : string → string.
Variable str_strip : string → string.
(** Lowering the empty string gives the empty string. *)
Hypothesis str_lower_empty : str_lower "" = "".

End claims_evidence.

Section claims_top_level.
Variable str_lower : string → string.
Variable str_strip : string → string.

(** C8, amended. The top-level evidence list is a sublist of the used
    chunks, which stand in the order in which the model listed their ids
    (not in the order of the retrieval batch); it keeps every used chunk
    that is in no product's supporting reviews and holds no chunk that was
    promoted into a product. *)
Theorem top_level_evidence env q store resp store' :
  conversational_search str_lower str_strip env q store = (Ok resp, store') →
  ∃ top promoted,
    rag_contexts resp = Some top ∧
    top `sublist_of` used_contexts env q store ∧
    ((∃ j attempt, attempt < max_retries ∧
        env_send_message_async env (history_for_llm q store) attempt = Replied j ∧
        used_contexts env q store =
          omap (hydrate_rag_context (raw_dict_map_of (env_rag_results env)))
               (used_rag_context_ids j)) ∨
     used_contexts env q store = []) ∧
    (∀ c, c ∈ used_contexts env q store →
       (∀ rs r, results resp = Some rs → r ∈ rs →
                chunk_id c ∉ chunk_ids (supporting_reviews r)) →
       c ∈ top) ∧
    results resp =
      (λ ranked, zip_with add_promoted ranked promoted) <$> ranked_results env q store ∧
    length promoted = length (default [] (ranked_results env q store)) ∧
    (∀ pr c, pr ∈ promoted → c ∈ pr → c ∉ top).
Proof.
  intros Hsearch.
  apply conversational_search_ok in Hsearch as (promoted & -> & _ & Hok).
  apply promoted_ok_length in Hok.
  exists (top_level_contexts (used_contexts env q store) (⋃ (chunk_ids <$> promoted))),
         promoted.
  split_and!; try done.
  - apply sublist_filter.
  - apply used_contexts_cases.
  - intros c Hc Hfree. unfold top_level_contexts. apply list_elem_of_filter.
    split; [|done]. rewrite elem_of_union_chunk_ids. intros (pr & c' & Hpr & Hc' & Hid).
    cbn in Hfree.
    destruct (ranked_results env q store) as [ranked|] eqn:Hranked; cbn in Hok.
    + destruct (final_supporting_reviews ranked promoted pr c' Hok Hpr Hc') as (r & Hr & Hin).
      apply (Hfree _ r eq_refl Hr). apply chunk_ids_elem. by exists c'.
    + destruct promoted; [|done]. by apply elem_of_nil in Hpr.
  - intros pr c Hpr Hc. unfold top_level_contexts.
    rewrite list_elem_of_filter. intros [Hnot _]. apply Hnot.
    apply elem_of_union_chunk_ids. by exists pr, c.
Qed.
End claims_top_level.

(** ** Session history *)

Section session_facts.
Variable str_lower : string → string.
Variable str_strip : string → string.

Lemma update_conversations_eq store sid query resp :
  update_conversations str_strip store sid query resp =
  let appended :=
    default [] (store !! sid) ++
      [ {| role := "user"; parts := [query] |};
        {| role := "model";
           parts := [response_summary_for_history str_strip resp] |} ] in
  <[sid := drop (length appended - MAX_HISTORY_TURNS * 2) appended]> store.
Proof.
  unfold update_conversations. cbn zeta. rewrite <- !app_assoc. cbn [app].
  case_decide as Hlen; [done|].
  f_equal. replace (_ - _) with 0 by lia. by rewrite drop_0.
Qed.

Lemma update_conversations_bounded store sid query resp :
  histories_bounded store →
  histories_bounded (update_conversations str_strip store sid query resp).
Proof.
  intros Hb sid' h. rewrite update_conversations_eq. cbn zeta.
  rewrite lookup_insert. case_decide; [|by apply Hb].
  intros [= <-]. rewrite length_drop. unfold MAX_HISTORY_TURNS. lia.
Qed.

Lemma conversational_search_store env q store :
  (∃ resp, conversational_search str_lower str_strip env q store
           = (Ok resp, update_conversations str_strip store (session_id resp)
                         (query q) resp)) ∨
  (∃ s, conversational_search str_lower str_strip env q store
        = (HTTPException s, store)).
Proof.
  unfold conversational_search.
  destruct (llm_call env q store) as [llm_response|]; [|right; eauto].
  destruct (match reranked_results _ _ with Some (r :: rs) => _ | _ => _ end)
    as [[rs' top]|s]; [left|right]; eauto.
Qed.

Lemma serve_bounded requests store :
  histories_bounded store →
  histories_bounded (serve str_lower str_strip requests store).
Proof.
  revert store. induction requests as [|[env q] requests IH]; intros store Hb; [done|].
  cbn [serve]. apply IH.
  destruct (conversational_search_store env q store) as [[resp ->]|[s ->]]; cbn [snd];
    [by apply update_conversations_bounded|done].
Qed.

(** C9. After any run of earlier requests that starts from bounded
    histories (the empty store, for one), a completed request appends the
    user's turn and then the model's turn to the history of the response's
    session, keeps the last [2 * MAX_HISTORY_TURNS] turns of it, and leaves
    every stored history with at most [2 * MAX_HISTORY_TURNS = 20] turns. *)
Theorem session_history_bound requests store0 env q resp store' :
  histories_bounded store0 →
  let store := serve str_lower str_strip requests store0 in
  conversational_search str_lower str_strip env q store = (Ok resp, store') →
  let appended :=
    default [] (store !! session_id resp) ++
      [ {| role := "user"; parts := [query q] |};
        {| role := "model";
           parts := [response_summary_for_history str_strip resp] |} ] in
  store' = <[session_id resp :=
               drop (length appended - MAX_HISTORY_TURNS * 2) appended]> store ∧
  (∀ sid h, store' !! sid = Some h → length h ≤ 20).
Proof.
  intros Hb store Hsearch appended.
  destruct (conversational_search_store env q store) as [[resp' Heq]|[s Heq]];
    rewrite Heq in Hsearch; [|done].
  injection Hsearch as -> <-. split.
  - by rewrite update_conversations_eq.
  - apply (update_conversations_bounded store (session_id resp) (query q) resp).
    by apply serve_bounded.
Qed.
End session_facts.

(** ** Exhausted retries *)

Lemma format_rag_contexts_returns rag :
  prompt_formattable rag ↔ ∃ formatted_rag, _format_rag_contexts rag = Returns formatted_rag.
Proof.
  unfold _format_rag_contexts, prompt_formattable. generalize 0.
  induction rag as [|context rag IH]; intros i; cbn [format_rag_contexts_from].
  - split; [by eexists|]. intros _ c Hc. by apply elem_of_nil in Hc.
  - unfold format_rag_context.
    destruct (raw_text_chunk context) as [text|] eqn:Htext.
    + destruct (raw_metadata context) as [meta|] eqn:Hmeta.
      * destruct (format_rag_contexts_from (S i) rag) as [formatted|e] eqn:Hrest.
        -- split; [by eexists|]. intros _ c [->|Hc]%elem_of_cons.
           ++ rewrite Htext, Hmeta. split; by eexists.
           ++ apply (proj2 (IH (S i))); [|done]. rewrite Hrest. by eexists.
        -- split; [|by intros [? ?]]. intros Hall.
           destruct (proj1 (IH (S i))) as [? Heq]; [|by rewrite Hrest in Heq].
           intros c Hc. apply Hall. by right.
      * split; [|by intros [? ?]]. intros Hall.
        destruct (Hall context) as [_ [? Hm]]; [by left|]. by rewrite Hmeta in Hm.
    + split; [|by intros [? ?]]. intros Hall.
      destruct (Hall context) as [[? Ht] _]; [by left|]. by rewrite Htext in Ht.
Qed.

Section retry_facts.
Variable GOOGLE_API_KEY : option string.
Variable send_message_async : list Turn → nat → attempt_outcome.
Variable new_uuid : string.

(** Failures that are retried in turn take the loop to the attempt that
    follows them, with the last of them as [last_exception]. *)
Lemma retry_loop_failures history rag sid failures a rest last raw_bound json_bound :
  (∀ i at_ e, failures !! i = Some (at_, e) →
              send_message_async history (a + i) = Raised at_ e) →
  retried_in_turn raw_bound json_bound failures →
  ∃ raw_bound' json_bound',
    retry_loop send_message_async new_uuid history rag sid
      (seq a (length failures) ++ rest) last raw_bound json_bound =
    retry_loop send_message_async new_uuid history rag sid rest
      (match snd <$> list.last failures with
       | Some e => Some e
       | None => last
       end) raw_bound' json_bound'.
Proof.
  revert a last raw_bound json_bound.
  induction failures as [|[at_ e] failures IH]; intros a last raw_bound json_bound Hsend Hret.
  - by exists raw_bound, json_bound.
  - cbn [retried_in_turn] in Hret. destruct Hret as ([Hb Hs] & Hlog & Hret).
    cbn [length seq app retry_loop].
    pose proof (Hsend 0 at_ e eq_refl) as Ha. rewrite Nat.add_0_r in Ha. rewrite Ha.
    edestruct (IH (S a) (Some e)) as (raw_bound' & json_bound' & Heq); [|exact Hret|].
    { intros i at0 e0 Hi. replace (S a + i) with (a + S i) by lia. by apply Hsend. }
    exists raw_bound', json_bound'.
    assert (match snd <$> list.last ((at_, e) :: failures) with
            | Some e0 => Some e0
            | None => last
            end =
            match snd <$> list.last failures with
            | Some e0 => Some e0
            | None => Some e
            end) as Hlast.
    { destruct failures as [|f failures']; [done|]. rewrite last_cons_cons.
      destruct (list.last (f :: failures')) eqn:E; [done|].
      by apply last_None in E. }
    rewrite Hlast, <- Heq. clear Heq Hlast IH.
    unfold isinstance. destruct (exn_cls e); cbn [base_class] in *; try done;
      cbn; by rewrite ?Hlog.
Qed.

(** C4. When the prompt can be built and every one of the three attempts
    raises an exception that is retried, the call returns the canned
    response whose message pair is chosen from the last exception, with
    empty results, contexts and follow-up questions; the answer is the
    parse-error message for a JSON decode error, and differs for a
    validation error, a rate limit, a service error, another API error
    and anything else. *)
Theorem retries_exhausted query rag sid history s0 e0 s1 e1 s2 e2 :
  opt_str_truthy GOOGLE_API_KEY = true →
  prompt_formattable rag →
  send_message_async history 0 = Raised s0 e0 →
  send_message_async history 1 = Raised s1 e1 →
  send_message_async history 2 = Raised s2 e2 →
  retried_in_turn false false [(s0, e0); (s1, e1); (s2, e2)] →
  let resp :=
    canned_response sid (error_message_for (Some e2)).1
      (error_message_for (Some e2)).2 in
  get_conversational_response GOOGLE_API_KEY send_message_async new_uuid
    query rag sid history = Returns resp ∧
  results resp = Some [] ∧ rag_contexts resp = Some [] ∧
  follow_up_questions resp = Some [] ∧ session_id resp = sid ∧
  (exn_cls e2 = JSONDecodeError →
     answer resp = Some "Sorry, I had trouble processing that. Could you try rephrasing?") ∧
  (exn_cls e2 = ValidationError →
     answer resp =
       Some "Sorry, I encountered an issue with the response structure. Please try again.") ∧
  (exn_cls e2 = ResourceExhausted →
     answer resp =
       Some "I'm a bit overwhelmed at the moment. Please try again in a few moments.") ∧
  (exn_cls e2 = InternalServerError ∨ exn_cls e2 = ServiceUnavailable ∨
   exn_cls e2 = DeadlineExceeded →
     answer resp =
       Some "There seems to be a temporary issue with the AI service. Please try again shortly.") ∧
  (exn_cls e2 = GoogleAPIError →
     answer resp =
       Some "An issue occurred while communicating with the AI service. Please try again.") ∧
  (exn_cls e2 = ValueError →
     answer resp =
       Some (if str_contains "LLM output not in expected JSON format" (exn_str e2)
             then "Sorry, I couldn't generate a structured response. Please try again."
             else "Sorry, I'm having trouble connecting to my brain right now. Please try again later.")) ∧
  (exn_cls e2 = OtherException →
     answer resp =
       Some "Sorry, I'm having trouble connecting to my brain right now. Please try again later.").
Proof.
  intros Hkey Hfmt H0 H1 H2 Hret resp.
  assert (get_conversational_response GOOGLE_API_KEY send_message_async new_uuid
            query rag sid history = Returns resp) as Heq.
  { subst resp. unfold get_conversational_response.
    destruct GOOGLE_API_KEY as [[|??]|]; try done.
    apply format_rag_contexts_returns in Hfmt as [formatted_rag ->].
    destruct (retry_loop_failures history rag sid [(s0, e0); (s1, e1); (s2, e2)]
                0 [] None false false) as (rb & jb & Heq); [|done|].
    { intros [|[|[|i]]] at_ e Hi; cbn in Hi; by simplify_eq. }
    change (seq 0 max_retries) with (seq 0 (length [(s0, e0); (s1, e1); (s2, e2)]) ++ []).
    rewrite Heq. cbn [retry_loop fmap option_fmap option_map list.last snd].
    by destruct (error_message_for (Some e2)). }
  split; [done|]. subst resp. split_and!; try done.
  all: intros Hcls; cbn [canned_response answer]; f_equal;
    unfold error_message_for, isinstance; cbn [base_class];
    try (destruct Hcls as [Hcls|[Hcls|Hcls]]); rewrite Hcls; cbn; try done.
  by destruct (str_contains _ _).
Qed.
End retry_facts.

Section claims_chunker.
Variable uuid4 : nat → string.

Lemma doc_chunks_texts p_doc calls :
  text_chunk <$> doc_chunks uuid4 p_doc calls =
  (λ k, slice (content p_doc) (k * chunk_step) (k * chunk_step + TEXT_CHUNK_SIZE))
    <$> seq 0 (length (doc_chunks uuid4 p_doc calls)).
Proof.
  rewrite doc_chunks_length. unfold doc_chunks, window_chunks.
  rewrite <- list_fmap_compose. apply list_fmap_ext. intros i k _. done.
Qed.

Lemma doc_chunks_document_id p_doc calls :
  Forall (λ c, document_id c = doc_id p_doc) (doc_chunks uuid4 p_doc calls).
Proof.
  unfold doc_chunks, window_chunks. apply Forall_fmap, Forall_forall. done.
Qed.

Lemma doc_chunks_empty p_doc calls :
  content p_doc = [] → doc_chunks uuid4 p_doc calls = [].
Proof.
  intros H. unfold doc_chunks. rewrite H. cbn [length].
  by rewrite ceil_div_0 by apply chunk_step_pos.
Qed.

(** The chunks made for the document [d] of the input [pre ++ d :: post]:
    the output is the output for [pre], then these chunks, then the output
    for [post]. *)
Lemma chunks_of_document pre d post calls :
  ∃ before after calls',
    chunk_parsed_documents uuid4 (pre ++ d :: post) calls =
      Some (before ++ doc_chunks uuid4 d (calls + length before) ++ after, calls') ∧
    fst <$> chunk_parsed_documents uuid4 pre calls = Some before ∧
    (∃ c, fst <$> chunk_parsed_documents uuid4 post c = Some after).
Proof.
  destruct (chunk_parsed_documents_split uuid4 pre d post calls)
    as (before & c1 & after & c3 & Hpre & Hpost & Hall).
  assert (c1 = calls + length before) as ->.
  { clear Hpost Hall. unfold chunk_parsed_documents in Hpre.
    revert calls before c1 Hpre.
    induction pre as [|x pre IH]; intros calls before c1 Hpre; cbn [chunk_for] in Hpre.
    - injection Hpre as <- <-. cbn. lia.
    - rewrite chunk_document_closed in Hpre. cbn [app] in Hpre.
      destruct (chunk_for_total uuid4 pre (calls + length (doc_chunks uuid4 x calls))
                  (doc_chunks uuid4 x calls)) as (new & c' & H1 & H2).
      rewrite H1 in Hpre. injection Hpre as <- <-.
      apply IH in H2. rewrite length_app. lia. }
  exists before, after, c3. split_and!; [done|by rewrite Hpre|].
  eexists. by rewrite Hpost.
Qed.

(** C5, amended. The chunks made for a document of length [L] are
    [ceil(L / (W - O))] in number, with [W = 512] and [O = 50]: none for an
    empty document, a new one for every [W - O = 462] characters begun. *)
Theorem chunk_count pre d post calls :
  ∃ before mine after calls',
    chunk_parsed_documents uuid4 (pre ++ d :: post) calls =
      Some (before ++ mine ++ after, calls') ∧
    fst <$> chunk_parsed_documents uuid4 pre calls = Some before ∧
    (∃ c, fst <$> chunk_parsed_documents uuid4 post c = Some after) ∧
    Forall (λ c, document_id c = doc_id d) mine ∧
    length mine =
      ceil_div (length (content d)) (TEXT_CHUNK_SIZE - TEXT_CHUNK_OVERLAP) ∧
    ceil_div (length (content d)) (TEXT_CHUNK_SIZE - TEXT_CHUNK_OVERLAP) =
      (length (content d) + 461) / 462.
Proof.
  destruct (chunks_of_document pre d post calls) as (before & after & calls' & H1 & H2 & H3).
  exists before, (doc_chunks uuid4 d (calls + length before)), after, calls'.
  split_and!; try done.
  - apply doc_chunks_document_id.
  - apply doc_chunks_length.
  - unfold ceil_div. f_equal.
    unfold TEXT_CHUNK_SIZE, TEXT_CHUNK_OVERLAP. lia.
Qed.

(** C6. The texts of the chunks made for a document are the windows of its
    content that start every [W - O] characters and are [W] wide; the first
    text followed by the later ones, each without its first [O = 50]
    characters, is the content.  This holds for the empty content too. *)
Theorem chunks_reassemble pre d post calls :
  ∃ before mine after calls',
    chunk_parsed_documents uuid4 (pre ++ d :: post) calls =
      Some (before ++ mine ++ after, calls') ∧
    fst <$> chunk_parsed_documents uuid4 pre calls = Some before ∧
    (∃ c, fst <$> chunk_parsed_documents uuid4 post c = Some after) ∧
    text_chunk <$> mine =
      (λ k, slice (content d)
              (k * (TEXT_CHUNK_SIZE - TEXT_CHUNK_OVERLAP))
              (k * (TEXT_CHUNK_SIZE - TEXT_CHUNK_OVERLAP) + TEXT_CHUNK_SIZE))
        <$> seq 0 (length mine) ∧
    remove_overlap (text_chunk <$> mine) = content d.
Proof.
  destruct (chunks_of_document pre d post calls) as (before & after & calls' & H1 & H2 & H3).
  exists before, (doc_chunks uuid4 d (calls + length before)), after, calls'.
  split_and!; try done.
  - apply doc_chunks_texts.
  - apply doc_chunks_reassemble.
Qed.

(** C10. A document with empty content yields no chunk: alone it gives the
    empty list, and in a list of documents it can be left out without
    changing the output. *)
Theorem empty_content_no_chunks d pre post calls :
  content d = [] →
  chunk_parsed_documents uuid4 [d] calls = Some ([], calls) ∧
  chunk_parsed_documents uuid4 (pre ++ d :: post) calls =
    chunk_parsed_documents uuid4 (pre ++ post) calls.
Proof.
  intros Hempty. unfold chunk_parsed_documents. split.
  - cbn [chunk_for]. rewrite chunk_document_closed.
    rewrite doc_chunks_empty by done. cbn. by rewrite Nat.add_0_r.
  - rewrite !chunk_for_app.
    destruct (chunk_for uuid4 pre calls []) as [[chunks c]|]; [|done].
    cbn [chunk_for]. rewrite chunk_document_closed.
    rewrite doc_chunks_empty by done. cbn [length]. by rewrite app_nil_r, Nat.add_0_r.
Qed.
End claims_chunker.

(** ** The requests evaluated *)

Lemma run_cited :
  conversational_search lower_ascii strip_ascii env_cited a_query ∅
  = (Ok cited_response, store_with plain_history).
Proof. vm_cast_no_check (eq_refl (Ok cited_response, store_with plain_history)). Qed.

Lemma run_two :
  conversational_search lower_ascii strip_ascii env_two a_query ∅
  = (Ok two_response, store_with plain_history).
Proof. vm_cast_no_check (eq_refl (Ok two_response, store_with plain_history)). Qed.

Lemma run_order :
  conversational_search lower_ascii strip_ascii env_order a_query ∅
  = (Ok order_response, store_with answer_history).
Proof. vm_cast_no_check (eq_refl (Ok order_response, store_with answer_history)). Qed.

Lemma run_rank :
  conversational_search lower_ascii strip_ascii env_rank a_query ∅
  = (Ok rank_response, store_with plain_history).
Proof. vm_cast_no_check (eq_refl (Ok rank_response, store_with plain_history)). Qed.

Lemma run_eleven :
  conversational_search lower_ascii strip_ascii env_order a_query
    (serve lower_ascii strip_ascii (replicate 10 (env_cited, a_query)) ∅)
  = (Ok order_response,
     store_with (concat (replicate 9 plain_history) ++ answer_history)).
Proof.
  vm_cast_no_check
    (eq_refl (Ok order_response,
              store_with (concat (replicate 9 plain_history) ++ answer_history))).
Qed.

(** ** The theorems at concrete inputs *)

Lemma catalog_merge_witness :
  conversational_search lower_ascii strip_ascii env_cited a_query ∅
    = (Ok cited_response, store_with plain_history) ∧
  results cited_response
    = Some [recommended bright_c_serum [hydrated_review "Bright C Serum"]] ∧
  ∀ r, r ∈ [recommended bright_c_serum [hydrated_review "Bright C Serum"]] →
    product_catalog_dict_of env_cited !! product_id (product r) = Some (product r).
Proof.
  refine (conj run_cited (conj eq_refl _)). intros r Hr.
  exact (proj1 (proj1 (catalog_merge lower_ascii strip_ascii env_cited a_query ∅
                         cited_response (store_with plain_history) _
                         run_cited eq_refl) r Hr)).
Defined.

Lemma invalid_json_retried :
  retried_in_turn false false
    [(AfterJsonString, json_decode_error); (AfterJsonString, json_decode_error);
     (AfterJsonString, json_decode_error)].
Proof. cbn. repeat split; discriminate. Qed.

Lemma no_batch_formattable : prompt_formattable [].
Proof. intros c Hc. by apply elem_of_nil in Hc. Qed.

Lemma retries_exhausted_witness :
  opt_str_truthy (Some "key") = true ∧
  always_invalid_json [] 0 = Raised AfterJsonString json_decode_error ∧
  always_invalid_json [] 1 = Raised AfterJsonString json_decode_error ∧
  always_invalid_json [] 2 = Raised AfterJsonString json_decode_error ∧
  get_conversational_response (Some "key") always_invalid_json "uuid-0"
    "a query" [] None []
    = Returns (canned_response None (error_message_for (Some json_decode_error)).1
                 (error_message_for (Some json_decode_error)).2) ∧
  answer (canned_response None (error_message_for (Some json_decode_error)).1
            (error_message_for (Some json_decode_error)).2)
    = Some "Sorry, I had trouble processing that. Could you try rephrasing?".
Proof.
  refine (conj eq_refl (conj eq_refl (conj eq_refl (conj eq_refl (conj _ _))))).
  - exact (proj1
             (retries_exhausted (Some "key") always_invalid_json "uuid-0" "a query" [] None []
                AfterJsonString json_decode_error AfterJsonString json_decode_error
                AfterJsonString json_decode_error
                eq_refl no_batch_formattable eq_refl eq_refl eq_refl invalid_json_retried)).
  - exact (proj1 (proj2 (proj2 (proj2 (proj2 (proj2
             (retries_exhausted (Some "key") always_invalid_json "uuid-0" "a query" [] None []
                AfterJsonString json_decode_error AfterJsonString json_decode_error
                AfterJsonString json_decode_error
                eq_refl no_batch_formattable eq_refl eq_refl eq_refl invalid_json_retried))))))
             eq_refl).
Defined.

Lemma ranked_two :
  ranked_results env_two a_query ∅ = Some [serum_with_cited_review; gel_without_review].
Proof. vm_cast_no_check (eq_refl (Some [serum_with_cited_review; gel_without_review])). Qed.

Lemma top_level_evidence_witness :
  conversational_search lower_ascii strip_ascii env_order a_query ∅
    = (Ok order_response, store_with answer_history) ∧
  ∃ top, rag_contexts order_response = Some top ∧
         top `sublist_of` used_contexts env_order a_query ∅.
Proof.
  refine (conj run_order _).
  destruct (top_level_evidence lower_ascii strip_ascii env_order a_query ∅
              order_response (store_with answer_history) run_order)
    as (top & _ & H1 & H2 & _).
  exists top. exact (conj H1 H2).
Defined.

Lemma session_history_bound_witness :
  histories_bounded ∅ ∧
  conversational_search lower_ascii strip_ascii env_order a_query
    (serve lower_ascii strip_ascii (replicate 10 (env_cited, a_query)) ∅)
  = (Ok order_response,
     store_with (concat (replicate 9 plain_history) ++ answer_history)) ∧
  ∀ sid h,
    store_with (concat (replicate 9 plain_history) ++ answer_history) !! sid = Some h →
    length h ≤ 20.
Proof.
  assert (histories_bounded ∅) as Hb by (intros sid h H; by rewrite lookup_empty in H).
  refine (conj Hb (conj run_eleven _)).
  exact (proj2 (session_history_bound lower_ascii strip_ascii
                  (replicate 10 (env_cited, a_query)) ∅ env_order a_query
                  order_response _ Hb run_eleven)).
Defined.

Lemma empty_content_no_chunks_witness :
  content (doc_of_length 0) = [] ∧
  chunk_parsed_documents uuid4_numbered [doc_of_length 0] 0 = Some ([], 0) ∧
  chunk_parsed_documents uuid4_numbered
    ([doc_of_length 3] ++ doc_of_length 0 :: [doc_of_length 5]) 0 =
  chunk_parsed_documents uuid4_numbered ([doc_of_length 3] ++ [doc_of_length 5]) 0.
Proof.
  split; [reflexivity|].
  exact (empty_content_no_chunks uuid4_numbered (doc_of_length 0)
           [doc_of_length 3] [doc_of_length 5] 0 eq_refl).
Defined.

(** ** Where a claim fails *)

(** C5 as stated fails: a document of 925 characters gets three chunks where
    the stated count is two, and a document of 500 characters, shorter than
    the window, gets two chunks where the stated count is one. *)
Lemma chunk_count_counterexample :
  length <$> (fst <$> chunk_parsed_documents uuid4_numbered [doc_of_length 925] 0) = Some 3 ∧
  spec_chunk_count (length (content (doc_of_length 925))) = 2 ∧
  length <$> (fst <$> chunk_parsed_documents uuid4_numbered [doc_of_length 500] 0) = Some 2 ∧
  spec_chunk_count (length (content (doc_of_length 500))) = 1.
Proof.
  split_and!.
  - vm_cast_no_check (eq_refl (Some 3)).
  - vm_cast_no_check (eq_refl 2).
  - vm_cast_no_check (eq_refl (Some 2)).
  - vm_cast_no_check (eq_refl 1).
Qed.

(** C8 as stated fails: the top-level list follows the order in which the
    model listed the used ids, here the reverse of the retrieval batch. *)
Lemma top_level_evidence_counterexample :
  conversational_search lower_ascii strip_ascii env_order a_query ∅
    = (Ok order_response, store_with answer_history) ∧
  rag_contexts order_response = Some [hydrated_review "Bright C Serum"; hydrated_info] ∧
  spec_top_level (env_rag_results env_order) ["r1"; "c1"]
    (default [] (results order_response))
    = [hydrated_info; hydrated_review "Bright C Serum"].
Proof.
  refine (conj run_order (conj eq_refl _)).
  vm_cast_no_check (eq_refl [hydrated_info; hydrated_review "Bright C Serum"]).
Qed.

(** C2 fails on the code: the model recommends [P001], cites the review [r1]
    for it and lists [r1] among the used chunks; in the response [r1] is a
    supporting review of the product and an entry of the top-level evidence
    list as well. *)
Theorem evidence_exclusivity_broken :
  conversational_search lower_ascii strip_ascii env_cited a_query ∅
    = (Ok cited_response, store_with plain_history) ∧
  supporting_reviews <$> default [] (results cited_response)
    = [[hydrated_review "Bright C Serum"]] ∧
  rag_contexts cited_response = Some [hydrated_info; hydrated_review "Bright C Serum"].
Proof. exact (conj run_cited (conj eq_refl eq_refl)). Qed.

(** C7 fails on the code: the review that the model cited for the first
    product, hence a chunk already claimed by a product, is promoted into the
    second product, whose name its metadata carries.  The loop keeps the
    cited reviews of the product at hand out of the promotion, and the
    promoted chunks out of every later product, but a review cited for one
    product is not kept out of the others. *)
Theorem cited_review_promoted_again :
  conversational_search lower_ascii strip_ascii env_two a_query ∅
    = (Ok two_response, store_with plain_history) ∧
  ranked_results env_two a_query ∅ = Some [serum_with_cited_review; gel_without_review] ∧
  results two_response =
    Some [serum_with_cited_review;
          add_promoted gel_without_review [hydrated_review "Hydra Gel"]] ∧
  ¬ spec_promotion_rule lower_ascii strip_ascii
      [serum_with_cited_review; gel_without_review]
      (hydrated_review "Hydra Gel") gel_without_review.
Proof.
  refine (conj run_two (conj ranked_two (conj eq_refl _))).
  intros [Hunclaimed _].
  apply (Hunclaimed serum_with_cited_review); [by left|].
  apply chunk_ids_elem. exists (hydrated_review "Hydra Gel"). split; [by left|done].
Qed.

Lemma reconcile_no_contexts str_lower str_strip rs moved :
  ∃ rs', reconcile str_lower str_strip rs [] moved = Ok (rs', moved).
Proof.
  induction rs as [|r rs [rs' IH]]; cbn; [by eexists|]. rewrite IH. cbn. by eexists.
Qed.

Lemma sorted_with_nan rs r :
  StronglySorted margin_desc rs → r ∈ rs →
  margin_percentage (product r) = Some NaN → rs = [r].
Proof.
  intros Hs Hr Hnan. induction Hs as [|r0 rs Hs IH Hall]; [by apply elem_of_nil in Hr|].
  apply elem_of_cons in Hr as [->|Hr].
  - destruct rs as [|r1 rs]; [done|]. apply Forall_cons in Hall as [H1 _].
    unfold margin_desc in H1. rewrite Hnan in H1.
    by destruct (margin_percentage (product r1)) as [[]|].
  - rewrite Forall_forall in Hall. specialize (Hall r Hr).
    unfold margin_desc in Hall. rewrite Hnan in Hall.
    by destruct (margin_percentage (product r0)) as [[]|].
Qed.

Lemma run_blank_margin :
  conversational_search lower_ascii strip_ascii (env_blank_margin list_unchanged)
    a_query ∅
  = (Ok blank_margin_response, store_with plain_history).
Proof. vm_cast_no_check (eq_refl (Ok blank_margin_response, store_with plain_history)). Qed.

(** C3 fails on the code: a catalog record whose margin cell is empty has the
    not-a-number value as its margin, which is not [None], so that the
    record is sorted with the records that have a margin.  The model
    proposes the products with the margins 40, not-a-number and 55.  When
    the sort leaves the list as it is, as [list.sort] does where no key is
    less than the key before it, the response has the margin 40 before the
    margin 55; and whatever the sort makes of the list, the three results
    count as having a margin and are not in non-increasing order of it. *)
Theorem margin_ordering_broken :
  (conversational_search lower_ascii strip_ascii (env_blank_margin list_unchanged)
     a_query ∅
     = (Ok blank_margin_response, store_with plain_history) ∧
   margin_percentage <$> (product <$> default [] (results blank_margin_response))
     = [Some (Finite (Qc_of_Z 40)); Some NaN; Some (Finite (Qc_of_Z 55))]) ∧
  ∀ list_sort : unordered_sort,
    ∃ resp store' rs,
      conversational_search lower_ascii strip_ascii (env_blank_margin list_sort)
        a_query ∅ = (Ok resp, store') ∧
      results resp = Some rs ∧
      product <$> rs ≡ₚ [hydra_gel; calm_toner; bright_c_serum] ∧
      Forall has_margin rs ∧
      ¬ StronglySorted margin_desc rs.
Proof.
  split; [exact (conj run_blank_margin eq_refl)|]. intros list_sort.
  set (env := env_blank_margin list_sort).
  destruct (conversational_search_store lower_ascii strip_ascii env a_query ∅)
    as [[resp Heq]|[s Heq]].
  - exists resp, (update_conversations strip_ascii ∅ (session_id resp) (query a_query) resp).
    pose proof Heq as Hok.
    apply conversational_search_ok in Hok as (promoted & Hresp & _ & Hprom).
    apply promoted_ok_length in Hprom.
    assert (ranked_results env a_query ∅ =
            Some (rerank list_sort
                    [recommended hydra_gel []; recommended calm_toner [];
                     recommended bright_c_serum []])) as Hranked.
    { rewrite ranked_results_eq. done. }
    rewrite Hranked in Hresp, Hprom. cbn [default from_option id fmap option_fmap option_map]
      in Hresp, Hprom.
    set (ranked := rerank list_sort _) in *.
    exists (zip_with add_promoted ranked promoted).
    assert (product <$> zip_with add_promoted ranked promoted
            ≡ₚ [hydra_gel; calm_toner; bright_c_serum]) as Hperm.
    { rewrite zip_add_promoted_product by done. subst ranked. by rewrite rerank_perm. }
    split_and!; [done|by rewrite Hresp|done| |].
    + apply (Forall_fmap product (λ p, is_Some (margin_percentage p))).
      rewrite Hperm. repeat constructor; by eexists.
    + intros Hsorted.
      assert (calm_toner ∈ product <$> zip_with add_promoted ranked promoted) as Hin
        by (rewrite Hperm; set_solver).
      apply list_elem_of_fmap in Hin as (r & Hr & Hin).
      pose proof (sorted_with_nan _ r Hsorted Hin) as Hone.
      rewrite <- Hr in Hone. specialize (Hone eq_refl).
      apply Permutation_length in Hperm. rewrite Hone in Hperm. done.
  - exfalso. unfold conversational_search in Heq.
    change (llm_call env a_query ∅) with
      (Returns (A:=SearchResponse)
         (llm_response_of (env_blank_margin list_unchanged) a_query ∅)) in Heq.
    cbn [rag_contexts llm_response_of] in Heq.
    destruct (reranked_results env _) as [[|r rs]|]; try done.
    change (default [] _) with (@nil DocumentChunk) in Heq.
    destruct (reconcile_no_contexts lower_ascii strip_ascii (r :: rs) ∅) as [rs' Hrec].
    by rewrite Hrec in Heq.
Qed.

(** * Further properties *)

(** ** The retry loop *)

(** ** Further properties of the retry loop *)

Section retry_more.
Variable GOOGLE_API_KEY : option string.
Variable send_message_async : list Turn → nat → attempt_outcome.
Variable new_uuid : string.

(** The call goes through the failures that are retried in turn and on to
    the attempt that follows them. *)
Lemma get_conversational_response_skip query rag sid history failures :
  opt_str_truthy GOOGLE_API_KEY = true →
  prompt_formattable rag →
  length failures < max_retries →
  (∀ attempt at_ e, failures !! attempt = Some (at_, e) →
                    send_message_async history attempt = Raised at_ e) →
  retried_in_turn false false failures →
  ∃ last raw_bound json_bound,
    get_conversational_response GOOGLE_API_KEY send_message_async new_uuid
      query rag sid history =
    retry_loop send_message_async new_uuid history rag sid
      (length failures :: seq (S (length failures)) (max_retries - S (length failures)))
      last raw_bound json_bound.
Proof.
  intros Hkey Hfmt Hlen Hsend Hret. unfold get_conversational_response.
  destruct GOOGLE_API_KEY as [[|??]|]; try done.
  apply format_rag_contexts_returns in Hfmt as [formatted_rag ->].
  assert (seq 0 max_retries =
          seq 0 (length failures) ++
            (length failures :: seq (S (length failures))
                                  (max_retries - S (length failures)))) as ->.
  { change (length failures :: seq (S (length failures)) (max_retries - S (length failures)))
      with (seq (0 + length failures) (S (max_retries - S (length failures)))).
    rewrite <- seq_app. f_equal. lia. }
  destruct (retry_loop_failures send_message_async new_uuid history rag sid failures 0
              (length failures :: seq (S (length failures))
                                    (max_retries - S (length failures)))
              None false false) as (raw_bound & json_bound & ->); [done..|].
  eauto.
Qed.

(** X1. The first attempt that yields an object whose id fields can be
    walked decides the response: when the prompt can be built and the
    attempts before it failed and were retried in turn, the call returns
    the response built from that object. *)
Theorem first_reply_wins query rag sid history failures j :
  opt_str_truthy GOOGLE_API_KEY = true →
  prompt_formattable rag →
  length failures < max_retries →
  (∀ attempt at_ e, failures !! attempt = Some (at_, e) →
                    send_message_async history attempt = Raised at_ e) →
  retried_in_turn false false failures →
  send_message_async history (length failures) = Replied j →
  get_conversational_response GOOGLE_API_KEY send_message_async new_uuid
    query rag sid history
  = Returns (build_response new_uuid j rag sid).
Proof.
  intros Hkey Hfmt Hlen Hsend Hret Hj.
  destruct (get_conversational_response_skip query rag sid history failures)
    as (last & raw_bound & json_bound & ->); [done..|].
  cbn [retry_loop]. by rewrite Hj.
Qed.

(** X2. A blocked prompt or a stopped generation ends the loop at once:
    when the prompt can be built and the attempts before it failed and
    were retried in turn, the call returns the canned response for that
    condition, with no results, whatever the later attempts would have
    given. *)
Theorem policy_rejection_is_final query rag sid history failures at_ e :
  opt_str_truthy GOOGLE_API_KEY = true →
  prompt_formattable rag →
  length failures < max_retries →
  (∀ attempt at_ e, failures !! attempt = Some (at_, e) →
                    send_message_async history attempt = Raised at_ e) →
  retried_in_turn false false failures →
  send_message_async history (length failures) = Raised at_ e →
  exn_cls e = BlockedPromptException ∨ exn_cls e = StopCandidateException →
  get_conversational_response GOOGLE_API_KEY send_message_async new_uuid
    query rag sid history
  = Returns
      (if decide (exn_cls e = BlockedPromptException)
       then canned_response sid
              "The request could not be processed due to content policy."
              "Content policy violation."
       else canned_response sid
              "The response generation was stopped. This might be due to safety settings or other reasons."
              "Response generation incomplete.").
Proof.
  intros Hkey Hfmt Hlen Hsend Hret He Hcls.
  destruct (get_conversational_response_skip query rag sid history failures)
    as (last & raw_bound & json_bound & ->); [done..|].
  cbn [retry_loop]. rewrite He. unfold isinstance.
  destruct Hcls as [Hcls|Hcls]; rewrite Hcls; cbn [base_class]; by case_decide.
Qed.
End retry_more.

(** ** Where the evidence of a response comes from *)

Lemma build_raw_dict_map_lookup rag k raw_dict :
  build_raw_dict_map rag !! k = Some raw_dict → raw_dict ∈ rag ∧ raw_id raw_dict = k.
Proof.
  unfold build_raw_dict_map.
  assert (∀ (l0 : list RawDict) (m : gmap string RawDict),
            (∀ k r, m !! k = Some r → r ∈ rag ∧ raw_id r = k) →
            (∀ r, r ∈ l0 → r ∈ rag) →
            ∀ k r, foldl (λ m raw_dict,
                            if str_truthy (raw_id raw_dict)
                            then <[raw_id raw_dict := raw_dict]> m else m) m l0 !! k
                   = Some r → r ∈ rag ∧ raw_id r = k) as H.
  { induction l0 as [|x l0 IH]; intros m Hm Hsub k' r'; cbn; [by apply Hm|].
    apply IH.
    - intros k'' r''. destruct (str_truthy (raw_id x)); [|by apply Hm].
      rewrite lookup_insert. case_decide; [|by apply Hm].
      intros [= <-]. split; [|done]. apply Hsub. by left.
    - intros r'' ?. apply Hsub. by right. }
  apply (H rag ∅); [|done]. intros ??. by rewrite lookup_empty.
Qed.

Lemma raw_dict_map_of_lookup rag k raw_dict :
  raw_dict_map_of rag !! k = Some raw_dict → raw_dict ∈ rag ∧ raw_id raw_dict = k.
Proof.
  unfold raw_dict_map_of. destruct rag; [by rewrite lookup_empty|].
  apply build_raw_dict_map_lookup.
Qed.

Lemma as_str_Some v s : as_str v = Some s → v = Some (VStr s).
Proof. destruct v as [[]|]; cbn; congruence. Qed.

Lemma hydrate_rag_context_from_batch rag x c :
  hydrate_rag_context (raw_dict_map_of rag) x = Some c → from_batch rag c.
Proof.
  unfold hydrate_rag_context. intros H.
  destruct (raw_dict_map_of rag !! x) as [raw|] eqn:Hraw; [|done].
  apply raw_dict_map_of_lookup in Hraw as [Hin Hid].
  destruct (negb _); [done|].
  destruct (as_str (default ∅ (raw_metadata raw) !! "original_doc_id")) as [d|] eqn:Hd; [|done].
  destruct (as_str (default ∅ (raw_metadata raw) !! "source_type")) as [s|] eqn:Hs; [|done].
  destruct (raw_text_chunk raw) as [t|] eqn:Ht; [|done].
  injection H as <-. exists raw. cbn.
  apply as_str_Some in Hd, Hs.
  destruct (raw_metadata raw) as [m|]; cbn in *; [done|].
  by rewrite lookup_empty in Hd.
Qed.

Lemma hydrate_review_from_batch rag x c :
  hydrate_review (raw_dict_map_of rag) x = Some c →
  from_batch rag c ∧ source_type c = "review".
Proof.
  unfold hydrate_review. intros H.
  destruct (raw_dict_map_of rag !! x) as [raw|] eqn:Hraw; [|done].
  apply raw_dict_map_of_lookup in Hraw as [Hin Hid].
  destruct (negb (_ && _ && _ && _)); [done|].
  case_bool_decide as Hrev; cbn [negb] in H; [|done].
  destruct (as_str (default ∅ (raw_metadata raw) !! "original_doc_id")) as [d|] eqn:Hd; [|done].
  destruct (as_str (default ∅ (raw_metadata raw) !! "source_type")) as [s|] eqn:Hs; [|done].
  destruct (raw_text_chunk raw) as [t|] eqn:Ht; [|done].
  injection H as <-. apply as_str_Some in Hd, Hs. split.
  - exists raw. cbn. destruct (raw_metadata raw) as [m|]; cbn in *; [done|].
    by rewrite lookup_empty in Hd.
  - cbn. congruence.
Qed.

Lemma hydrate_results_reviews rag raw rs r c :
  length raw = length rs →
  r ∈ hydrate_results (raw_dict_map_of rag) raw rs → c ∈ supporting_reviews r →
  from_batch rag c ∧ source_type c = "review".
Proof.
  intros Hlen Hr Hc. unfold hydrate_results in Hr.
  apply list_elem_of_lookup in Hr as [i Hi].
  rewrite list_lookup_imap in Hi.
  destruct (rs !! i) as [r0|] eqn:Hr0; [|done]. cbn in Hi.
  destruct (lookup_lt_is_Some_2 raw i) as [ids Hids].
  { rewrite Hlen. by eapply lookup_lt_Some. }
  rewrite Hids in Hi. injection Hi as <-. cbn in Hc.
  apply list_elem_of_omap in Hc as (x & _ & Hx).
  by eapply hydrate_review_from_batch.
Qed.

Lemma validate_results_reviews dict l r :
  r ∈ validate_results dict l →
  ∃ r0, r0 ∈ l ∧ supporting_reviews r0 = supporting_reviews r.
Proof.
  induction l as [|x l IH]; cbn; [by intros ?%elem_of_nil|].
  destruct (dict !! product_id (product x)).
  - intros [->|Hin]%elem_of_cons.
    + exists x. split; [by left|done].
    + destruct (IH Hin) as (r0 & ? & ?). exists r0. split; [by right|done].
  - intros Hin. destruct (IH Hin) as (r0 & ? & ?). exists r0. split; [by right|done].
Qed.

Lemma build_response_results new_uuid j rag sid :
  results (build_response new_uuid j rag sid) =
  match results (parsed_response j), rag with
  | Some (r :: rs), _ :: _ =>
      Some (hydrate_results (raw_dict_map_of rag) (raw_llm_results j) (r :: rs))
  | res, _ => res
  end.
Proof. done. Qed.

Section evidence_origin.
Variable str_lower : string → string.
Variable str_strip : string → string.

Lemma promoted_ok_from ctxs moved rs promoted pr c :
  promoted_ok str_lower str_strip ctxs moved rs promoted →
  pr ∈ promoted → c ∈ pr → c ∈ ctxs ∧ source_type c = "review".
Proof.
  revert moved promoted. induction rs as [|r rs IH]; intros moved [|pr0 prs]; cbn;
    try done.
  - by intros _ ?%elem_of_nil.
  - intros (Hsub & Hpr & _ & Hok) [->|Hin]%elem_of_cons Hc.
    + split; [by eapply elem_of_sublist|]. by destruct (Hpr c Hc) as (_ & _ & ? & _).
    + by eapply IH.
Qed.

(** X3. With a non-empty retrieval batch, and a model that lists review ids
    for each of its results, every chunk shown in a response stems from an
    entry of the batch, be it in the top-level list or among the supporting
    reviews of a product; and every supporting review is of the review
    type. *)
Theorem evidence_comes_from_batch env q store resp store' :
  conversational_search str_lower str_strip env q store = (Ok resp, store') →
  env_rag_results env ≠ [] →
  (∀ attempt,
     reply_aligned (env_send_message_async env (history_for_llm q store) attempt)) →
  (∀ c, c ∈ default [] (rag_contexts resp) → from_batch (env_rag_results env) c) ∧
  (∀ r c, r ∈ default [] (results resp) → c ∈ supporting_reviews r →
          from_batch (env_rag_results env) c ∧ source_type c = "review").
Proof.
  intros Hsearch Hbatch Haligned.
  apply conversational_search_ok in Hsearch as (promoted & -> & _ & Hok).
  assert (∀ c, c ∈ used_contexts env q store → from_batch (env_rag_results env) c)
    as Hused.
  { intros c Hc. apply used_contexts_hydrated in Hc.
    by eapply hydrate_rag_context_from_batch. }
  split.
  - cbn. intros c Hc. apply Hused. unfold top_level_contexts in Hc.
    by apply list_elem_of_filter in Hc as [_ ?].
  - cbn. intros r c Hr Hc.
    rewrite ranked_results_eq in Hr, Hok.
    destruct (results (llm_response_of env q store)) as [proposed|] eqn:Hres;
      [|by apply elem_of_nil in Hr].
    cbn in Hr, Hok.
    apply list_elem_of_lookup in Hr as [i Hi]. rewrite lookup_zip_with in Hi.
    destruct (rerank _ _ !! i) as [r0|] eqn:Hr0; [|done]. cbn in Hi.
    destruct (promoted !! i) as [pr|] eqn:Hpr; [|done]. injection Hi as <-.
    cbn in Hc. apply elem_of_app in Hc as [Hc|Hc].
    + assert (r0 ∈ rerank (env_list_sort env)
                       (validate_results (product_catalog_dict_of env) proposed))
        as Hin by (by eapply list_elem_of_lookup_2).
      rewrite rerank_perm in Hin.
      apply validate_results_reviews in Hin as (r1 & Hr1 & Heq). rewrite <- Heq in Hc.
      unfold llm_response_of, llm_call in Hres.
      destruct (get_conversational_response_cases (env_api_key env)
                  (env_send_message_async env) (env_new_uuid env) (query q)
                  (env_rag_results env) (query_session_id q) (history_for_llm q store))
        as [(j & k & Hk & Hj & Heqr)|[(msg & just & Heqr)|(e & Heqr)]];
        rewrite Heqr in Hres; [| |done].
      * rewrite build_response_results in Hres.
        specialize (Haligned k). rewrite Hj in Haligned.
        unfold reply_aligned in Haligned.
        destruct (results (parsed_response j)) as [[|x xs]|] eqn:Hp.
        -- injection Hres as <-. by apply elem_of_nil in Hr1.
        -- destruct (env_rag_results env) as [|raw rag] eqn:Hrag; [done|].
           injection Hres as <-.
           eapply hydrate_results_reviews; [exact Haligned|exact Hr1|exact Hc].
        -- done.
      * cbn in Hres. injection Hres as <-. by apply elem_of_nil in Hr1.
    + assert (pr ∈ promoted) as Hin by (by eapply list_elem_of_lookup_2).
      destruct (promoted_ok_from _ _ _ _ _ _ Hok Hin Hc) as [Hctx Hrev].
      split; [by apply Hused|done].
Qed.
End evidence_origin.

(** ** Further properties of the session store *)

Lemma turn_pairs_app h1 h2 : turn_pairs h1 → turn_pairs h2 → turn_pairs (h1 ++ h2).
Proof.
  revert h1. fix IH 1. intros [|u [|m h1]]; cbn; try done.
  intros (? & ? & H1) H2. split_and!; [done..|]. by apply IH.
Qed.

Lemma turn_pairs_even h : turn_pairs h → ∃ n, length h = 2 * n.
Proof.
  revert h. fix IH 1. intros [|u [|m h]]; cbn; try done.
  - by exists 0.
  - intros (_ & _ & H). destruct (IH h H) as [n Hn]. exists (S n). lia.
Qed.

Lemma turn_pairs_drop h n : turn_pairs h → turn_pairs (drop (2 * n) h).
Proof.
  revert h. induction n as [|n IH]; intros h Hh; [by rewrite drop_0|].
  destruct h as [|u [|m h]]; cbn in *; try done.
  destruct Hh as (_ & _ & Hh). replace (n + S (n + 0)) with (S (2 * n)) by lia.
  cbn. by apply IH.
Qed.

Section session_more.
Variable str_lower : string → string.
Variable str_strip : string → string.

(** X4. A request touches the history of one session only, the one named
    in its response; a request that fails leaves every history as it was. *)
Theorem other_sessions_untouched env q store sid :
  (∀ resp, (conversational_search str_lower str_strip env q store).1 = Ok resp →
           session_id resp ≠ sid) →
  (conversational_search str_lower str_strip env q store).2 !! sid = store !! sid.
Proof.
  intros Hother.
  destruct (conversational_search_store str_lower str_strip env q store)
    as [[resp Heq]|[s Heq]]; rewrite Heq in *; cbn [fst snd] in *; [|done].
  rewrite update_conversations_eq. cbn zeta.
  rewrite lookup_insert_ne; [done|]. by apply Hother.
Qed.

Lemma update_conversations_pairs store sid query resp :
  (∀ sid h, store !! sid = Some h → turn_pairs h) →
  ∀ sid' h, update_conversations str_strip store sid query resp !! sid' = Some h →
            turn_pairs h.
Proof.
  intros Hp sid' h. rewrite update_conversations_eq. cbn zeta.
  rewrite lookup_insert. case_decide; [|by apply Hp].
  intros [= <-].
  assert (turn_pairs (default [] (store !! sid) ++
            [ {| role := "user"; parts := [query] |};
              {| role := "model";
                 parts := [response_summary_for_history str_strip resp] |} ])) as Hall.
  { apply turn_pairs_app; [|done].
    destruct (store !! sid) as [h0|] eqn:Hs; [by eapply Hp|done]. }
  destruct (turn_pairs_even _ Hall) as [n Hn]. rewrite Hn.
  match goal with |- turn_pairs (drop ?d _) => set (d0 := d) end.
  assert (d0 = 2 * (n - 10)) as -> by (subst d0; unfold MAX_HISTORY_TURNS; lia).
  exact (turn_pairs_drop _ (n - 10) Hall).
Qed.

(** X5. Stored histories are made of whole exchanges: in every history a
    user turn is followed by a model turn, and the truncation to the last
    twenty turns drops whole pairs.  This holds after any run of requests
    from a store of which it holds, the empty store for one. *)
Theorem histories_are_turn_pairs requests store0 sid h :
  (∀ sid h, store0 !! sid = Some h → turn_pairs h) →
  serve str_lower str_strip requests store0 !! sid = Some h →
  turn_pairs h.
Proof.
  revert store0. induction requests as [|[env q] requests IH]; intros store0 Hp;
    cbn [serve]; [by apply Hp|].
  apply IH.
  destruct (conversational_search_store str_lower str_strip env q store0)
    as [[resp ->]|[s ->]]; cbn [snd]; [|done].
  by apply update_conversations_pairs.
Qed.

(** X6. What a completed request stores is what the next request of the
    same session hands to the model: with the response's session id, the
    history read for the model is the old history followed by the two new
    turns, cut to its last twenty turns. *)
Theorem stored_history_is_read_back env q store resp store' s next_query :
  conversational_search str_lower str_strip env q store = (Ok resp, store') →
  session_id resp = Some s → s ≠ "" →
  history_for_llm {| query := next_query; query_session_id := Some s |} store' =
  let appended :=
    default [] (store !! Some s) ++
      [ {| role := "user"; parts := [query q] |};
        {| role := "model";
           parts := [response_summary_for_history str_strip resp] |} ] in
  drop (length appended - MAX_HISTORY_TURNS * 2) appended.
Proof.
  intros Hsearch Hsid Hne.
  destruct (conversational_search_store str_lower str_strip env q store)
    as [[resp' Heq]|[s' Heq]]; rewrite Heq in Hsearch; [|done].
  injection Hsearch as -> <-.
  unfold history_for_llm. cbn [query_session_id].
  apply str_truthy_true in Hne. rewrite Hne.
  rewrite update_conversations_eq. cbn zeta. rewrite Hsid.
  by rewrite lookup_insert_eq.
Qed.
End session_more.

(** ** Further properties of validation and re-ranking *)

(** X7. When the catalog holds several records with one product id, the
    record used for that id is the last of them. *)
Theorem catalog_dict_last_wins product_catalog_list k :
  build_product_catalog_dict product_catalog_list !! k =
  last (filter (λ p, product_id p = k) product_catalog_list).
Proof.
  unfold build_product_catalog_dict.
  induction product_catalog_list as [|p l IH] using rev_ind; [done|].
  rewrite foldl_app, filter_app. cbn [foldl]. rewrite lookup_insert.
  rewrite filter_cons, filter_nil. case_decide as Hk.
  - by rewrite last_snoc.
  - by rewrite app_nil_r.
Qed.

Lemma zip_add_promoted_filter (P : ProductResult → Prop) `{!∀ r, Decision (P r)}
    rs promoted :
  (∀ r pr, P (add_promoted r pr) ↔ P r) →
  length rs = length promoted →
  recommendation <$> filter P (zip_with add_promoted rs promoted) =
  recommendation <$> filter P rs.
Proof.
  intros HP. revert promoted.
  induction rs as [|r rs IH]; intros [|pr promoted] [=]; [done|].
  cbn [zip_with]. rewrite !filter_cons.
  destruct (decide (P r)) as [Hr|Hr].
  - rewrite decide_True by (by apply HP). rewrite !fmap_cons, IH by done. done.
  - rewrite decide_False by (by rewrite HP). by apply IH.
Qed.

Lemma filter_none {A} (P : A → Prop) `{!∀ x, Decision (P x)} (l : list A) :
  (∀ x, x ∈ l → ¬ P x) → filter P l = [].
Proof.
  induction l as [|x l IH]; intros Hnone; [done|]. rewrite filter_cons.
  rewrite decide_False by (apply Hnone; by left).
  apply IH. intros y ?. apply Hnone. by right.
Qed.

Section ranking_more.
Variable str_lower : string → string.
Variable str_strip : string → string.

(** X8. The sort by margin is stable: when no result of the response has a
    margin that is not a number, the results that share a margin stand in
    the response in the order in which the model proposed them. *)
Theorem equal_margins_keep_order env q store resp store' rs m :
  conversational_search str_lower str_strip env q store = (Ok resp, store') →
  results resp = Some rs →
  margins_are_numbers rs →
  recommendation <$> filter (λ r, margin_percentage (product r) = Some m) rs =
  recommendation <$>
    filter (λ r, margin_percentage (product r) = Some m)
      (validate_results (product_catalog_dict_of env)
         (default [] (results (llm_response_of env q store)))).
Proof.
  intros Hsearch Hrs Hnum.
  destruct (final_results _ _ _ _ _ _ _ _ Hsearch Hrs) as (l & promoted & Hl & Hlen & ->).
  rewrite Hl. cbn [default from_option id].
  set (kept := validate_results (product_catalog_dict_of env) l) in *.
  assert (margins_are_numbers kept) as Hkept.
  { eapply margins_are_numbers_products; [|exact Hnum].
    rewrite zip_add_promoted_product by done. by rewrite rerank_perm. }
  rewrite zip_add_promoted_filter by done.
  destruct (decide (m = NaN)) as [->|Hm].
  { rewrite !filter_none; [done|..]; intros r Hr.
    - by apply Hkept.
    - apply Hkept. by rewrite <- (rerank_perm (env_list_sort env)). }
  destruct (rerank_split (env_list_sort env) kept Hkept)
    as (sorted & Heq & _ & _ & Hstable).
  rewrite Heq, filter_app, Hstable by done. f_equal.
  rewrite (filter_none _ (filter lacks_margin _)); [by rewrite app_nil_r|].
  intros r Hr. apply list_elem_of_filter in Hr as [Hr _].
  unfold lacks_margin in Hr. congruence.
Qed.

(** X19. When no result of the response has a margin that is not a number,
    the results are a list sorted by decreasing margin, holding the results
    with a margin, followed by the results without one; the latter stand
    in the order the model gave them. *)
Theorem margin_ordering env q store resp store' rs :
  conversational_search str_lower str_strip env q store = (Ok resp, store') →
  results resp = Some rs →
  margins_are_numbers rs →
  let kept := validate_results (product_catalog_dict_of env)
                (default [] (results (llm_response_of env q store))) in
  ∃ sorted rest,
    rs = sorted ++ rest ∧
    StronglySorted margin_desc sorted ∧
    Forall has_margin sorted ∧
    Forall lacks_margin rest ∧
    recommendation <$> rest = recommendation <$> filter lacks_margin kept ∧
    recommendation <$> sorted ≡ₚ recommendation <$> filter has_margin kept.
Proof.
  intros Hsearch Hrs Hnum kept.
  destruct (final_results _ _ _ _ _ _ _ _ Hsearch Hrs) as (l & promoted & Hl & Hlen & ->).
  subst kept. rewrite Hl in *. cbn [default from_option id].
  set (kept := validate_results (product_catalog_dict_of env) l) in *.
  assert (margins_are_numbers kept) as Hkept.
  { eapply margins_are_numbers_products; [|exact Hnum].
    rewrite zip_add_promoted_product by done. by rewrite rerank_perm. }
  destruct (rerank_split (env_list_sort env) kept Hkept)
    as (sorted0 & Heq & Hperm & Hsorted & _).
  rewrite Heq in *. rewrite length_app in Hlen.
  set (n := length sorted0).
  assert (length sorted0 = length (take n promoted)) as Hn1
    by (rewrite length_take; subst n; lia).
  assert (length (filter lacks_margin kept) = length (drop n promoted)) as Hn2
    by (rewrite length_drop; subst n; lia).
  exists (zip_with add_promoted sorted0 (take n promoted)),
         (zip_with add_promoted (filter lacks_margin kept) (drop n promoted)).
  assert (∀ (P : Product → Prop) rs0 prs, length rs0 = length prs →
            Forall (λ r, P (product r)) rs0 →
            Forall (λ r, P (product r)) (zip_with add_promoted rs0 prs)) as Hforall.
  { intros P rs0 prs Hlen0 H0.
    apply (Forall_fmap product P). rewrite zip_add_promoted_product by done.
    by apply Forall_fmap. }
  split_and!.
  - rewrite <- (take_drop n promoted) at 1. by rewrite zip_with_app.
  - apply (StronglySorted_fmap_inv
             (λ p1 p2, match margin_percentage p1, margin_percentage p2 with
                       | Some m1, Some m2 => float_le m2 m1 = true
                       | _, _ => False
                       end) product).
    rewrite zip_add_promoted_product by done.
    eapply (StronglySorted_fmap product); [|exact Hsorted]. by intros ??.
  - apply (Hforall (λ p, is_Some (margin_percentage p))); [done|].
    rewrite Hperm. apply Forall_forall. intros r Hr.
    by apply list_elem_of_filter in Hr as [? _].
  - apply (Hforall (λ p, margin_percentage p = None)); [done|].
    apply Forall_forall. intros r Hr. by apply list_elem_of_filter in Hr as [? _].
  - by rewrite zip_add_promoted_recommendation.
  - rewrite zip_add_promoted_recommendation by done. by rewrite Hperm.
Qed.

Lemma top_level_contexts_empty (l : list DocumentChunk) :
  top_level_contexts l ∅ = l.
Proof.
  unfold top_level_contexts.
  induction l as [|c l IH]; [done|]. rewrite filter_cons.
  rewrite decide_True by set_solver. by rewrite IH.
Qed.

(** X9. When the catalog cannot be loaded, a request whose call of the
    handler returns still completes: no product is recommended, every
    chunk the model used is shown in the top-level list, and the exchange
    is stored. *)
Theorem catalog_unavailable_degrades env q store status_code llm_response :
  env_products env = HTTPException status_code →
  llm_call env q store = Returns llm_response →
  ∃ resp,
    conversational_search str_lower str_strip env q store =
      (Ok resp, update_conversations str_strip store (session_id resp) (query q) resp) ∧
    default [] (results resp) = [] ∧
    rag_contexts resp = Some (default [] (rag_contexts llm_response)).
Proof.
  intros Hcat Hcall.
  assert (llm_response_of env q store = llm_response) as Hllm
    by (unfold llm_response_of; by rewrite Hcall).
  assert (product_catalog_dict_of env = ∅) as Hdict
    by (unfold product_catalog_dict_of; by rewrite Hcat).
  assert (∀ l, validate_results ∅ l = []) as Hval.
  { induction l as [|r l IH]; cbn; [done|]. by rewrite lookup_empty. }
  assert (default [] (ranked_results env q store) = []) as Hranked.
  { rewrite ranked_results_eq, Hdict.
    destruct (results (llm_response_of env q store)); cbn; [|done]. by rewrite Hval. }
  destruct (conversational_search_store str_lower str_strip env q store)
    as [[resp Heq]|[s Heq]].
  - exists resp. split; [done|].
    apply conversational_search_ok in Heq as (promoted & -> & _ & Hok).
    rewrite Hranked in Hok. destruct promoted; [|done]. split.
    + cbn [results set_results_and_contexts].
      destruct (ranked_results env q store) as [[|??]|]; cbn in *; done.
    + cbn [rag_contexts set_results_and_contexts]. f_equal.
      replace (⋃ (chunk_ids <$> [])) with (∅ : gset string) by done.
      unfold used_contexts. rewrite Hllm. apply top_level_contexts_empty.
  - exfalso. unfold conversational_search in Heq. rewrite Hcall in Heq.
    unfold ranked_results in Hranked. rewrite Hllm in Hranked.
    destruct (reranked_results env _) as [[|??]|]; cbn in *; done.
Qed.
End ranking_more.

(** ** Further properties of the chunker *)

Lemma ceil_div_lt a b k : 0 < b → k < ceil_div a b → k * b < a.
Proof.
  intros Hb Hk. unfold ceil_div in Hk.
  pose proof (Nat.Div0.mul_div_le (a + b - 1) b) as Hq.
  assert (b * S k ≤ b * ((a + b - 1) / b)) as Hm by (apply Nat.mul_le_mono_l; lia).
  rewrite Nat.mul_succ_r in Hm. rewrite (Nat.mul_comm k b). lia.
Qed.

Section chunker_more.
Variable uuid4 : nat → string.

Lemma chunk_parsed_documents_closed parsed_docs calls :
  chunk_parsed_documents uuid4 parsed_docs calls =
  Some (all_doc_chunks uuid4 parsed_docs calls,
        calls + length (all_doc_chunks uuid4 parsed_docs calls)).
Proof.
  unfold chunk_parsed_documents.
  revert calls. induction parsed_docs as [|d rest IH]; intros calls; cbn [chunk_for all_doc_chunks].
  - cbn. by rewrite Nat.add_0_r.
  - rewrite chunk_document_closed. cbn [app].
    destruct (chunk_for_total uuid4 rest (calls + length (doc_chunks uuid4 d calls))
                (doc_chunks uuid4 d calls)) as (new & c' & H1 & H2).
    rewrite H1. rewrite IH in H2. injection H2 as <- <-.
    rewrite length_app. do 2 f_equal. lia.
Qed.

Lemma doc_chunks_elem p_doc calls c :
  c ∈ doc_chunks uuid4 p_doc calls →
  ∃ k, k * chunk_step < length (content p_doc) ∧
       c = new_chunk uuid4 p_doc
             (slice (content p_doc) (k * chunk_step) (k * chunk_step + TEXT_CHUNK_SIZE))
             (calls + k).
Proof.
  intros Hc. apply list_elem_of_lookup in Hc as [k Hk].
  exists k. split; [|by apply doc_chunks_lookup].
  apply ceil_div_lt; [apply chunk_step_pos|].
  apply lookup_lt_Some in Hk. by rewrite doc_chunks_length in Hk.
Qed.

Lemma all_doc_chunks_elem parsed_docs calls c :
  c ∈ all_doc_chunks uuid4 parsed_docs calls →
  ∃ d k j, d ∈ parsed_docs ∧ k * chunk_step < length (content d) ∧
           c = new_chunk uuid4 d
                 (slice (content d) (k * chunk_step) (k * chunk_step + TEXT_CHUNK_SIZE)) j.
Proof.
  revert calls. induction parsed_docs as [|d rest IH]; intros calls; cbn [all_doc_chunks].
  - by intros ?%elem_of_nil.
  - intros [Hc|Hc]%elem_of_app.
    + apply doc_chunks_elem in Hc as (k & Hk & ->). exists d, k, (calls + k).
      split_and!; [by left|done..].
    + apply IH in Hc as (d' & k & j & ? & ? & ?). exists d', k, j.
      split_and!; [by right|done..].
Qed.

Lemma all_doc_chunks_ids parsed_docs calls :
  chunk_id <$> all_doc_chunks uuid4 parsed_docs calls =
  uuid4 <$> seq calls (length (all_doc_chunks uuid4 parsed_docs calls)).
Proof.
  revert calls. induction parsed_docs as [|d rest IH]; intros calls; cbn [all_doc_chunks];
    [done|].
  rewrite fmap_app, length_app, seq_app, fmap_app, IH. f_equal.
  unfold doc_chunks, window_chunks. rewrite length_fmap, length_seq.
  rewrite <- list_fmap_compose.
  match goal with |- _ = uuid4 <$> seq calls ?m =>
    replace (seq calls m) with (Nat.add calls <$> seq 0 m)
      by (rewrite fmap_add_seq; f_equal; lia)
  end.
  rewrite <- list_fmap_compose. apply list_fmap_ext. intros i k _. cbn. done.
Qed.

(** X10. Every chunk text is non-empty and at most [TEXT_CHUNK_SIZE = 512]
    characters long, and it is a piece of the content of the document whose
    id the chunk carries. *)
Theorem chunk_text_bounds parsed_docs calls chunks calls' c :
  chunk_parsed_documents uuid4 parsed_docs calls = Some (chunks, calls') →
  c ∈ chunks →
  0 < length (text_chunk c) ≤ TEXT_CHUNK_SIZE ∧
  ∃ d before after,
    d ∈ parsed_docs ∧ document_id c = doc_id d ∧
    content d = before ++ text_chunk c ++ after.
Proof.
  rewrite chunk_parsed_documents_closed. intros [= <- <-] Hc.
  apply all_doc_chunks_elem in Hc as (d & k & j & Hd & Hk & ->).
  cbn [text_chunk new_chunk document_id]. rewrite slice_window. split.
  - rewrite length_take, length_drop. unfold TEXT_CHUNK_SIZE. lia.
  - exists d, (take (k * chunk_step) (content d)),
           (drop TEXT_CHUNK_SIZE (drop (k * chunk_step) (content d))).
    split_and!; [done..|]. by rewrite !take_drop.
Qed.

(** X11. When [uuid4] never repeats a value, the chunks of one run have
    pairwise distinct ids, across all documents. *)
Theorem chunk_ids_are_distinct parsed_docs calls chunks calls' :
  Inj (=) (=) uuid4 →
  chunk_parsed_documents uuid4 parsed_docs calls = Some (chunks, calls') →
  NoDup (chunk_id <$> chunks) ∧ calls' = calls + length chunks.
Proof.
  intros Hinj. rewrite chunk_parsed_documents_closed. intros [= <- <-].
  split; [|done]. rewrite all_doc_chunks_ids.
  apply NoDup_fmap_2; [done|]. apply NoDup_seq.
Qed.

(** X12. The metadata of a chunk records the id and the source type of its
    document under [original_doc_id] and [source_type], and has the
    document's own metadata under every other key; the chunk's
    [document_id] and [source_type] are those of the document. *)
Theorem chunk_metadata_inherited parsed_docs calls chunks calls' c :
  chunk_parsed_documents uuid4 parsed_docs calls = Some (chunks, calls') →
  c ∈ chunks →
  ∃ d, d ∈ parsed_docs ∧
    document_id c = doc_id d ∧ source_type c = doc_source_type d ∧
    metadata c !! "original_doc_id" = Some (VStr (doc_id d)) ∧
    metadata c !! "source_type" = Some (VStr (doc_source_type d)) ∧
    ∀ key, key ≠ "original_doc_id" → key ≠ "source_type" →
           metadata c !! key = doc_metadata d !! key.
Proof.
  rewrite chunk_parsed_documents_closed. intros [= <- <-] Hc.
  apply all_doc_chunks_elem in Hc as (d & k & j & Hd & Hk & ->).
  exists d. cbn [new_chunk document_id source_type metadata].
  split_and!; try done.
  - by rewrite lookup_insert_ne, lookup_insert_eq.
  - by rewrite lookup_insert_eq.
  - intros key H1 H2. by rewrite !lookup_insert_ne.
Qed.
End chunker_more.

(** ** From the store back to a chunk *)

(** X13. [query_vector_store] returns one entry per hit, in the order of the
    hits and with the hit's id, and the empty list when the store reports no
    ids or no hit. *)
Theorem query_results_follow_ids results batch :
  format_query_results results = Some batch →
  raw_id <$> batch = default [] (head (res_ids results)).
Proof.
  unfold format_query_results.
  destruct (res_ids results) as [|[|x ids0] rest]; [by intros [= <-]..|].
  cbn [head default from_option id]. intros H.
  apply mapM_Some in H. apply list_eq. intros i.
  rewrite list_lookup_fmap.
  destruct (decide (i < length (x :: ids0))) as [Hi|Hi].
  - destruct (lookup_lt_is_Some_2 (seq 0 (length (x :: ids0))) i) as [k Hk];
      [by rewrite length_seq|].
    pose proof Hk as Hk'. apply lookup_seq in Hk' as [-> _]. cbn [Nat.add] in Hk.
    destruct (Forall2_lookup_l _ _ _ _ _ H Hk) as (raw & Hraw & Hf).
    rewrite Hraw. cbn [fmap option_fmap option_map].
    destruct ((x :: ids0) !! i) as [id_|]; [|done]. cbn in Hf.
    destruct (cell (res_documents results) i); [|done]. cbn in Hf.
    destruct (cell (res_metadatas results) i); [|done]. cbn in Hf.
    destruct (cell (res_distances results) i); [|done]. cbn in Hf.
    by injection Hf as <-.
  - apply Forall2_length in H. rewrite length_seq in H.
    rewrite (lookup_ge_None_2 batch) by lia. cbn. symmetry.
    apply lookup_ge_None_2. lia.
Qed.

Lemma format_query_result_of hits distances :
  length distances = length hits →
  format_query_results (query_result_of hits distances) =
  Some (zip_with raw_dict_of hits distances).
Proof.
  intros Hlen. unfold query_result_of, add_arguments, format_query_results.
  cbn [res_ids res_documents res_metadatas res_distances].
  destruct hits as [|c hits]; [by destruct distances|].
  rewrite fmap_cons. rewrite <- fmap_cons.
  apply mapM_Some. rewrite length_fmap.
  apply Forall2_same_length_lookup. split.
  { rewrite length_seq, length_zip_with. lia. }
  intros i k raw Hk Hraw. apply lookup_seq in Hk as [-> Hi]. cbn [Nat.add].
  rewrite lookup_zip_with in Hraw.
  destruct ((c :: hits) !! i) as [h|] eqn:Hh; [|done]. cbn in Hraw.
  destruct (distances !! i) as [d|] eqn:Hd; [|done]. injection Hraw as <-.
  unfold cell. rewrite !list_lookup_fmap, Hh, Hd. done.
Qed.

Lemma build_raw_dict_map_is_Some rag k :
  k ≠ "" → (∃ raw_dict, raw_dict ∈ rag ∧ raw_id raw_dict = k) →
  is_Some (build_raw_dict_map rag !! k).
Proof.
  intros Hk. unfold build_raw_dict_map.
  induction rag as [|x rag IH] using rev_ind.
  - intros (r & Hr & _). by apply elem_of_nil in Hr.
  - intros (r & Hr & Hid). rewrite foldl_app. cbn [foldl].
    destruct (decide (raw_id x = k)) as [Hx|Hx].
    + rewrite Hx. apply str_truthy_true in Hk. rewrite Hk.
      rewrite lookup_insert_eq. by eexists.
    + apply elem_of_app in Hr as [Hr|Hr%list_elem_of_singleton]; [|congruence].
      destruct (str_truthy (raw_id x)); [rewrite lookup_insert_ne by done|];
        apply IH; by exists r.
Qed.

Lemma NoDup_fmap_same {A B} (f : A → B) (l : list A) x y :
  NoDup (f <$> l) → x ∈ l → y ∈ l → f x = f y → x = y.
Proof.
  intros Hnd [i Hi]%list_elem_of_lookup [j Hj]%list_elem_of_lookup Hf.
  assert (i = j) as ->; [|congruence].
  eapply NoDup_lookup; [exact Hnd| |]; rewrite list_lookup_fmap.
  - by rewrite Hi.
  - rewrite Hj. cbn. by rewrite Hf.
Qed.

Section round_trip.
Variable uuid4 : nat → string.

(** X14. A chunk made by the chunker survives the trip through the store:
    when a query returns hits that were added with the chunker's output,
    hydrating the id of a hit out of the formatted batch gives the chunk
    itself.  The ids drawn must be distinct and non-empty, and the
    documents must have a non-empty id and source type. *)
Theorem ingested_chunk_round_trip parsed_docs calls chunks calls' hits distances
    batch c :
  Inj (=) (=) uuid4 → (∀ n, uuid4 n ≠ "") →
  (∀ d, d ∈ parsed_docs → doc_id d ≠ "" ∧ doc_source_type d ≠ "") →
  chunk_parsed_documents uuid4 parsed_docs calls = Some (chunks, calls') →
  hits ⊆ chunks → length distances = length hits →
  format_query_results (query_result_of hits distances) = Some batch →
  c ∈ hits →
  hydrate_rag_context (raw_dict_map_of batch) (chunk_id c) = Some c.
Proof.
  intros Hinj Hne Hdocs Hchunks Hsub Hlen Hbatch Hc.
  rewrite chunk_parsed_documents_closed in Hchunks. injection Hchunks as <- <-.
  assert (NoDup (chunk_id <$> all_doc_chunks uuid4 parsed_docs calls)) as Hnd.
  { rewrite all_doc_chunks_ids. apply NoDup_fmap_2; [done|]. apply NoDup_seq. }
  rewrite format_query_result_of in Hbatch by done. injection Hbatch as <-.
  assert (∀ raw, raw ∈ zip_with raw_dict_of hits distances →
            ∃ h d, h ∈ hits ∧ raw = raw_dict_of h d) as Hraw.
  { intros raw Hr. apply list_elem_of_lookup in Hr as [i Hi].
    rewrite lookup_zip_with in Hi.
    destruct (hits !! i) as [h|] eqn:Hh; [|done]. cbn in Hi.
    destruct (distances !! i) as [d|]; [|done]. injection Hi as <-.
    exists h, d. split; [by eapply list_elem_of_lookup_2|done]. }
  assert (chunk_id c ≠ "") as Hid.
  { apply Hsub, all_doc_chunks_elem in Hc as (d0 & k & j & _ & _ & ->). apply Hne. }
  assert (zip_with raw_dict_of hits distances ≠ []) as Hnil.
  { destruct hits; [by apply elem_of_nil in Hc|]. by destruct distances. }
  assert (∃ d, raw_dict_map_of (zip_with raw_dict_of hits distances) !! chunk_id c
               = Some (raw_dict_of c d)) as [d Hlook].
  { unfold raw_dict_map_of.
    destruct (zip_with raw_dict_of hits distances) as [|r0 batch] eqn:Hz; [done|].
    rewrite <- Hz in *.
    destruct (build_raw_dict_map_is_Some (zip_with raw_dict_of hits distances)
                (chunk_id c) Hid) as [raw Hm].
    { apply list_elem_of_lookup in Hc as [i Hi].
      destruct (lookup_lt_is_Some_2 distances i) as [d Hd];
        [rewrite Hlen; by eapply lookup_lt_Some|].
      exists (raw_dict_of c d). split; [|done].
      apply list_elem_of_lookup. exists i.
      rewrite lookup_zip_with, Hi. cbn. by rewrite Hd. }
    rewrite Hm.
    destruct (build_raw_dict_map_lookup _ _ _ Hm) as [Hin Hrid].
    destruct (Hraw raw Hin) as (h & d & Hh & ->). cbn in Hrid.
    exists d. by rewrite (NoDup_fmap_same chunk_id _ h c Hnd) by auto. }
  unfold hydrate_rag_context. rewrite Hlook.
  pose proof (Hsub _ Hc) as Hc'.
  apply all_doc_chunks_elem in Hc' as (d0 & k & j & Hd0 & Hk & Heq).
  destruct (Hdocs d0 Hd0) as [Hdid Hst].
  cbn [raw_dict_of raw_metadata raw_text_chunk default from_option id].
  rewrite Heq. cbn [new_chunk metadata text_chunk chunk_id].
  rewrite lookup_insert_ne by done. rewrite !lookup_insert_eq.
  cbn [opt_truthy truthy as_str].
  apply str_truthy_true in Hdid, Hst. unfold str_truthy in *.
  pose proof (proj2 (str_truthy_true (uuid4 j)) (Hne j)) as Hu. unfold str_truthy in Hu.
  rewrite Hdid, Hst, Hu. cbn [andb].
  assert (text_truthy (Some (slice (content d0) (k * chunk_step)
                               (k * chunk_step + TEXT_CHUNK_SIZE))) = true) as Ht.
  { rewrite slice_window.
    destruct (take TEXT_CHUNK_SIZE (drop (k * chunk_step) (content d0))) eqn:E; [|done].
    apply (f_equal length) in E. rewrite length_take, length_drop in E.
    unfold TEXT_CHUNK_SIZE in E. cbn [length] in E. lia. }
  rewrite Ht. done.
Qed.
End round_trip.

(** ** The product cache *)

(** X15. After a call of [list_products] that returned a catalog with at
    least one product, a further call returns the same products from the
    cache, whatever the loader would do now, as long as the file's
    modification time has not grown. *)
Theorem cached_catalog_is_reused file st products st' file' m m' :
  list_products file st = (Ok products, st') →
  products ≠ [] →
  st_mtime file = Some m → st_mtime file' = Some m' → (m' <= m)%Qc →
  list_products file' st' = (Ok products, st').
Proof.
  unfold list_products, get_products_from_file. intros H Hne Hm Hm' Hle.
  rewrite Hm in H. rewrite Hm'.
  assert (cache_stale st' m' = false ∧ _products_cache st' = products) as [-> ->]; [|done].
  destruct (cache_stale st m) eqn:Hstale.
  - destruct (load_products_from_csv file) as [e|loaded]; [done|].
    injection H as <- <-. cbn. split; [|done].
    unfold cache_stale. cbn. destruct loaded as [|p loaded]; [done|].
    apply bool_decide_eq_false. by apply Qcle_not_lt.
  - injection H as <- <-. split; [|done].
    unfold cache_stale in *. destruct (_products_cache st); [done|].
    destruct (_products_cache_mtime st) as [c|]; [|done].
    apply bool_decide_eq_false in Hstale. apply bool_decide_eq_false.
    apply Qcle_not_lt. apply Qcnot_lt_le in Hstale. by etrans.
Qed.

(** X16. An empty catalog is never served from the cache: after a call that
    returned no product, as after [clear_product_cache], the next call goes
    to the loader and answers what the loader gives now, also when the
    file's modification time has not changed. *)
Theorem empty_catalog_is_reloaded file st st' file' m' :
  list_products file st = (Ok [], st') ∨ st' = clear_product_cache st →
  st_mtime file' = Some m' →
  list_products file' st' =
  match load_products_from_csv file' with
  | inr loaded =>
      (Ok loaded, {| _products_cache := loaded; _products_cache_mtime := Some m' |})
  | inl _ => (HTTPException 500, st')
  end.
Proof.
  unfold list_products, get_products_from_file. intros H Hm'. rewrite Hm'.
  assert (_products_cache st' = []) as Hc.
  { destruct H as [H| ->]; [|done].
    destruct (st_mtime file); [|done].
    destruct (cache_stale st q).
    - destruct (load_products_from_csv file); [done|]. by injection H as ? <-.
    - by injection H as ? <-. }
  unfold cache_stale. rewrite Hc.
  destruct (load_products_from_csv file') as [e|[|p loaded]]; done.
Qed.

(** ** The reviews file *)

Lemma list_index_lt x l k : list_index x l = Some k → k < length l.
Proof.
  revert k. induction l as [|y l IH]; intros k; cbn; [done|].
  case_decide; [intros [= <-]; lia|].
  destruct (list_index x l) as [k'|]; [|done]. intros [= <-].
  specialize (IH k' eq_refl). lia.
Qed.

Section reviews.
Variable str_strip : string → string.

Lemma review_lines_spec file_path n a b c d lines i k :
  a < n → b < n → c < n → d < n →
  let docs := review_lines str_strip file_path n a b c d lines i k in
  length docs = length (filter (λ l, well_formed_line str_strip n l = true) lines) ∧
  doc_id <$> docs = (λ j, "review_txt_" +:+ pretty j) <$> seq k (length docs) ∧
  Forall (λ doc, doc_source_type doc = "review" ∧
                 doc_metadata doc !! "product_id" = None ∧
                 (∃ s, doc_metadata doc !! "product_name" = Some (VStr s)) ∧
                 (∃ s, doc_metadata doc !! "rating" = Some (VStr s))) docs.
Proof.
  intros Ha Hb Hc Hd. revert i k.
  induction lines as [|line0 rest IH]; intros i k; [done|].
  cbn [review_lines]. rewrite filter_cons.
  destruct (well_formed_line str_strip n line0) eqn:Hwf; unfold well_formed_line in Hwf.
  - apply andb_true_iff in Hwf as [Ht Hlen%bool_decide_eq_true].
    rewrite Ht. cbn [negb]. rewrite !decide_True by done.
    destruct (lookup_lt_is_Some_2 (str_split TAB (str_strip line0)) a) as [xa ->]; [lia|].
    destruct (lookup_lt_is_Some_2 (str_split TAB (str_strip line0)) b) as [xb ->]; [lia|].
    destruct (lookup_lt_is_Some_2 (str_split TAB (str_strip line0)) c) as [xc ->]; [lia|].
    destruct (lookup_lt_is_Some_2 (str_split TAB (str_strip line0)) d) as [xd ->]; [lia|].
    destruct (IH (S i) (S k)) as (IH1 & IH2 & IH3).
    split_and!.
    + cbn [length]. by rewrite IH1.
    + cbn [length seq]. rewrite !fmap_cons. by rewrite IH2.
    + constructor; [|done]. cbn. split_and!; [done|done|by eexists|by eexists].
  - rewrite (decide_False (P := false = true)) by done.
    apply andb_false_iff in Hwf as [Ht|Hlen%bool_decide_eq_false].
    + rewrite Ht. cbn [negb]. apply IH.
    + destruct (str_truthy (str_strip line0)); cbn [negb]; [|apply IH].
      rewrite decide_False by done. apply IH.
Qed.

(** X17. When the header of the reviews file names the four columns,
    [load_reviews_from_txt] gives one document for every further line that
    is not blank and has as many columns as the header; the documents are
    numbered [review_txt_0], [review_txt_1], ... in the order of the lines,
    so that their ids are distinct. *)
Theorem reviews_are_numbered file_path first_line rest :
  "Reviewer" ∈ headers_of str_strip first_line →
  "Product" ∈ headers_of str_strip first_line →
  "Rating" ∈ headers_of str_strip first_line →
  "Review" ∈ headers_of str_strip first_line →
  length (load_reviews_from_txt str_strip file_path (Some (first_line :: rest))) =
    length (filter (λ l, well_formed_line str_strip
                           (length (headers_of str_strip first_line)) l = true) rest) ∧
  doc_id <$> load_reviews_from_txt str_strip file_path (Some (first_line :: rest)) =
    (λ j, "review_txt_" +:+ pretty j) <$>
      seq 0 (length (load_reviews_from_txt str_strip file_path
                       (Some (first_line :: rest)))) ∧
  NoDup (doc_id <$> load_reviews_from_txt str_strip file_path
                      (Some (first_line :: rest))).
Proof.
  unfold load_reviews_from_txt.
  set (headers := headers_of str_strip first_line). intros H1 H2 H3 H4.
  assert (∀ x, x ∈ headers → ∃ k, list_index x headers = Some k ∧ k < length headers) as Hidx.
  { intros x Hx. destruct (list_index x headers) as [k|] eqn:E.
    - exists k. split; [done|]. by eapply list_index_lt.
    - exfalso. clear -Hx E. induction headers as [|y l IH]; [by apply elem_of_nil in Hx|].
      cbn in E. case_decide; [done|].
      apply elem_of_cons in Hx as [->|Hx]; [done|].
      destruct (list_index x l); [done|]. by apply IH. }
  destruct (Hidx _ H1) as (a & -> & Ha). destruct (Hidx _ H2) as (b & -> & Hb).
  destruct (Hidx _ H3) as (c & -> & Hc). destruct (Hidx _ H4) as (d & -> & Hd).
  destruct (review_lines_spec file_path (length headers) a b c d rest 0 0 Ha Hb Hc Hd)
    as (E1 & E2 & _).
  split_and!; [done|done|]. rewrite E2.
  apply (NoDup_fmap_2 _), NoDup_seq.
Qed.

Lemma load_reviews_documents file_path file :
  Forall (λ doc, doc_source_type doc = "review" ∧
                 doc_metadata doc !! "product_id" = None ∧
                 (∃ s, doc_metadata doc !! "product_name" = Some (VStr s)) ∧
                 (∃ s, doc_metadata doc !! "rating" = Some (VStr s)))
         (load_reviews_from_txt str_strip file_path file).
Proof.
  unfold load_reviews_from_txt. destruct file as [[|first_line rest]|]; [done| |done].
  set (headers := headers_of str_strip first_line).
  destruct (list_index "Reviewer" headers) as [a|] eqn:Ea; [|done].
  destruct (list_index "Product" headers) as [b|] eqn:Eb; [|done].
  destruct (list_index "Rating" headers) as [c|] eqn:Ec; [|done].
  destruct (list_index "Review" headers) as [d|] eqn:Ed; [|done].
  apply list_index_lt in Ea, Eb, Ec, Ed.
  apply (review_lines_spec file_path (length headers) a b c d rest 0 0 Ea Eb Ec Ed).
Qed.

Variable str_lower : string → string.
Variable uuid4 : nat → string.

(** X18. Chunks of the reviews file match a product by name only: every
    chunk made from the documents of [load_reviews_from_txt] is of type
    review, its rating is a string, so that reading it never raises, and
    it carries no product id, so that the match the reconciliation makes is
    the comparison of the lowercased names. *)
Theorem file_reviews_match_by_name file_path file calls chunks calls' c :
  chunk_parsed_documents uuid4 (load_reviews_from_txt str_strip file_path file) calls
    = Some (chunks, calls') →
  c ∈ chunks →
  source_type c = "review" ∧
  is_Some (rating_str_of str_strip c) ∧
  ∀ product_id_to_match product_name_to_match,
    matches_product str_lower c product_id_to_match product_name_to_match =
    str_truthy (metadata_name str_lower c) &&
    bool_decide (metadata_name str_lower c = product_name_to_match).
Proof.
  intros Hchunks Hc.
  rewrite chunk_parsed_documents_closed in Hchunks. injection Hchunks as <- <-.
  apply all_doc_chunks_elem in Hc as (d0 & k & j & Hd0 & _ & ->).
  pose proof (load_reviews_documents file_path file) as Hall.
  rewrite Forall_forall in Hall.
  destruct (Hall d0 Hd0) as (Hst & Hpid & [name Hname] & [rating Hrating]).
  unfold rating_str_of, matches_product, metadata_name.
  cbn [new_chunk source_type metadata].
  rewrite !lookup_insert_ne by done. rewrite Hpid, Hname, Hrating.
  split_and!; [done|by eexists|]. intros pid pname. cbn.
  by destruct (str_truthy (str_lower name)), (bool_decide (str_lower name = pname)).
Qed.
End reviews.

(** ** Promotion of reviews that the model cited for no product *)

Section promotion_more.
Variable str_lower : string → string.
Variable str_strip : string → string.
(** Lowering the empty string gives the empty string. *)
Hypothesis str_lower_empty : str_lower "" = "".

End promotion_more.

(** ** Requests that end in an internal error *)

Lemma format_rag_contexts_escapes i rag e :
  format_rag_contexts_from i rag = Escapes e → e = TypeError ∨ e = AttributeError.
Proof.
  revert i. induction rag as [|context rag IH]; intros i; cbn [format_rag_contexts_from];
    [done|].
  unfold format_rag_context.
  destruct (raw_text_chunk context); [|intros [= <-]; by left].
  destruct (raw_metadata context); [|intros [= <-]; by right].
  destruct (format_rag_contexts_from (S i) rag) eqn:Hrest; [done|].
  intros [= <-]. by eapply IH.
Qed.

Section internal_errors.
Variable str_lower : string → string.
Variable str_strip : string → string.

(** X21. A failure of the first attempt whose handler logs a local that is
    not assigned yet is not retried: a [ValueError] or a [JSONDecodeError]
    raised before [raw_llm_output] is assigned (as the [ValueError] of
    [response.text] for a reply without text), or a [ValidationError]
    raised before [json_string] is assigned, makes the handler raise
    [UnboundLocalError]; the request ends with status 500 and leaves the
    session histories as they were, whatever later attempts would give. *)
Theorem unlogged_failure_ends_request env q store at_ e name :
  opt_str_truthy (env_api_key env) = true →
  prompt_formattable (env_rag_results env) →
  env_send_message_async env (history_for_llm q store) 0 = Raised at_ e →
  ((exn_cls e = ValueError ∨ exn_cls e = JSONDecodeError) ∧ at_ = BeforeOutput ∧
   name = "raw_llm_output") ∨
  (exn_cls e = ValidationError ∧ at_ ≠ AfterJsonString ∧ name = "json_string") →
  llm_call env q store = Escapes (UnboundLocalError name) ∧
  conversational_search str_lower str_strip env q store = (HTTPException 500, store).
Proof.
  intros Hkey Hfmt Hsend Hcase.
  assert (llm_call env q store = Escapes (UnboundLocalError name)) as Hcall.
  { unfold llm_call, get_conversational_response.
    destruct (env_api_key env) as [[|??]|]; try done.
    apply format_rag_contexts_returns in Hfmt as [formatted_rag ->].
    change (seq 0 max_retries) with (0 :: seq 1 2). cbn [retry_loop]. rewrite Hsend.
    unfold isinstance.
    destruct Hcase as [([Hcls|Hcls] & -> & ->)|(Hcls & Hat & ->)]; rewrite Hcls;
      cbn [base_class]; try done.
    destruct at_; done. }
  split; [done|]. unfold conversational_search. by rewrite Hcall.
Qed.

(** X22. A retrieval batch with an entry whose text or metadata is [None]
    cannot be formatted into the prompt: with an API key set, the request
    ends with status 500 before the first attempt, and leaves the session
    histories as they were. *)
Theorem unformattable_batch_ends_request env q store :
  opt_str_truthy (env_api_key env) = true →
  ¬ prompt_formattable (env_rag_results env) →
  (∃ e, (e = TypeError ∨ e = AttributeError) ∧ llm_call env q store = Escapes e) ∧
  conversational_search str_lower str_strip env q store = (HTTPException 500, store).
Proof.
  intros Hkey Hfmt.
  assert (∃ e, (e = TypeError ∨ e = AttributeError) ∧ llm_call env q store = Escapes e)
    as (e & He & Hcall).
  { unfold llm_call, get_conversational_response.
    destruct (env_api_key env) as [[|??]|]; try done.
    destruct (_format_rag_contexts (env_rag_results env)) as [formatted|e] eqn:Hf.
    - destruct Hfmt. apply format_rag_contexts_returns. by eexists.
    - exists e. split; [|done]. by eapply format_rag_contexts_escapes. }
  split; [by exists e|]. unfold conversational_search. by rewrite Hcall.
Qed.
End internal_errors.

(** ** The further properties on concrete inputs *)

Lemma formattable_info : prompt_formattable [raw_info].
Proof. intros c ->%list_elem_of_singleton. split; by eexists. Qed.

Lemma first_attempt_fails :
  ∀ attempt at_ e,
    [(AfterJsonString, json_decode_error)] !! attempt = Some (at_, e) →
    second_attempt_replies [] attempt = Raised at_ e.
Proof. intros [|attempt] at_ e H; cbn in H; by simplify_eq. Qed.

Lemma first_attempt_retried :
  retried_in_turn false false [(AfterJsonString, json_decode_error)].
Proof. cbn. repeat split; discriminate. Qed.

Lemma no_attempt_fails (send : list Turn → nat → attempt_outcome) :
  ∀ attempt at_ e,
    ([] : list (stage * exn)) !! attempt = Some (at_, e) →
    send [] attempt = Raised at_ e.
Proof. intros attempt at_ e H. by rewrite lookup_nil in H. Qed.

Lemma one_below_max_retries : 1 < max_retries.
Proof. unfold max_retries. lia. Qed.

Lemma zero_below_max_retries : 0 < max_retries.
Proof. unfold max_retries. lia. Qed.

Lemma first_reply_wins_witness :
  prompt_formattable [raw_info] ∧
  second_attempt_replies [] 0 = Raised AfterJsonString json_decode_error ∧
  second_attempt_replies [] 1 = Replied answer_json ∧
  get_conversational_response (Some "key") second_attempt_replies "uuid-0"
    "a query" [raw_info] None []
  = Returns (build_response "uuid-0" answer_json [raw_info] None).
Proof.
  refine (conj formattable_info (conj eq_refl (conj eq_refl _))).
  exact (first_reply_wins (Some "key") second_attempt_replies "uuid-0" "a query"
           [raw_info] None [] [(AfterJsonString, json_decode_error)] answer_json
           eq_refl formattable_info one_below_max_retries first_attempt_fails
           first_attempt_retried eq_refl).
Defined.

Lemma policy_rejection_is_final_witness :
  always_blocked [] 0 = Raised BeforeOutput blocked_prompt ∧
  get_conversational_response (Some "key") always_blocked "uuid-0"
    "a query" [raw_info] (Some "s7") []
  = Returns (canned_response (Some "s7")
               "The request could not be processed due to content policy."
               "Content policy violation.").
Proof.
  refine (conj eq_refl _).
  exact (policy_rejection_is_final (Some "key") always_blocked "uuid-0" "a query"
           [raw_info] (Some "s7") [] [] BeforeOutput blocked_prompt eq_refl
           formattable_info zero_below_max_retries (no_attempt_fails always_blocked)
           I eq_refl (or_introl eq_refl)).
Defined.

Lemma batch_cited_nonempty : env_rag_results env_cited ≠ [].
Proof. discriminate. Qed.

Lemma cited_reply_aligned :
  ∀ attempt,
    reply_aligned (env_send_message_async env_cited (history_for_llm a_query ∅) attempt).
Proof. intros attempt. reflexivity. Qed.

Lemma evidence_comes_from_batch_witness :
  conversational_search lower_ascii strip_ascii env_cited a_query ∅
    = (Ok cited_response, store_with plain_history) ∧
  (∀ c, c ∈ default [] (rag_contexts cited_response) →
        from_batch (env_rag_results env_cited) c) ∧
  (∀ r c, r ∈ default [] (results cited_response) → c ∈ supporting_reviews r →
          from_batch (env_rag_results env_cited) c ∧ source_type c = "review").
Proof.
  refine (conj run_cited _).
  exact (evidence_comes_from_batch lower_ascii strip_ascii env_cited a_query ∅
           cited_response (store_with plain_history) run_cited
           batch_cited_nonempty cited_reply_aligned).
Defined.

Lemma cited_names_session_s1 :
  ∀ resp,
    (conversational_search lower_ascii strip_ascii env_cited a_query ∅).1 = Ok resp →
    session_id resp ≠ Some "s2".
Proof. rewrite run_cited. intros resp [= <-]. discriminate. Qed.

Lemma other_sessions_untouched_witness :
  (conversational_search lower_ascii strip_ascii env_cited a_query ∅).1
    = Ok cited_response ∧
  (conversational_search lower_ascii strip_ascii env_cited a_query ∅).2 !! Some "s2"
    = (∅ : gmap (option string) (list Turn)) !! Some "s2".
Proof.
  refine (conj (f_equal fst run_cited) _).
  exact (other_sessions_untouched lower_ascii strip_ascii env_cited a_query ∅
           (Some "s2") cited_names_session_s1).
Defined.

Lemma empty_store_turn_pairs :
  ∀ (sid : option string) (h : list Turn),
    (∅ : gmap (option string) (list Turn)) !! sid = Some h → turn_pairs h.
Proof. intros sid h H. by rewrite lookup_empty in H. Qed.

Lemma run_served :
  serve lower_ascii strip_ascii [(env_cited, a_query); (env_order, a_query)] ∅
    !! Some "s1"
  = Some (plain_history ++ answer_history).
Proof. vm_cast_no_check (eq_refl (Some (plain_history ++ answer_history))). Qed.

Lemma histories_are_turn_pairs_witness :
  serve lower_ascii strip_ascii [(env_cited, a_query); (env_order, a_query)] ∅
    !! Some "s1"
    = Some (plain_history ++ answer_history) ∧
  turn_pairs (plain_history ++ answer_history).
Proof.
  refine (conj run_served _).
  exact (histories_are_turn_pairs lower_ascii strip_ascii
           [(env_cited, a_query); (env_order, a_query)] ∅ (Some "s1")
           (plain_history ++ answer_history) empty_store_turn_pairs run_served).
Defined.

Lemma s1_nonempty : "s1" ≠ "".
Proof. discriminate. Qed.

Lemma stored_history_is_read_back_witness :
  conversational_search lower_ascii strip_ascii env_cited a_query ∅
    = (Ok cited_response, store_with plain_history) ∧
  history_for_llm {| query := "and for oily skin?"; query_session_id := Some "s1" |}
    (store_with plain_history) =
  (let appended :=
     default [] ((∅ : gmap (option string) (list Turn)) !! Some "s1") ++
       [ {| role := "user"; parts := [query a_query] |};
         {| role := "model";
            parts := [response_summary_for_history strip_ascii cited_response] |} ] in
   drop (length appended - MAX_HISTORY_TURNS * 2) appended).
Proof.
  refine (conj run_cited _).
  exact (stored_history_is_read_back lower_ascii strip_ascii env_cited a_query ∅
           cited_response (store_with plain_history) "s1" "and for oily skin?"
           run_cited eq_refl s1_nonempty).
Defined.

Lemma rank_margins_are_numbers :
  margins_are_numbers [recommended bright_c_serum []; recommended hydra_gel []].
Proof.
  intros r Hr. apply elem_of_cons in Hr as [->|Hr]; [done|].
  apply list_elem_of_singleton in Hr as ->. done.
Qed.

Lemma equal_margins_keep_order_witness :
  conversational_search lower_ascii strip_ascii env_rank a_query ∅
    = (Ok rank_response, store_with plain_history) ∧
  recommendation <$>
    filter (λ r, margin_percentage (product r) = Some (Finite (Qc_of_Z 55)))
      [recommended bright_c_serum []; recommended hydra_gel []] =
  recommendation <$>
    filter (λ r, margin_percentage (product r) = Some (Finite (Qc_of_Z 55)))
      (validate_results (product_catalog_dict_of env_rank)
         (default [] (results (llm_response_of env_rank a_query ∅)))).
Proof.
  refine (conj run_rank _).
  exact (equal_margins_keep_order lower_ascii strip_ascii env_rank a_query ∅
           rank_response (store_with plain_history)
           [recommended bright_c_serum []; recommended hydra_gel []]
           (Finite (Qc_of_Z 55)) run_rank eq_refl rank_margins_are_numbers).
Defined.

Lemma margin_ordering_witness :
  conversational_search lower_ascii strip_ascii env_rank a_query ∅
    = (Ok rank_response, store_with plain_history) ∧
  results rank_response
    = Some [recommended bright_c_serum []; recommended hydra_gel []] ∧
  ∃ sorted rest,
    [recommended bright_c_serum []; recommended hydra_gel []] = sorted ++ rest ∧
    StronglySorted margin_desc sorted ∧ Forall has_margin sorted ∧
    Forall lacks_margin rest.
Proof.
  refine (conj run_rank (conj eq_refl _)).
  destruct (margin_ordering lower_ascii strip_ascii env_rank a_query ∅
              rank_response (store_with plain_history) _ run_rank eq_refl
              rank_margins_are_numbers)
    as (sorted & rest & H1 & H2 & H3 & H4 & _).
  exists sorted, rest. exact (conj H1 (conj H2 (conj H3 H4))).
Defined.

Lemma run_no_catalog_call :
  llm_call env_no_catalog a_query ∅
  = Returns (response_with (Some [proposal "P001"]) [hydrated_info] None).
Proof.
  vm_cast_no_check
    (eq_refl (Returns (response_with (Some [proposal "P001"]) [hydrated_info] None))).
Qed.

Lemma catalog_unavailable_degrades_witness :
  env_products env_no_catalog = HTTPException 500 ∧
  llm_call env_no_catalog a_query ∅
    = Returns (response_with (Some [proposal "P001"]) [hydrated_info] None) ∧
  ∃ resp,
    conversational_search lower_ascii strip_ascii env_no_catalog a_query ∅ =
      (Ok resp, update_conversations strip_ascii ∅ (session_id resp) (query a_query) resp) ∧
    default [] (results resp) = [] ∧
    rag_contexts resp = Some [hydrated_info].
Proof.
  refine (conj eq_refl (conj run_no_catalog_call _)).
  exact (catalog_unavailable_degrades lower_ascii strip_ascii env_no_catalog a_query ∅
           500 _ eq_refl run_no_catalog_call).
Defined.




Lemma run_brand_chunk :
  chunk_parsed_documents uuid4_numbered [doc_of_length 3] 0 = Some ([brand_chunk], 1).
Proof. vm_cast_no_check (eq_refl (Some ([brand_chunk], 1))). Qed.

Lemma brand_chunk_elem : brand_chunk ∈ [brand_chunk].
Proof. by apply list_elem_of_singleton. Qed.

Lemma chunk_text_bounds_witness :
  chunk_parsed_documents uuid4_numbered [doc_of_length 3] 0 = Some ([brand_chunk], 1) ∧
  0 < length (text_chunk brand_chunk) ≤ TEXT_CHUNK_SIZE ∧
  ∃ d before after,
    d ∈ [doc_of_length 3] ∧ document_id brand_chunk = doc_id d ∧
    content d = before ++ text_chunk brand_chunk ++ after.
Proof.
  refine (conj run_brand_chunk _).
  exact (chunk_text_bounds uuid4_numbered [doc_of_length 3] 0 [brand_chunk] 1
           brand_chunk run_brand_chunk brand_chunk_elem).
Defined.

Lemma uuid4_numbered_inj : Inj (=) (=) uuid4_numbered.
Proof.
  intros m n H. unfold uuid4_numbered in H.
  by apply (inj (String.append "uuid-")), (inj pretty) in H.
Qed.

Lemma uuid4_numbered_nonempty : ∀ n, uuid4_numbered n ≠ "".
Proof. intros n. unfold uuid4_numbered. discriminate. Qed.

Lemma run_two_documents :
  chunk_parsed_documents uuid4_numbered [doc_of_length 3; doc_of_length 500] 0
  = Some ([brand_chunk;
           new_chunk uuid4_numbered (doc_of_length 500) (replicate 500 "a"%char) 1;
           new_chunk uuid4_numbered (doc_of_length 500) (replicate 38 "a"%char) 2], 3).
Proof.
  vm_cast_no_check
    (eq_refl (Some ([brand_chunk;
           new_chunk uuid4_numbered (doc_of_length 500) (replicate 500 "a"%char) 1;
           new_chunk uuid4_numbered (doc_of_length 500) (replicate 38 "a"%char) 2], 3))).
Qed.

Lemma chunk_ids_are_distinct_witness :
  Inj (=) (=) uuid4_numbered ∧
  NoDup (chunk_id <$>
           [brand_chunk;
            new_chunk uuid4_numbered (doc_of_length 500) (replicate 500 "a"%char) 1;
            new_chunk uuid4_numbered (doc_of_length 500) (replicate 38 "a"%char) 2]) ∧
  3 = 0 + length
        [brand_chunk;
         new_chunk uuid4_numbered (doc_of_length 500) (replicate 500 "a"%char) 1;
         new_chunk uuid4_numbered (doc_of_length 500) (replicate 38 "a"%char) 2].
Proof.
  refine (conj uuid4_numbered_inj _).
  exact (chunk_ids_are_distinct uuid4_numbered [doc_of_length 3; doc_of_length 500] 0
           _ 3 uuid4_numbered_inj run_two_documents).
Defined.

Lemma chunk_metadata_inherited_witness :
  chunk_parsed_documents uuid4_numbered [doc_of_length 3] 0 = Some ([brand_chunk], 1) ∧
  ∃ d, d ∈ [doc_of_length 3] ∧
    document_id brand_chunk = doc_id d ∧ source_type brand_chunk = doc_source_type d ∧
    metadata brand_chunk !! "original_doc_id" = Some (VStr (doc_id d)) ∧
    metadata brand_chunk !! "source_type" = Some (VStr (doc_source_type d)) ∧
    ∀ key, key ≠ "original_doc_id" → key ≠ "source_type" →
           metadata brand_chunk !! key = doc_metadata d !! key.
Proof.
  refine (conj run_brand_chunk _).
  exact (chunk_metadata_inherited uuid4_numbered [doc_of_length 3] 0 [brand_chunk] 1
           brand_chunk run_brand_chunk brand_chunk_elem).
Defined.

Lemma run_query_brand_chunk :
  format_query_results (query_result_of [brand_chunk] [Qc_of_Z 0])
  = Some [raw_dict_of brand_chunk (Qc_of_Z 0)].
Proof. exact (format_query_result_of [brand_chunk] [Qc_of_Z 0] eq_refl). Qed.

Lemma query_results_follow_ids_witness :
  format_query_results (query_result_of [brand_chunk] [Qc_of_Z 0])
    = Some [raw_dict_of brand_chunk (Qc_of_Z 0)] ∧
  raw_id <$> [raw_dict_of brand_chunk (Qc_of_Z 0)] =
  default [] (head (res_ids (query_result_of [brand_chunk] [Qc_of_Z 0]))).
Proof.
  refine (conj run_query_brand_chunk _).
  exact (query_results_follow_ids (query_result_of [brand_chunk] [Qc_of_Z 0])
           [raw_dict_of brand_chunk (Qc_of_Z 0)] run_query_brand_chunk).
Defined.

Lemma brand_document_named :
  ∀ d, d ∈ [doc_of_length 3] → doc_id d ≠ "" ∧ doc_source_type d ≠ "".
Proof. intros d ->%list_elem_of_singleton. split; discriminate. Qed.

Lemma ingested_chunk_round_trip_witness :
  chunk_parsed_documents uuid4_numbered [doc_of_length 3] 0 = Some ([brand_chunk], 1) ∧
  format_query_results (query_result_of [brand_chunk] [Qc_of_Z 0])
    = Some [raw_dict_of brand_chunk (Qc_of_Z 0)] ∧
  hydrate_rag_context (raw_dict_map_of [raw_dict_of brand_chunk (Qc_of_Z 0)])
    (chunk_id brand_chunk) = Some brand_chunk.
Proof.
  refine (conj run_brand_chunk (conj run_query_brand_chunk _)).
  exact (ingested_chunk_round_trip uuid4_numbered [doc_of_length 3] 0 [brand_chunk] 1
           [brand_chunk] [Qc_of_Z 0] [raw_dict_of brand_chunk (Qc_of_Z 0)] brand_chunk
           uuid4_numbered_inj uuid4_numbered_nonempty brand_document_named
           run_brand_chunk (reflexivity _) eq_refl run_query_brand_chunk brand_chunk_elem).
Defined.

Lemma serum_listed : [bright_c_serum] ≠ [].
Proof. discriminate. Qed.

Lemma cached_catalog_is_reused_witness :
  list_products (catalog_file [bright_c_serum]) empty_cache
    = (Ok [bright_c_serum],
       {| _products_cache := [bright_c_serum];
          _products_cache_mtime := Some (Qc_of_Z 1) |}) ∧
  list_products unreadable_catalog_file
    {| _products_cache := [bright_c_serum]; _products_cache_mtime := Some (Qc_of_Z 1) |}
    = (Ok [bright_c_serum],
       {| _products_cache := [bright_c_serum];
          _products_cache_mtime := Some (Qc_of_Z 1) |}).
Proof.
  refine (conj eq_refl _).
  exact (cached_catalog_is_reused (catalog_file [bright_c_serum]) empty_cache
           [bright_c_serum] _ unreadable_catalog_file (Qc_of_Z 1) (Qc_of_Z 1)
           eq_refl serum_listed eq_refl eq_refl (Qcle_refl _)).
Defined.

Lemma empty_catalog_is_reloaded_witness :
  list_products (catalog_file []) empty_cache
    = (Ok [], {| _products_cache := []; _products_cache_mtime := Some (Qc_of_Z 1) |}) ∧
  list_products (catalog_file [bright_c_serum])
    {| _products_cache := []; _products_cache_mtime := Some (Qc_of_Z 1) |}
    = (Ok [bright_c_serum],
       {| _products_cache := [bright_c_serum];
          _products_cache_mtime := Some (Qc_of_Z 1) |}).
Proof.
  refine (conj eq_refl _).
  exact (empty_catalog_is_reloaded (catalog_file []) empty_cache _
           (catalog_file [bright_c_serum]) (Qc_of_Z 1) (or_introl eq_refl) eq_refl).
Defined.

Lemma run_headers :
  headers_of strip_ascii reviews_header = ["Reviewer"; "Product"; "Rating"; "Review"].
Proof. vm_cast_no_check (eq_refl ["Reviewer"; "Product"; "Rating"; "Review"]). Qed.

Lemma header_names (x : string) :
  x ∈ ["Reviewer"; "Product"; "Rating"; "Review"] →
  x ∈ headers_of strip_ascii reviews_header.
Proof. by rewrite run_headers. Qed.

Lemma run_reviews :
  load_reviews_from_txt strip_ascii "verified_reviews.txt"
    (Some (reviews_header :: reviews_rows))
  = [review_of_ana; review_of_cleo].
Proof. vm_cast_no_check (eq_refl [review_of_ana; review_of_cleo]). Qed.

Lemma reviews_are_numbered_witness :
  load_reviews_from_txt strip_ascii "verified_reviews.txt"
    (Some (reviews_header :: reviews_rows))
    = [review_of_ana; review_of_cleo] ∧
  doc_id <$> load_reviews_from_txt strip_ascii "verified_reviews.txt"
               (Some (reviews_header :: reviews_rows)) =
    (λ j, "review_txt_" +:+ pretty j) <$>
      seq 0 (length (load_reviews_from_txt strip_ascii "verified_reviews.txt"
                       (Some (reviews_header :: reviews_rows)))) ∧
  NoDup (doc_id <$> load_reviews_from_txt strip_ascii "verified_reviews.txt"
                      (Some (reviews_header :: reviews_rows))).
Proof.
  refine (conj run_reviews _).
  exact (proj2 (reviews_are_numbered strip_ascii "verified_reviews.txt"
                  reviews_header reviews_rows
                  (header_names "Reviewer" ltac:(set_solver))
                  (header_names "Product" ltac:(set_solver))
                  (header_names "Rating" ltac:(set_solver))
                  (header_names "Review" ltac:(set_solver)))).
Defined.

Lemma run_review_chunks :
  chunk_parsed_documents uuid4_numbered
    (load_reviews_from_txt strip_ascii "verified_reviews.txt"
       (Some (reviews_header :: reviews_rows))) 0
  = Some ([review_chunk review_of_ana 0; review_chunk review_of_cleo 1], 2).
Proof.
  vm_cast_no_check
    (eq_refl (Some ([review_chunk review_of_ana 0; review_chunk review_of_cleo 1], 2))).
Qed.

Lemma review_chunk_elem :
  review_chunk review_of_ana 0 ∈ [review_chunk review_of_ana 0; review_chunk review_of_cleo 1].
Proof. apply list_elem_of_here. Qed.

Lemma file_reviews_match_by_name_witness :
  chunk_parsed_documents uuid4_numbered
    (load_reviews_from_txt strip_ascii "verified_reviews.txt"
       (Some (reviews_header :: reviews_rows))) 0
    = Some ([review_chunk review_of_ana 0; review_chunk review_of_cleo 1], 2) ∧
  source_type (review_chunk review_of_ana 0) = "review" ∧
  is_Some (rating_str_of strip_ascii (review_chunk review_of_ana 0)) ∧
  ∀ product_id_to_match product_name_to_match,
    matches_product lower_ascii (review_chunk review_of_ana 0)
      product_id_to_match product_name_to_match =
    str_truthy (metadata_name lower_ascii (review_chunk review_of_ana 0)) &&
    bool_decide (metadata_name lower_ascii (review_chunk review_of_ana 0)
                 = product_name_to_match).
Proof.
  refine (conj run_review_chunks _).
  exact (file_reviews_match_by_name strip_ascii lower_ascii uuid4_numbered
           "verified_reviews.txt" (Some (reviews_header :: reviews_rows)) 0
           [review_chunk review_of_ana 0; review_chunk review_of_cleo 1] 2
           (review_chunk review_of_ana 0) run_review_chunks review_chunk_elem).
Defined.

Lemma unlogged_failure_ends_request_witness :
  env_send_message_async env_no_text (history_for_llm a_query ∅) 0
    = Raised BeforeOutput reply_without_text ∧
  llm_call env_no_text a_query ∅ = Escapes (UnboundLocalError "raw_llm_output") ∧
  conversational_search lower_ascii strip_ascii env_no_text a_query ∅
    = (HTTPException 500, ∅).
Proof.
  refine (conj eq_refl _).
  exact (unlogged_failure_ends_request lower_ascii strip_ascii env_no_text a_query ∅
           BeforeOutput reply_without_text "raw_llm_output" eq_refl formattable_info
           eq_refl (or_introl (conj (or_introl eq_refl) (conj eq_refl eq_refl)))).
Defined.

Lemma batch_without_document : ¬ prompt_formattable (env_rag_results env_no_document).
Proof.
  intros H. destruct (H raw_without_text) as [[? Htext] _]; [|done].
  cbn. set_solver.
Qed.

Lemma unformattable_batch_ends_request_witness :
  opt_str_truthy (env_api_key env_no_document) = true ∧
  conversational_search lower_ascii strip_ascii env_no_document a_query ∅
    = (HTTPException 500, ∅).
Proof.
  refine (conj eq_refl _).
  exact (proj2 (unformattable_batch_ends_request lower_ascii strip_ascii env_no_document
                  a_query ∅ eq_refl batch_without_document)).
Defined.
